(** * Rufus handle search (src/search.c): a shallow embedding

    The search engine of [SearchProcess] talks to the operating system at
    every step.  The embedding keeps the C control flow and makes the
    operating system an explicit, arbitrary, deterministic environment
    [OS W] over a world type [W]; every native call is a transition of the
    world and is recorded in a trace of events, so that properties such as
    "this handle is closed" or "no duplication call is issued" are
    statements about the trace. *)

From Stdlib Require Import ZArith List String Ascii Bool Lia.
Import ListNotations.
Open Scope Z_scope.

(** ** Native data *)

Definition NTSTATUS := Z.   (* LONG, signed 32 bits *)
Definition HANDLE := Z.
Definition PVOID := Z.
Definition WCHAR := Z.
Definition NULL : Z := 0.

(** [(NTSTATUS)0x...L]: the 32-bit pattern read as a signed LONG. *)
Definition ntstatus (u : Z) : NTSTATUS := if u <? 2 ^ 31 then u else u - 2 ^ 32.

Definition STATUS_SUCCESS : NTSTATUS := 0.
Definition STATUS_ALREADY_COMPLETE : NTSTATUS := ntstatus 0x000000FF.
Definition STATUS_BUFFER_OVERFLOW : NTSTATUS := ntstatus 0x80000005.
Definition STATUS_UNSUCCESSFUL : NTSTATUS := ntstatus 0xC0000001.
Definition STATUS_NOT_IMPLEMENTED : NTSTATUS := ntstatus 0xC0000002.
Definition STATUS_INFO_LENGTH_MISMATCH : NTSTATUS := ntstatus 0xC0000004.
Definition STATUS_NO_MEMORY : NTSTATUS := ntstatus 0xC0000017.
Definition STATUS_ACCESS_DENIED : NTSTATUS := ntstatus 0xC0000022.
Definition STATUS_BUFFER_TOO_SMALL : NTSTATUS := ntstatus 0xC0000023.
Definition STATUS_INSUFFICIENT_RESOURCES : NTSTATUS := ntstatus 0xC000009A.

(** [#define NT_SUCCESS(Status) (((NTSTATUS)(Status)) >= 0)] *)
Definition NT_SUCCESS (s : NTSTATUS) : bool := 0 <=? s.

(** [NtCurrentProcess()] is the pseudo handle [(HANDLE)(LONG_PTR)-1]. *)
Definition NtCurrentProcess : HANDLE := -1.
Definition FILE_TYPE_DISK : Z := 1.

(** ULONG arithmetic wraps modulo 2^32, USHORT casts modulo 2^16. *)
Definition ULONG_wrap (z : Z) : Z := z mod 2 ^ 32.
Definition USHORT_cast (z : Z) : Z := z mod 2 ^ 16.

(** One record of the system handle snapshot. *)
Record SYSTEM_HANDLE_TABLE_ENTRY_INFO_EX := {
  UniqueProcessId : Z;
  HandleValue : Z;
  GrantedAccess : Z;
  ObjectTypeIndex : Z
}.

(** The snapshot as it lies in the buffer of [PhEnumHandlesEx]:
    [NumberOfHandles] is the count the system declares; [Handles] lists
    every record-sized slot of the allocated buffer, the declared records
    first and then whatever the rest of the buffer holds.  Reading a slot
    past the end of [Handles] leaves the allocation. *)
Record SYSTEM_HANDLE_INFORMATION_EX := {
  NumberOfHandles : nat;
  Handles : list SYSTEM_HANDLE_TABLE_ENTRY_INFO_EX
}.

(** [UNICODE_STRING]: [Length] and [MaximumLength] count bytes, [Buffer]
    holds the 16-bit characters in front of the terminating zero. *)
Record UNICODE_STRING := {
  Length : Z;
  MaximumLength : Z;
  Buffer : list WCHAR
}.

(** The [UNICODE_STRING] the system produces for a name: two bytes per
    character, the terminator counted in [MaximumLength] only. *)
Definition unicode_string_of (s : list WCHAR) : UNICODE_STRING :=
  {| Length := 2 * Z.of_nat (List.length s);
     MaximumLength := 2 * Z.of_nat (List.length s) + 2;
     Buffer := s |}.

(** [wcslen]: number of characters in front of the first zero. *)
Fixpoint wcslen (s : list WCHAR) : nat :=
  match s with
  | [] => O
  | c :: s' => if c =? 0 then O else S (wcslen s')
  end.

(** [wcsncmp s1 s2 n]: ordinal comparison of at most [n] characters,
    stopping at a terminator; the end of a list is its terminator. *)
Fixpoint wcsncmp (s1 s2 : list WCHAR) (n : nat) : Z :=
  match n with
  | O => 0
  | S n' =>
      let c1 := hd 0 s1 in
      let c2 := hd 0 s2 in
      if c1 =? c2
      then if c1 =? 0 then 0 else wcsncmp (tl s1) (tl s2) n'
      else if c1 <? c2 then -1 else 1
  end.

(** [strcmp(a, b) != 0] on the two executable-path slots. *)
Definition strcmp_ne (a b : string) : bool :=
  if string_dec a b then false else true.

(** ** The trace *)

(** Lines sent to [uprintf]. *)
Inductive line :=
| LWarningEnumerate (status : NTSTATUS)  (* "Warning: Could not enumerate process handles: %s" *)
| LHeader (HandleName : string)          (* "\r\nNOTE: The following process(es) are accessing %s:" *)
| LPath (exe : string)                   (* "o %s" *)
| LUnknown (pid : Z)                     (* "o Unknown (Process ID %d)" *)
| LCloseApplications                     (* "You should try to close these applications ..." *)
| LNotIdentified (HandleName : string).  (* "NOTE: ... was not able to identify the process(es) ..." *)

(** Lines sent to [uuprintf] (verbose log). *)
Inductive debug_line :=
| DOpenFailed (pid : Z) (status : NTSTATUS)
| DRealloc (from to : Z)
| DQueryFailed (handle pid : Z) (status : NTSTATUS).

Inductive event :=
| EvRtlCreateHeap (heap : PVOID)
| EvRtlDestroyHeap (heap : PVOID) (r : PVOID)
| EvRtlAllocateHeap (heap : PVOID) (size : Z) (p : PVOID)
| EvRtlFreeHeap (heap : PVOID) (p : PVOID)
| EvNtQuerySystemInformation (buffer : PVOID) (size : Z) (status : NTSTATUS)
| EvRecord (i : nat)   (* handles->Handles[i] is dereferenced *)
| EvPhOpenProcess (i : nat) (pid : Z) (status : NTSTATUS) (out : option HANDLE)
| EvNtDuplicateObject (i : nat) (process : HANDLE) (value : Z)
                      (status : NTSTATUS) (out : option HANDLE)
| EvGetFileType (h : HANDLE) (type : Z)
| EvNtQueryObject (h : HANDLE) (buffer : PVOID) (size : Z)
                  (status : NTSTATUS) (returnSize : Z)
| EvNtClose (h : HANDLE)
| EvGetModuleFileNameExU (process : HANDLE) (r : option string)
| EvGetProcessId (process : HANDLE) (pid : Z)
| EvFreeName   (* free(wHandleName) *)
| EvUprintf (l : line)
| EvUuprintf (l : debug_line).

(** ** The operating system *)

(** The entry points resolved at run time by [PF_INIT]. *)
Inductive proc :=
| pRtlCreateHeap | pRtlDestroyHeap | pRtlAllocateHeap | pRtlFreeHeap
| pNtQuerySystemInformation | pNtQueryObject | pNtDuplicateObject
| pNtOpenProcess | pNtClose.

(** An arbitrary deterministic system over worlds [W].  An out parameter
    the call may leave untouched is an [option]. *)
Record OS (W : Type) := {
  pf_resolved : proc -> bool;
  GetCurrentProcessId : Z;
  utf8_to_wchar : string -> list WCHAR;
  RtlCreateHeap : W -> PVOID * W;
  RtlDestroyHeap : PVOID -> W -> PVOID * W;
  RtlAllocateHeap : PVOID -> Z -> W -> PVOID * W;
  RtlFreeHeap : PVOID -> PVOID -> W -> W;
  NtQuerySystemInformation :
    PVOID -> Z -> W -> (NTSTATUS * SYSTEM_HANDLE_INFORMATION_EX) * W;
  NtOpenProcess : Z -> W -> (NTSTATUS * option HANDLE) * W;
  NtDuplicateObject : HANDLE -> Z -> W -> (NTSTATUS * option HANDLE) * W;
  NtClose : HANDLE -> W -> W;
  GetFileType : HANDLE -> W -> Z * W;
  NtQueryObject : HANDLE -> PVOID -> Z -> W -> (NTSTATUS * Z * UNICODE_STRING) * W;
  GetModuleFileNameExU : HANDLE -> W -> option string * W;
  GetProcessId : HANDLE -> W -> Z * W;
  user_cancel : W -> bool * W
}.

Arguments pf_resolved {W}.
Arguments GetCurrentProcessId {W}.
Arguments utf8_to_wchar {W}.
Arguments RtlCreateHeap {W}.
Arguments RtlDestroyHeap {W}.
Arguments RtlAllocateHeap {W}.
Arguments RtlFreeHeap {W}.
Arguments NtQuerySystemInformation {W}.
Arguments NtOpenProcess {W}.
Arguments NtDuplicateObject {W}.
Arguments NtClose {W}.
Arguments GetFileType {W}.
Arguments NtQueryObject {W}.
Arguments GetModuleFileNameExU {W}.
Arguments GetProcessId {W}.
Arguments user_cancel {W}.

(** ** Machine state and the monad of the embedding *)

(** The world together with the two variables of the file that outlive a
    call: the global [PhHeapHandle] and the function-static
    [initialBufferSize] of [PhEnumHandlesEx]. *)
Record machine (W : Type) := {
  world : W;
  PhHeapHandle : PVOID;
  initialBufferSize : Z
}.

Arguments world {W}.
Arguments PhHeapHandle {W}.
Arguments initialBufferSize {W}.

Definition set_world {W} (w : W) (m : machine W) : machine W :=
  {| world := w; PhHeapHandle := PhHeapHandle m;
     initialBufferSize := initialBufferSize m |}.
Definition set_PhHeapHandle {W} (h : PVOID) (m : machine W) : machine W :=
  {| world := world m; PhHeapHandle := h;
     initialBufferSize := initialBufferSize m |}.
Definition set_initialBufferSize {W} (z : Z) (m : machine W) : machine W :=
  {| world := world m; PhHeapHandle := PhHeapHandle m;
     initialBufferSize := z |}.

(** A computation returns its value, the new machine and the events it
    emitted, oldest first. *)
Definition M (W A : Type) : Type := machine W -> A * machine W * list event.

Definition ret {W A} (a : A) : M W A := fun m => (a, m, []).

Definition bind {W A B} (c : M W A) (k : A -> M W B) : M W B :=
  fun m =>
    let '(a, m1, e1) := c m in
    let '(b, m2, e2) := k a m1 in
    (b, m2, e1 ++ e2).

Definition emit {W} (e : event) : M W unit := fun m => (tt, m, [e]).

(** A native call: step the world, report the call. *)
Definition os_call {W A} (f : W -> A * W) (ev : A -> event) : M W A :=
  fun m => let (a, w) := f (world m) in (a, set_world w m, [ev a]).

Definition get_heap {W} : M W PVOID := fun m => (PhHeapHandle m, m, []).
Definition put_heap {W} (h : PVOID) : M W unit :=
  fun m => (tt, set_PhHeapHandle h m, []).
Definition get_initialBufferSize {W} : M W Z :=
  fun m => (initialBufferSize m, m, []).
Definition put_initialBufferSize {W} (z : Z) : M W unit :=
  fun m => (tt, set_initialBufferSize z m, []).

Declare Scope engine_scope.
Delimit Scope engine_scope with engine.
Notation "x <- c ;; k" := (bind c (fun x => k))
  (at level 61, c at next level, right associativity) : engine_scope.
Notation "' p <- c ;; k" := (bind c (fun x => let 'p := x in k))
  (at level 61, p pattern, c at next level, right associativity) : engine_scope.
Notation "c ;; k" := (bind c (fun _ => k))
  (at level 61, right associativity) : engine_scope.
Open Scope engine_scope.

Definition events_of {W A} (r : A * machine W * list event) : list event := snd r.
Definition value_of {W A} (r : A * machine W * list event) : A := fst (fst r).
Definition machine_of {W A} (r : A * machine W * list event) : machine W :=
  snd (fst r).

(** ** Observations on a trace *)

Definition line_of (e : event) : list line :=
  match e with EvUprintf l => [l] | _ => [] end.
Definition record_of (e : event) : list nat :=
  match e with EvRecord i => [i] | _ => [] end.
Definition open_of (e : event) : list (nat * Z * NTSTATUS) :=
  match e with EvPhOpenProcess i p st _ => [(i, p, st)] | _ => [] end.
Definition duplicate_of (e : event) : list (nat * Z) :=
  match e with EvNtDuplicateObject i _ v _ _ => [(i, v)] | _ => [] end.
Definition close_of (e : event) : list HANDLE :=
  match e with EvNtClose h => [h] | _ => [] end.
Definition query_of (e : event) : list (NTSTATUS * Z) :=
  match e with EvNtQueryObject _ _ _ st sz => [(st, sz)] | _ => [] end.
Definition resolved_of (e : event) : list string :=
  match e with EvGetModuleFileNameExU _ (Some p) => [p] | _ => [] end.
Definition path_of (l : line) : list string :=
  match l with LPath p => [p] | _ => [] end.
Definition slot_of (e : event) : list (HANDLE + NTSTATUS * option HANDLE) :=
  match e with
  | EvNtClose h => [inl h]
  | EvPhOpenProcess _ _ st out => [inr (st, out)]
  | _ => []
  end.

(** The lines sent to [uprintf], oldest first. *)
Definition uprintf_lines (tr : list event) : list line := flat_map line_of tr.
(** The indices of the snapshot records dereferenced. *)
Definition records_read (tr : list event) : list nat := flat_map record_of tr.
(** The calls of [PhOpenProcess]: loop index, process id, status. *)
Definition opens (tr : list event) : list (nat * Z * NTSTATUS) :=
  flat_map open_of tr.
(** The calls of [NtDuplicateObject]: loop index, raw handle value. *)
Definition duplications (tr : list event) : list (nat * Z) :=
  flat_map duplicate_of tr.
(** The handles passed to [NtClose]. *)
Definition closes (tr : list event) : list HANDLE := flat_map close_of tr.
(** The replies of [NtQueryObject]: status and reported size. *)
Definition queries (tr : list event) : list (NTSTATUS * Z) :=
  flat_map query_of tr.
(** The executable paths [GetModuleFileNameExU] resolved. *)
Definition resolved (tr : list event) : list string := flat_map resolved_of tr.
(** The calls that concern the process-handle slot, in order: a handle
    passed to [NtClose], or what a call of [PhOpenProcess] produced. *)
Definition slot_events (tr : list event)
  : list (HANDLE + NTSTATUS * option HANDLE) := flat_map slot_of tr.
(** The paths of the "o %s" lines. *)
Definition path_lines (tr : list event) : list string :=
  flat_map path_of (uprintf_lines tr).

(** The events of the private heap, of the snapshot query and of the
    release of the converted name: what set-up and clean-up emit. *)
Definition housekeeping_event (e : event) : Prop :=
  match e with
  | EvRtlCreateHeap _ | EvRtlDestroyHeap _ _
  | EvRtlAllocateHeap _ _ _ | EvRtlFreeHeap _ _
  | EvNtQuerySystemInformation _ _ _ | EvFreeName => True
  | _ => False
  end.

(** What the name query of one candidate emits: heap traffic, the
    queries themselves and verbose lines. *)
Definition name_event (e : event) : Prop :=
  match e with
  | EvNtQueryObject _ _ _ _ _ | EvUuprintf _ => True
  | _ => housekeeping_event e
  end.

Definition silent (tr : list event) : Prop := Forall name_event tr.

(** * The engine *)

Section Engine.

Context {W : Type} (os : OS W).

(** [PH_LARGE_BUFFER_SIZE], the ceiling of the snapshot buffer, is a macro
    of search.h; the engine is parametric in its value. *)
Variable PH_LARGE_BUFFER_SIZE : Z.

(** The C locals [pid[1]] and [exe[1]] are not initialised; these are the
    values the stack happens to hold. *)
Variable pid1_indeterminate : Z.
Variable exe1_indeterminate : string.

Local Abbreviation Mo := (M W).

(** Modelled from the spec: the macro [PF_INIT_OR_SET_STATUS] of rufus.h
    (section 4.1, a capability is present or absent).  It resolves the
    entry point and, when that is absent and [status] still reports
    success, sets [status] to [STATUS_NOT_IMPLEMENTED]. *)
Definition PF_INIT_OR_SET_STATUS (p : proc) (status : NTSTATUS) : NTSTATUS :=
  if negb (pf_resolved os p) && NT_SUCCESS status
  then STATUS_NOT_IMPLEMENTED else status.

(** Modelled from the spec: the macro [CHECK_FOR_USER_CANCEL] of rufus.h
    (section 4.5, a cancellation check polled once per candidate).  The
    result [true] stands for the macro's [goto out]. *)
Definition CHECK_FOR_USER_CANCEL : Mo bool :=
  fun m => let (c, w) := user_cancel os (world m) in (c, set_world w m, []).

(** ** Native calls with their trace events *)

Definition pfRtlCreateHeap : Mo PVOID :=
  os_call (RtlCreateHeap os) EvRtlCreateHeap.
Definition pfRtlDestroyHeap (heap : PVOID) : Mo PVOID :=
  os_call (RtlDestroyHeap os heap) (EvRtlDestroyHeap heap).
Definition pfRtlAllocateHeap (heap : PVOID) (size : Z) : Mo PVOID :=
  os_call (RtlAllocateHeap os heap size) (EvRtlAllocateHeap heap size).
Definition pfRtlFreeHeap (heap : PVOID) (p : PVOID) : Mo unit :=
  os_call (fun w => (tt, RtlFreeHeap os heap p w)) (fun _ => EvRtlFreeHeap heap p).
Definition pfNtQuerySystemInformation (buffer : PVOID) (size : Z)
  : Mo (NTSTATUS * SYSTEM_HANDLE_INFORMATION_EX) :=
  os_call (NtQuerySystemInformation os buffer size)
          (fun r => EvNtQuerySystemInformation buffer size (fst r)).
Definition pfNtClose (h : HANDLE) : Mo unit :=
  os_call (fun w => (tt, NtClose os h w)) (fun _ => EvNtClose h).
Definition pfNtDuplicateObject (i : nat) (process : HANDLE) (value : Z)
  : Mo (NTSTATUS * option HANDLE) :=
  os_call (NtDuplicateObject os process value)
          (fun r => EvNtDuplicateObject i process value (fst r) (snd r)).
Definition pfGetFileType (h : HANDLE) : Mo Z :=
  os_call (GetFileType os h) (EvGetFileType h).
Definition pfNtQueryObject (h : HANDLE) (buffer : PVOID) (size : Z)
  : Mo (NTSTATUS * Z * UNICODE_STRING) :=
  os_call (NtQueryObject os h buffer size)
          (fun r => EvNtQueryObject h buffer size (fst (fst r)) (snd (fst r))).
Definition pfGetModuleFileNameExU (process : HANDLE) : Mo (option string) :=
  os_call (GetModuleFileNameExU os process) (EvGetModuleFileNameExU process).
Definition pfGetProcessId (process : HANDLE) : Mo Z :=
  os_call (GetProcessId os process) (EvGetProcessId process).
Definition uprintf (l : line) : Mo unit := emit (EvUprintf l).
Definition uuprintf (l : debug_line) : Mo unit := emit (EvUuprintf l).

(** ** The private heap (lines 109-176) *)

Definition PhCreateHeap : Mo NTSTATUS :=
  heap <- get_heap ;;
  if negb (heap =? NULL) then ret STATUS_ALREADY_COMPLETE
  else
    let status := PF_INIT_OR_SET_STATUS pRtlCreateHeap STATUS_SUCCESS in
    if NT_SUCCESS status then
      heap <- pfRtlCreateHeap ;;
      put_heap heap ;;
      if heap =? NULL then ret STATUS_UNSUCCESSFUL else ret status
    else ret status.

Definition PhDestroyHeap : Mo NTSTATUS :=
  heap <- get_heap ;;
  if heap =? NULL then ret STATUS_ALREADY_COMPLETE
  else
    let status := PF_INIT_OR_SET_STATUS pRtlDestroyHeap STATUS_SUCCESS in
    if NT_SUCCESS status then
      r <- pfRtlDestroyHeap heap ;;
      if r =? NULL then put_heap NULL ;; ret status
      else ret STATUS_UNSUCCESSFUL
    else ret status.

Definition PhAllocate (Size : Z) : Mo PVOID :=
  if negb (pf_resolved os pRtlAllocateHeap) then ret NULL
  else heap <- get_heap ;; pfRtlAllocateHeap heap Size.

Definition PhFree (Memory : PVOID) : Mo unit :=
  if pf_resolved os pRtlFreeHeap
  then heap <- get_heap ;; pfRtlFreeHeap heap Memory
  else ret tt.

(** ** [PhEnumHandlesEx] (lines 186-226) *)

(** How the [while] loop of lines 202-214 is left: by one of its two
    [return]s, or through its condition with the last status. *)
Inductive enum_exit :=
| EnumReturn (status : NTSTATUS)
| EnumDone (status : NTSTATUS) (buffer : PVOID) (bufferSize : Z)
           (info : SYSTEM_HANDLE_INFORMATION_EX).

(** The loop has no bound of its own in the source; [fuel] counts the
    queries the model may issue and [None] means it ran out. *)
Fixpoint enum_loop (fuel : nat) (buffer : PVOID) (bufferSize : Z)
  : Mo (option enum_exit) :=
  match fuel with
  | O => ret None
  | S fuel' =>
      r <- pfNtQuerySystemInformation buffer bufferSize ;;
      let status := fst r in
      if status =? STATUS_INFO_LENGTH_MISMATCH then
        PhFree buffer ;;
        let bufferSize := ULONG_wrap (bufferSize * 2) in
        if PH_LARGE_BUFFER_SIZE <? bufferSize
        then ret (Some (EnumReturn STATUS_INSUFFICIENT_RESOURCES))
        else
          buffer <- PhAllocate bufferSize ;;
          if buffer =? NULL then ret (Some (EnumReturn STATUS_NO_MEMORY))
          else enum_loop fuel' buffer bufferSize
      else ret (Some (EnumDone status buffer bufferSize (snd r)))
  end.

(** The result is the returned status and, when [*Handles] was written,
    the buffer and the snapshot it holds. *)
Definition PhEnumHandlesEx (fuel : nat)
  : Mo (option (NTSTATUS * option (PVOID * SYSTEM_HANDLE_INFORMATION_EX))) :=
  let status := PF_INIT_OR_SET_STATUS pNtQuerySystemInformation STATUS_SUCCESS in
  if negb (NT_SUCCESS status) then ret (Some (status, None))
  else
    bufferSize <- get_initialBufferSize ;;
    buffer <- PhAllocate bufferSize ;;
    if buffer =? NULL then ret (Some (STATUS_NO_MEMORY, None))
    else
      r <- enum_loop fuel buffer bufferSize ;;
      match r with
      | None => ret None
      | Some (EnumReturn status) => ret (Some (status, None))
      | Some (EnumDone status buffer bufferSize info) =>
          if negb (NT_SUCCESS status) then
            PhFree buffer ;; ret (Some (status, None))
          else
            (if bufferSize <=? 0x200000
             then put_initialBufferSize bufferSize
             else ret tt) ;;
            ret (Some (status, Some (buffer, info)))
      end.

(** ** [PhOpenProcess] (lines 237-259) *)

Definition PhOpenProcess (ProcessId : Z) : Mo (NTSTATUS * option HANDLE) :=
  if ProcessId =? GetCurrentProcessId os
  then ret (0, Some NtCurrentProcess)
  else
    let status := PF_INIT_OR_SET_STATUS pNtOpenProcess STATUS_SUCCESS in
    if negb (NT_SUCCESS status) then ret (status, None)
    else fun m =>
      let (r, w) := NtOpenProcess os ProcessId (world m) in
      (r, set_world w m, []).

(** ** The locals of [SearchProcess] that live across loop iterations *)

(** Two-element C arrays ([pid[2]], [exe[2]]) and their index. *)
Definition idx2 {A} (a : A * A) (k : Z) : A := if k =? 0 then fst a else snd a.
Definition upd2 {A} (a : A * A) (k : Z) (v : A) : A * A :=
  if k =? 0 then (v, snd a) else (fst a, v).

(** [name] is [buffer->Name] as the last [NtQueryObject] left it. *)
Record frame := {
  buffer : PVOID;
  bufferSize : Z;
  name : UNICODE_STRING;
  dupHandle : HANDLE;
  processHandle : HANDLE;
  bFound : bool;
  pid : Z * Z;
  cur_pid : Z;
  last_access_denied_pid : Z;
  exe : string * string;
  cur_exe : Z
}.

Definition set_buffer (v : PVOID) (f : frame) : frame :=
  {| buffer := v; bufferSize := bufferSize f; name := name f;
     dupHandle := dupHandle f; processHandle := processHandle f;
     bFound := bFound f; pid := pid f; cur_pid := cur_pid f;
     last_access_denied_pid := last_access_denied_pid f;
     exe := exe f; cur_exe := cur_exe f |}.
Definition set_bufferSize (v : Z) (f : frame) : frame :=
  {| buffer := buffer f; bufferSize := v; name := name f;
     dupHandle := dupHandle f; processHandle := processHandle f;
     bFound := bFound f; pid := pid f; cur_pid := cur_pid f;
     last_access_denied_pid := last_access_denied_pid f;
     exe := exe f; cur_exe := cur_exe f |}.
Definition set_name (v : UNICODE_STRING) (f : frame) : frame :=
  {| buffer := buffer f; bufferSize := bufferSize f; name := v;
     dupHandle := dupHandle f; processHandle := processHandle f;
     bFound := bFound f; pid := pid f; cur_pid := cur_pid f;
     last_access_denied_pid := last_access_denied_pid f;
     exe := exe f; cur_exe := cur_exe f |}.
Definition set_dupHandle (v : HANDLE) (f : frame) : frame :=
  {| buffer := buffer f; bufferSize := bufferSize f; name := name f;
     dupHandle := v; processHandle := processHandle f;
     bFound := bFound f; pid := pid f; cur_pid := cur_pid f;
     last_access_denied_pid := last_access_denied_pid f;
     exe := exe f; cur_exe := cur_exe f |}.
Definition set_processHandle (v : HANDLE) (f : frame) : frame :=
  {| buffer := buffer f; bufferSize := bufferSize f; name := name f;
     dupHandle := dupHandle f; processHandle := v;
     bFound := bFound f; pid := pid f; cur_pid := cur_pid f;
     last_access_denied_pid := last_access_denied_pid f;
     exe := exe f; cur_exe := cur_exe f |}.
Definition set_bFound (v : bool) (f : frame) : frame :=
  {| buffer := buffer f; bufferSize := bufferSize f; name := name f;
     dupHandle := dupHandle f; processHandle := processHandle f;
     bFound := v; pid := pid f; cur_pid := cur_pid f;
     last_access_denied_pid := last_access_denied_pid f;
     exe := exe f; cur_exe := cur_exe f |}.
Definition set_pid (v : Z * Z) (f : frame) : frame :=
  {| buffer := buffer f; bufferSize := bufferSize f; name := name f;
     dupHandle := dupHandle f; processHandle := processHandle f;
     bFound := bFound f; pid := v; cur_pid := cur_pid f;
     last_access_denied_pid := last_access_denied_pid f;
     exe := exe f; cur_exe := cur_exe f |}.
Definition set_cur_pid (v : Z) (f : frame) : frame :=
  {| buffer := buffer f; bufferSize := bufferSize f; name := name f;
     dupHandle := dupHandle f; processHandle := processHandle f;
     bFound := bFound f; pid := pid f; cur_pid := v;
     last_access_denied_pid := last_access_denied_pid f;
     exe := exe f; cur_exe := cur_exe f |}.
Definition set_last_access_denied_pid (v : Z) (f : frame) : frame :=
  {| buffer := buffer f; bufferSize := bufferSize f; name := name f;
     dupHandle := dupHandle f; processHandle := processHandle f;
     bFound := bFound f; pid := pid f; cur_pid := cur_pid f;
     last_access_denied_pid := v;
     exe := exe f; cur_exe := cur_exe f |}.
Definition set_exe (v : string * string) (f : frame) : frame :=
  {| buffer := buffer f; bufferSize := bufferSize f; name := name f;
     dupHandle := dupHandle f; processHandle := processHandle f;
     bFound := bFound f; pid := pid f; cur_pid := cur_pid f;
     last_access_denied_pid := last_access_denied_pid f;
     exe := v; cur_exe := cur_exe f |}.
Definition set_cur_exe (v : Z) (f : frame) : frame :=
  {| buffer := buffer f; bufferSize := bufferSize f; name := name f;
     dupHandle := dupHandle f; processHandle := processHandle f;
     bFound := bFound f; pid := pid f; cur_pid := cur_pid f;
     last_access_denied_pid := last_access_denied_pid f;
     exe := exe f; cur_exe := v |}.

(** What the locals other than the name buffer hold. *)
Definition handles_and_rings (f : frame) :=
  (dupHandle f, processHandle f, bFound f, pid f, cur_pid f,
   last_access_denied_pid f, exe f, cur_exe f).

(** How one pass through the loop body ends: [continue] (also by reaching
    the end of the body), [break], the [goto out] of the cancellation
    check, or a read outside what was allocated. *)
Inductive control := Continue | Break | GotoOut | Crash.

(** The test of lines 480-481. *)
Definition size_error (status : NTSTATUS) : bool :=
  (status =? STATUS_BUFFER_OVERFLOW)
  || (status =? STATUS_INFO_LENGTH_MISMATCH)
  || (status =? STATUS_BUFFER_TOO_SMALL).

(** The three tests of lines 496-506 on the resolved name. *)
Definition name_matches (bPartialMatch : bool) (wHandleName : list WCHAR)
    (wHandleNameLen : Z) (Name : UNICODE_STRING) : bool :=
  if negb bPartialMatch && negb (wHandleNameLen =? Length Name) then false
  else if bPartialMatch && (Length Name <? wHandleNameLen) then false
  else wcsncmp wHandleName (Buffer Name) (Z.to_nat wHandleNameLen) =? 0.

Section Loop.

(** What is fixed during the loop. *)
Variable handles : SYSTEM_HANDLE_INFORMATION_EX.
Variable HandleName : string.
Variable wHandleName : list WCHAR.
Variable wHandleNameLen : Z.
Variable bPartialMatch bIgnoreSelf : bool.

(** Lines 508-522.  A failing [GetModuleFileNameExU] ([None]) leaves
    [exe[cur_exe]] as it was. *)
Definition report_stage (f : frame) : Mo (control * frame) :=
  f <- (if negb (bFound f)
        then uprintf (LHeader HandleName) ;; ret (set_bFound true f)
        else ret f) ;;
  r <- pfGetModuleFileNameExU (processHandle f) ;;
  match r with
  | Some path =>
      let f := set_exe (upd2 (exe f) (cur_exe f) path) f in
      if strcmp_ne (fst (exe f)) (snd (exe f)) then
        uprintf (LPath (idx2 (exe f) (cur_exe f))) ;;
        ret (Continue, set_cur_exe ((cur_exe f + 1) mod 2) f)
      else ret (Continue, f)
  | None =>
      p <- pfGetProcessId (processHandle f) ;;
      uprintf (LUnknown p) ;;
      ret (Continue, f)
  end.

(** Lines 496-506; [buffer->Name] cannot be read through a null
    [buffer]. *)
Definition match_stage (f : frame) : Mo (control * frame) :=
  if buffer f =? NULL then ret (Crash, f)
  else if name_matches bPartialMatch wHandleName wHandleNameLen (name f)
  then report_stage f
  else ret (Continue, f).

(** The [do ... while (--attempts)] of lines 477-489; [more] is the
    number of further passes the counter still allows. *)
Fixpoint query_name_loop (more : nat) (f : frame) : Mo (NTSTATUS * frame) :=
  r <- pfNtQueryObject (dupHandle f) (buffer f) (bufferSize f) ;;
  let '(status, returnSize, Name) := r in
  let f := set_name Name f in
  if size_error status then
    uuprintf (DRealloc (bufferSize f) returnSize) ;;
    let f := set_bufferSize returnSize f in
    PhFree (buffer f) ;;
    p <- PhAllocate (bufferSize f) ;;
    let f := set_buffer p f in
    match more with
    | O => ret (status, f)
    | S more' => query_name_loop more' f
    end
  else ret (status, f).

Definition attempts : nat := 8.

(** Lines 476-494, then the match. *)
Definition name_stage (handleInfo : SYSTEM_HANDLE_TABLE_ENTRY_INFO_EX)
    (f : frame) : Mo (control * frame) :=
  r <- query_name_loop (attempts - 1) f ;;
  let (status, f) := r in
  if negb (NT_SUCCESS status) then
    uuprintf (DQueryFailed (HandleValue handleInfo)
                           (UniqueProcessId handleInfo) status) ;;
    ret (Continue, f)
  else match_stage f.

(** Lines 472-474. *)
Definition filetype_stage (handleInfo : SYSTEM_HANDLE_TABLE_ENTRY_INFO_EX)
    (f : frame) : Mo (control * frame) :=
  t <- pfGetFileType (dupHandle f) ;;
  if negb (t =? FILE_TYPE_DISK) then ret (Continue, f)
  else name_stage handleInfo f.

(** Lines 460-470. *)
Definition dup_stage (i : nat) (handleInfo : SYSTEM_HANDLE_TABLE_ENTRY_INFO_EX)
    (f : frame) : Mo (control * frame) :=
  if processHandle f =? NtCurrentProcess then
    if bIgnoreSelf then ret (Continue, f)
    else filetype_stage handleInfo (set_dupHandle (HandleValue handleInfo) f)
  else
    r <- pfNtDuplicateObject i (processHandle f) (HandleValue handleInfo) ;;
    let (status, out) := r in
    let f := match out with Some h => set_dupHandle h f | None => f end in
    if negb (NT_SUCCESS status) then ret (Continue, f)
    else filetype_stage handleInfo f.

(** Lines 444-458. *)
Definition open_stage (i : nat) (handleInfo : SYSTEM_HANDLE_TABLE_ENTRY_INFO_EX)
    (f : frame) : Mo (control * frame) :=
  if negb (fst (pid f) =? snd (pid f)) then
    r <- PhOpenProcess (UniqueProcessId handleInfo) ;;
    let (status, out) := r in
    emit (EvPhOpenProcess i (UniqueProcessId handleInfo) status out) ;;
    let f := match out with Some h => set_processHandle h f | None => f end in
    if negb (NT_SUCCESS status) then
      uuprintf (DOpenFailed (UniqueProcessId handleInfo) status) ;;
      let f := set_processHandle NULL f in
      let f := if status =? STATUS_ACCESS_DENIED
               then set_last_access_denied_pid (UniqueProcessId handleInfo) f
               else f in
      ret (Continue, f)
    else dup_stage i handleInfo f
  else dup_stage i handleInfo f.

(** Lines 410-413, the first statements of the body that act. *)
Definition close_dup (f : frame) : Mo frame :=
  if negb (dupHandle f =? NULL) && negb (processHandle f =? NtCurrentProcess)
  then pfNtClose (dupHandle f) ;; ret (set_dupHandle NULL f)
  else ret f.

(** Lines 421-432: the first read through [handleInfo], the rotation of
    the pid slots and the closing of the previous process handle. *)
Definition track_pid (i : nat) (handleInfo : SYSTEM_HANDLE_TABLE_ENTRY_INFO_EX)
    (f : frame) : Mo frame :=
  emit (EvRecord i) ;;
  let f := set_pid (upd2 (pid f) (cur_pid f) (UniqueProcessId handleInfo)) f in
  if negb (fst (pid f) =? snd (pid f)) then
    let f := set_cur_pid ((cur_pid f + 1) mod 2) f in
    if negb (processHandle f =? NULL) then
      (if negb (processHandle f =? NtCurrentProcess)
       then pfNtClose (processHandle f) else ret tt) ;;
      ret (set_processHandle NULL f)
    else ret f
  else ret f.

(** Lines 434-442, then the rest of the body: the cancellation poll,
    the access-denied skip and the exit test. *)
Definition gate_stage (i : nat) (handleInfo : SYSTEM_HANDLE_TABLE_ENTRY_INFO_EX)
    (f : frame) : Mo (control * frame) :=
  cancelled <- CHECK_FOR_USER_CANCEL ;;
  if cancelled then ret (GotoOut, f)
  else if UniqueProcessId handleInfo =? last_access_denied_pid f
  then ret (Continue, f)
  else if (NumberOfHandles handles <=? i)%nat then ret (Break, f)
  else open_stage i handleInfo f.

(** Lines 421-522: the body from the first read of the record on. *)
Definition loop_body (i : nat) (handleInfo : SYSTEM_HANDLE_TABLE_ENTRY_INFO_EX)
    (f : frame) : Mo (control * frame) :=
  f <- track_pid i handleInfo f ;;
  gate_stage i handleInfo f.

(** [for (i = 0; ; i++)] of line 406.  [slots] is what the buffer holds
    from [&handles->Handles[i]] on; when nothing is left the read of
    line 422 is outside the buffer. *)
Fixpoint search_loop (slots : list SYSTEM_HANDLE_TABLE_ENTRY_INFO_EX)
    (i : nat) (f : frame) : Mo (control * frame) :=
  f <- close_dup f ;;
  match slots with
  | [] => ret (Crash, f)
  | handleInfo :: rest =>
      r <- loop_body i handleInfo f ;;
      match r with
      | (Continue, f') => search_loop rest (S i) f'
      | other => ret other
      end
  end.

End Loop.

(** ** [SearchProcess] (lines 346-536) *)

Inductive outcome :=
| Returned (bFound : bool)
| Crashed         (* a read outside the allocated buffers *)
| Diverged.       (* the fuel of [PhEnumHandlesEx] ran out *)

(** The label [out:] (lines 525-535). *)
Definition out (HandleName : string) (bFound : bool) (buffer handles : PVOID)
  : Mo outcome :=
  (if bFound then uprintf LCloseApplications
   else uprintf (LNotIdentified HandleName)) ;;
  emit EvFreeName ;;
  PhFree buffer ;;
  PhFree handles ;;
  PhDestroyHeap ;;
  ret (Returned bFound).

(** The frame at the head of the loop (lines 357-365 and 385-394). *)
Definition initial_frame (buffer0 : PVOID) : frame :=
  {| buffer := buffer0; bufferSize := 0x200;
     name := {| Length := 0; MaximumLength := 0; Buffer := [] |};
     dupHandle := NULL; processHandle := NULL; bFound := false;
     pid := (NULL, pid1_indeterminate); cur_pid := 1;
     last_access_denied_pid := 0;
     exe := (EmptyString, exe1_indeterminate); cur_exe := 1 |}.

(** Lines 367-378: the status with which the snapshot stage ends, and
    the snapshot when it was captured. *)
Definition capture (fuel : nat)
  : Mo (option (NTSTATUS * option (PVOID * SYSTEM_HANDLE_INFORMATION_EX))) :=
  let status := STATUS_SUCCESS in
  let status := PF_INIT_OR_SET_STATUS pNtQueryObject status in
  let status := PF_INIT_OR_SET_STATUS pNtDuplicateObject status in
  let status := PF_INIT_OR_SET_STATUS pNtClose status in
  status <- (if NT_SUCCESS status then PhCreateHeap else ret status) ;;
  if NT_SUCCESS status then PhEnumHandlesEx fuel
  else ret (Some (status, None)).

Definition SearchProcess (fuel : nat) (HandleName : string)
    (bPartialMatch bIgnoreSelf : bool) : Mo outcome :=
  r <- capture fuel ;;
  match r with
  | None => ret Diverged
  | Some (status, snapshot) =>
      if negb (NT_SUCCESS status) then
        uprintf (LWarningEnumerate status) ;;
        out HandleName false NULL NULL
      else
        let handles_ptr := match snapshot with Some s => fst s | None => NULL end in
        let handles := match snapshot with
                       | Some s => snd s
                       | None => {| NumberOfHandles := O; Handles := [] |}
                       end in
        let wHandleName := utf8_to_wchar os HandleName in
        let wHandleNameLen := USHORT_cast (Z.of_nat (wcslen wHandleName)) in
        buffer0 <- PhAllocate 0x200 ;;
        if buffer0 =? NULL then out HandleName false buffer0 handles_ptr
        else
          r <- search_loop handles HandleName wHandleName wHandleNameLen
                 bPartialMatch bIgnoreSelf (Handles handles) O
                 (initial_frame buffer0) ;;
          match r with
          | (Crash, _) => ret Crashed
          | (_, f) => out HandleName (bFound f) (buffer f) handles_ptr
          end
  end.

End Engine.

(** ** What the stages of the body do to the locals and the trace *)

(** The report of lines 513-522: nothing is resolved and the path slots
    stay, or one path is resolved into [exe[cur_exe]] and printed exactly
    when the two slots then differ. *)
Definition report_post (f f' : frame) (e : list event) : Prop :=
  (resolved e = [] /\ path_lines e = [] /\
   exe f' = exe f /\ cur_exe f' = cur_exe f) \/
  (exists path,
     resolved e = [path] /\
     exe f' = upd2 (exe f) (cur_exe f) path /\
     path_lines e
     = (if strcmp_ne (fst (exe f')) (snd (exe f'))
        then [idx2 (exe f') (cur_exe f)] else []) /\
     cur_exe f'
     = (if strcmp_ne (fst (exe f')) (snd (exe f'))
        then (cur_exe f + 1) mod 2 else cur_exe f)).

(** Lines 460-522 read no record, open no process, close nothing and
    keep the pid slots, the memo and the process handle. *)
Definition tail_post (f f' : frame) (e : list event) : Prop :=
  records_read e = [] /\ opens e = [] /\ slot_events e = [] /\
  pid f' = pid f /\ cur_pid f' = cur_pid f /\
  last_access_denied_pid f' = last_access_denied_pid f /\
  processHandle f' = processHandle f /\
  report_post f f' e.

(** Lines 434-522 for the record [h] at index [i] of a snapshot of [N]
    declared records. *)
Definition gate_post (N i : nat) (h : SYSTEM_HANDLE_TABLE_ENTRY_INFO_EX)
    (f : frame) (c : control) (f' : frame) (e : list event) : Prop :=
  let p := UniqueProcessId h in
  records_read e = [] /\
  (c = Break -> (N <= i)%nat) /\
  pid f' = pid f /\ cur_pid f' = cur_pid f /\
  ((opens e = [] /\ slot_events e = [] /\
    last_access_denied_pid f' = last_access_denied_pid f /\
    processHandle f' = processHandle f) \/
   (exists st out,
      opens e = [(i, p, st)] /\ slot_events e = [inr (st, out)] /\
      fst (pid f) <> snd (pid f) /\
      p <> last_access_denied_pid f /\
      (i < N)%nat /\
      last_access_denied_pid f'
      = (if st =? STATUS_ACCESS_DENIED then p else last_access_denied_pid f) /\
      processHandle f'
      = (if NT_SUCCESS st
         then match out with Some x => x | None => processHandle f end
         else NULL))) /\
  report_post f f' e.

(** The fields the later stages are judged on. *)
Definition same_slots (f1 f : frame) : Prop :=
  pid f1 = pid f /\ cur_pid f1 = cur_pid f /\
  last_access_denied_pid f1 = last_access_denied_pid f /\
  processHandle f1 = processHandle f /\
  exe f1 = exe f /\ cur_exe f1 = cur_exe f.

Definition unobserved (e : list event) : Prop :=
  records_read e = [] /\ opens e = [] /\ slot_events e = [] /\
  resolved e = [] /\ path_lines e = [].

(** The tests of lines 410 and 424-428 as the trace shows them. *)
Definition dup_closed (f : frame) : list (HANDLE + NTSTATUS * option HANDLE) :=
  if negb (dupHandle f =? NULL) && negb (processHandle f =? NtCurrentProcess)
  then [inl (dupHandle f)] else [].

Definition pid_changed (f : frame) (p : Z) : bool :=
  negb (fst (upd2 (pid f) (cur_pid f) p) =? snd (upd2 (pid f) (cur_pid f) p)).

Definition process_closed (f : frame) (p : Z)
  : list (HANDLE + NTSTATUS * option HANDLE) :=
  if pid_changed f p && negb (processHandle f =? NULL)
     && negb (processHandle f =? NtCurrentProcess)
  then [inl (processHandle f)] else [].

(** One whole pass of the loop (lines 406-522) on the record [h] at index
    [i], from the frame [f] at the head of the pass. *)
Definition iteration_post (N i : nat) (h : SYSTEM_HANDLE_TABLE_ENTRY_INFO_EX)
    (f : frame) (c : control) (f' : frame) (e : list event) : Prop :=
  let p := UniqueProcessId h in
  records_read e = [i] /\
  (c = Break -> (N <= i)%nat) /\
  pid f' = upd2 (pid f) (cur_pid f) p /\
  cur_pid f' = (if pid_changed f p then (cur_pid f + 1) mod 2 else cur_pid f) /\
  ((opens e = [] /\
    slot_events e = dup_closed f ++ process_closed f p /\
    last_access_denied_pid f' = last_access_denied_pid f /\
    processHandle f' = (if pid_changed f p then NULL else processHandle f)) \/
   (exists st out,
      opens e = [(i, p, st)] /\
      slot_events e = dup_closed f ++ process_closed f p ++ [inr (st, out)] /\
      pid_changed f p = true /\
      p <> last_access_denied_pid f /\
      (i < N)%nat /\
      last_access_denied_pid f'
      = (if st =? STATUS_ACCESS_DENIED then p else last_access_denied_pid f) /\
      processHandle f'
      = (if NT_SUCCESS st then match out with Some x => x | None => NULL end
         else NULL))) /\
  report_post f f' e.

(** A pass that finds no slot left in the buffer. *)
Definition crash_post (f : frame) (e : list event) : Prop :=
  records_read e = [] /\ opens e = [] /\ slot_events e = dup_closed f /\
  resolved e = [] /\ path_lines e = [].

(** ** Specifications of a trace *)

(** The access-denied memo as the calls of [PhOpenProcess] determine it:
    no call is for the memoized process id, and a call that fails with
    access-denied memoizes its process id. *)
Fixpoint memo_respected (memo : Z) (ops : list (nat * Z * NTSTATUS)) : Prop :=
  match ops with
  | [] => True
  | (_, p, st) :: ops' =>
      p <> memo /\
      memo_respected (if st =? STATUS_ACCESS_DENIED then p else memo) ops'
  end.

Fixpoint memo_after (memo : Z) (ops : list (nat * Z * NTSTATUS)) : Z :=
  match ops with
  | [] => memo
  | (_, p, st) :: ops' =>
      memo_after (if st =? STATUS_ACCESS_DENIED then p else memo) ops'
  end.

(** The handle a call of [PhOpenProcess] leaves to be closed: the one a
    successful call wrote, unless it is the pseudo handle of the caller. *)
Definition holding (st : NTSTATUS) (out : option HANDLE) : option HANDLE :=
  if NT_SUCCESS st then
    match out with
    | Some x => if (x =? NULL) || (x =? NtCurrentProcess) then None else Some x
    | None => None
    end
  else None.

(** The process-handle slot is free at every call of [PhOpenProcess]:
    [held] is the handle opened and not passed to [NtClose] since. *)
Fixpoint slot_free (held : option HANDLE)
    (evs : list (HANDLE + NTSTATUS * option HANDLE)) : Prop :=
  match evs with
  | [] => True
  | inl h :: evs' =>
      slot_free (match held with
                 | Some x => if x =? h then None else held
                 | None => None
                 end) evs'
  | inr (st, out) :: evs' => held = None /\ slot_free (holding st out) evs'
  end.

Fixpoint held_after (held : option HANDLE)
    (evs : list (HANDLE + NTSTATUS * option HANDLE)) : option HANDLE :=
  match evs with
  | [] => held
  | inl h :: evs' =>
      held_after (match held with
                  | Some x => if x =? h then None else held
                  | None => None
                  end) evs'
  | inr (st, out) :: evs' => held_after (holding st out) evs'
  end.

(** The report lines the spec asks for: a resolved path is printed unless
    it equals the most recently reported one. *)
Fixpoint dedup (reported : string) (paths : list string) : list string :=
  match paths with
  | [] => []
  | p :: paths' =>
      if string_dec p reported then dedup reported paths'
      else p :: dedup p paths'
  end.

Fixpoint reported_after (reported : string) (paths : list string) : string :=
  match paths with
  | [] => reported
  | p :: paths' => reported_after p paths'
  end.

(** The slot of [pid[2]] that holds the previous record's process id, and
    the slot of [exe[2]] that holds the last path printed. *)
Definition prev_pid (f : frame) : Z := idx2 (pid f) (1 - cur_pid f).
Definition last_reported (f : frame) : string := idx2 (exe f) (1 - cur_exe f).

(** The loop index of a call of [PhOpenProcess]. *)
Definition open_index (o : nat * Z * NTSTATUS) : nat := fst (fst o).

(** Calls of [PhOpenProcess] happen where a run of equal process ids
    starts: at the record [k] of [pids], whose process id differs from
    the one before ([prev] in front of the first record). *)
Definition at_run_start (prev : Z) (pids : list Z) (o : nat * Z * NTSTATUS)
  : Prop :=
  let '(k, p, _) := o in
  nth_error pids k = Some p /\
  match k with
  | O => p <> prev
  | S j => nth_error pids j <> Some p
  end.

(** The calls of [PhOpenProcess] against the process ids [pids] of the
    records from index [i] on, [prev] being the process id in front of
    them: walking the records, a call is for the current record, whose
    process id then differs from the previous one, and no record has two
    calls. *)
Fixpoint opens_follow_runs (prev : Z) (i : nat) (pids : list Z)
    (ops : list (nat * Z * NTSTATUS)) : Prop :=
  match pids with
  | [] => ops = []
  | p :: pids' =>
      match ops with
      | [] => True
      | (k, q, _) :: ops' =>
          (k = i /\ q = p /\ p <> prev /\
           opens_follow_runs p (S i) pids' ops') \/
          opens_follow_runs p (S i) pids' ops
      end
  end.

(** The calls of [PhOpenProcess] made for the records [a] to [b]. *)
Definition opens_between (a b : nat) (ops : list (nat * Z * NTSTATUS))
  : list (nat * Z * NTSTATUS) :=
  filter (fun o => (a <=? open_index o)%nat && (open_index o <=? b)%nat) ops.

(** The handle the trace shows as held is the one in the process-handle
    slot, if any is held. *)
Definition slot_tracks (held : option HANDLE) (f : frame) : Prop :=
  held = None \/
  (held = Some (processHandle f) /\ processHandle f <> NULL /\
   processHandle f <> NtCurrentProcess).

(** * A simulated system for concrete runs *)

Module Sim.

(** The 16-bit characters of an ASCII string. *)
Fixpoint wide (s : string) : list WCHAR :=
  match s with
  | EmptyString => []
  | String c s' => Z.of_N (N_of_ascii c) :: wide s'
  end.

(** A system described by a few tables.  The world counts the
    cancellation polls answered so far; the user cancels once
    [cancel_after] polls have been answered "no". *)
Record system := {
  self : Z;
  snapshot_size : Z;
  snapshot : SYSTEM_HANDLE_INFORMATION_EX;
  open : Z -> NTSTATUS * option HANDLE;
  duplicate : HANDLE -> Z -> NTSTATUS * option HANDLE;
  file_type : HANDLE -> Z;
  object_name : HANDLE -> Z -> NTSTATUS * Z * UNICODE_STRING;
  module_file_name : HANDLE -> option string;
  cancel_after : option nat
}.

Definition heap_handle : PVOID := 0x00A00000.
Definition block (size : Z) : PVOID := 0x00A10000 + size.
Definition no_snapshot : SYSTEM_HANDLE_INFORMATION_EX :=
  {| NumberOfHandles := O; Handles := [] |}.

(** The snapshot query asks for more room as long as the buffer is smaller
    than [snapshot_size]. *)
Definition os (s : system) : OS nat :=
  {| pf_resolved := fun _ => true;
     GetCurrentProcessId := self s;
     utf8_to_wchar := wide;
     RtlCreateHeap := fun w => (heap_handle, w);
     RtlDestroyHeap := fun _ w => (NULL, w);
     RtlAllocateHeap := fun _ size w => (block size, w);
     RtlFreeHeap := fun _ _ w => w;
     NtQuerySystemInformation := fun _ size w =>
       (if size <? snapshot_size s
        then (STATUS_INFO_LENGTH_MISMATCH, no_snapshot)
        else (STATUS_SUCCESS, snapshot s), w);
     NtOpenProcess := fun p w => (open s p, w);
     NtDuplicateObject := fun ph v w => (duplicate s ph v, w);
     NtClose := fun _ w => w;
     GetFileType := fun h w => (file_type s h, w);
     NtQueryObject := fun h _ size w => (object_name s h size, w);
     GetModuleFileNameExU := fun ph w => (module_file_name s ph, w);
     GetProcessId := fun ph w => (ph, w);
     user_cancel := fun w =>
       (match cancel_after s with
        | Some n => (n <=? w)%nat
        | None => false
        end, S w) |}.

Definition boot : machine nat :=
  {| world := O; PhHeapHandle := NULL; initialBufferSize := 0x10000 |}.

(** The ceiling of the snapshot buffer in the simulated runs: 256 MB. *)
Definition ceiling : Z := 256 * 1024 * 1024.

(** [SearchProcess] on a simulated system, from a fresh process. *)
Definition search (s : system) (HandleName : string)
    (bPartialMatch bIgnoreSelf : bool) : outcome * machine nat * list event :=
  SearchProcess (os s) ceiling 0 EmptyString 64
    HandleName bPartialMatch bIgnoreSelf boot.

Definition run (s : system) (HandleName : string)
    (bPartialMatch bIgnoreSelf : bool) : outcome * list event :=
  let r := search s HandleName bPartialMatch bIgnoreSelf in
  (value_of r, events_of r).

Definition entry (pid handle : Z) : SYSTEM_HANDLE_TABLE_ENTRY_INFO_EX :=
  {| UniqueProcessId := pid; HandleValue := handle;
     GrantedAccess := 0x0012019F; ObjectTypeIndex := 37 |}.

Definition file_txt : string := "\Device\HarddiskVolume3\file.txt".
Definition explorer_exe : string := "C:\Windows\explorer.exe".
Definition notepad_exe : string := "C:\Windows\notepad.exe".

(** Every object is [file_txt]; its name record takes 82 bytes. *)
Definition name_of_file_txt (size : Z) : NTSTATUS * Z * UNICODE_STRING :=
  if size <? 82 then (STATUS_INFO_LENGTH_MISMATCH, 82, unicode_string_of [])
  else (STATUS_SUCCESS, 82, unicode_string_of (wide file_txt)).

(** One handle 0x44 of process 2000 on [file_txt]; the caller is process
    1000.  The slot after the declared record holds process id 0xFFFF. *)
Definition one_handle : system :=
  {| self := 1000;
     snapshot_size := 0x10000;
     snapshot := {| NumberOfHandles := 1;
                    Handles := [entry 2000 0x44; entry 0xFFFF 0] |};
     open := fun p => if p =? 2000 then (STATUS_SUCCESS, Some 0x100)
                      else if p =? 3000 then (STATUS_SUCCESS, Some 0x104)
                      else (STATUS_ACCESS_DENIED, None);
     duplicate := fun ph v => if (ph =? 0x100) || (ph =? 0x104)
                              then (STATUS_SUCCESS, Some (0x200 + v))
                              else (STATUS_UNSUCCESSFUL, None);
     file_type := fun _ => FILE_TYPE_DISK;
     object_name := fun _ => name_of_file_txt;
     module_file_name := fun ph => if ph =? 0x100 then Some explorer_exe
                                   else if ph =? 0x104 then Some notepad_exe
                                   else None;
     cancel_after := None |}.

(** [one_handle] with another snapshot. *)
Definition with_snapshot (N : nat)
    (slots : list SYSTEM_HANDLE_TABLE_ENTRY_INFO_EX) : system :=
  {| self := self one_handle;
     snapshot_size := snapshot_size one_handle;
     snapshot := {| NumberOfHandles := N; Handles := slots |};
     open := open one_handle;
     duplicate := duplicate one_handle;
     file_type := file_type one_handle;
     object_name := object_name one_handle;
     module_file_name := module_file_name one_handle;
     cancel_after := None |}.

(** Two handles of process 2000. *)
Definition two_handles : system :=
  with_snapshot 2 [entry 2000 0x44; entry 2000 0x48; entry 0xFFFF 0].

(** Handles of process 2000, of process 3000 and of process 2000 again. *)
Definition three_handles : system :=
  with_snapshot 3 [entry 2000 0x44; entry 3000 0x48; entry 2000 0x4C;
                   entry 0xFFFF 0].

(** [two_handles], and the user cancels between the first and the second
    candidate. *)
Definition cancelled : system :=
  {| self := self two_handles;
     snapshot_size := snapshot_size two_handles;
     snapshot := snapshot two_handles;
     open := open two_handles;
     duplicate := duplicate two_handles;
     file_type := file_type two_handles;
     object_name := object_name two_handles;
     module_file_name := module_file_name two_handles;
     cancel_after := Some 1%nat |}.

(** The caller's own handle 0x44, then a handle of process 4, which
    refuses to be opened. *)
Definition own_then_denied : system :=
  {| self := 1000;
     snapshot_size := 0x10000;
     snapshot := {| NumberOfHandles := 2;
                    Handles := [entry 1000 0x44; entry 4 0x10;
                                entry 0xFFFF 0] |};
     open := fun _ => (STATUS_ACCESS_DENIED, None);
     duplicate := fun _ _ => (STATUS_UNSUCCESSFUL, None);
     file_type := fun _ => FILE_TYPE_DISK;
     object_name := fun _ => name_of_file_txt;
     module_file_name := fun _ => Some "C:\rufus.exe"%string;
     cancel_after := None |}.

(** One declared record; the three slots after it hold process id 0 and
    the fourth one process id 0xFFFF. *)
Definition zero_slack : system :=
  with_snapshot 1 [entry 2000 0x44; entry 0 0; entry 0 0; entry 0 0;
                   entry 0xFFFF 0].

(** A snapshot that needs 512 MB, twice the ceiling. *)
Definition huge_snapshot : system :=
  {| self := self one_handle;
     snapshot_size := 512 * 1024 * 1024;
     snapshot := snapshot one_handle;
     open := open one_handle;
     duplicate := duplicate one_handle;
     file_type := file_type one_handle;
     object_name := object_name one_handle;
     module_file_name := module_file_name one_handle;
     cancel_after := None |}.

(** [one_handle] with another name query. *)
Definition with_object_name
    (q : HANDLE -> Z -> NTSTATUS * Z * UNICODE_STRING) : system :=
  {| self := self one_handle;
     snapshot_size := snapshot_size one_handle;
     snapshot := snapshot one_handle;
     open := open one_handle;
     duplicate := duplicate one_handle;
     file_type := file_type one_handle;
     object_name := q;
     module_file_name := module_file_name one_handle;
     cancel_after := None |}.

(** A name record of 0x400 bytes: the first query overflows. *)
Definition long_name : system :=
  with_object_name (fun _ size =>
    if size <? 0x400
    then (STATUS_BUFFER_OVERFLOW, 0x400, unicode_string_of [])
    else (STATUS_SUCCESS, 0x400, unicode_string_of (wide file_txt))).

(** A name query that always asks for 0x100 bytes more. *)
Definition stubborn_name : system :=
  with_object_name (fun _ size =>
    (STATUS_INFO_LENGTH_MISMATCH, size + 0x100, unicode_string_of [])).

(** The frame of the loop after the set-up of a simulated search. *)
Definition first_frame : frame := initial_frame 0 EmptyString (block 0x200).

End Sim.

(** * Status messages, heap traffic and monitors of a trace *)

(** ** [NtStatusError] (lines 66-106) *)

(** The status codes of the table that the engine itself does not name,
    with the values of the Windows headers. *)
Definition STATUS_INVALID_HANDLE : NTSTATUS := ntstatus 0xC0000008.
Definition STATUS_INVALID_PARAMETER : NTSTATUS := ntstatus 0xC000000D.
Definition STATUS_OBJECT_TYPE_MISMATCH : NTSTATUS := ntstatus 0xC0000024.
Definition STATUS_OBJECT_NAME_INVALID : NTSTATUS := ntstatus 0xC0000033.
Definition STATUS_OBJECT_NAME_NOT_FOUND : NTSTATUS := ntstatus 0xC0000034.
Definition STATUS_OBJECT_PATH_INVALID : NTSTATUS := ntstatus 0xC0000039.
Definition STATUS_SHARING_VIOLATION : NTSTATUS := ntstatus 0xC0000043.
Definition STATUS_NOT_SUPPORTED : NTSTATUS := ntstatus 0xC00000BB.

(** One hexadecimal digit, in lower case as [%x] prints it. *)
Definition hex_digit (d : Z) : ascii :=
  match d with
  | 0 => "0" | 1 => "1" | 2 => "2" | 3 => "3"
  | 4 => "4" | 5 => "5" | 6 => "6" | 7 => "7"
  | 8 => "8" | 9 => "9" | 10 => "a" | 11 => "b"
  | 12 => "c" | 13 => "d" | 14 => "e" | 15 => "f"
  | _ => "?"
  end%char.

(** The [n] low hexadecimal digits of [u], the most significant first. *)
Fixpoint hex_digits (n : nat) (u : Z) : string :=
  match n with
  | O => EmptyString
  | S n' =>
      String (hex_digit ((u / 16 ^ Z.of_nat n') mod 16)) (hex_digits n' u)
  end.

(** The conversion [%08lx] of a [LONG]: the value is read as an
    [unsigned long] of 32 bits, which takes eight digits. *)
Definition format_08lx (v : Z) : string := hex_digits 8 (ULONG_wrap v).

Section StatusMessages.

(** [safe_sprintf] is a macro of rufus.h.  [safe_sprintf count text] is
    what it leaves in a buffer of [count] bytes when its format expands to
    [text]. *)
Variable safe_sprintf : nat -> string -> string.

(** The [switch] of lines 69-105.  The [default] case prints into the
    static buffer [unknown[32]] and returns it. *)
Definition NtStatusError (Status : NTSTATUS) : string :=
  if Status =? STATUS_UNSUCCESSFUL then "Operation Failed"%string
  else if Status =? STATUS_BUFFER_OVERFLOW then "Buffer Overflow"%string
  else if Status =? STATUS_NOT_IMPLEMENTED then "Not Implemented"%string
  else if Status =? STATUS_INFO_LENGTH_MISMATCH then "Info Length Mismatch"%string
  else if Status =? STATUS_INVALID_HANDLE then "Invalid Handle."%string
  else if Status =? STATUS_INVALID_PARAMETER then "Invalid Parameter"%string
  else if Status =? STATUS_NO_MEMORY then "Not Enough Quota"%string
  else if Status =? STATUS_ACCESS_DENIED then "Access Denied"%string
  else if Status =? STATUS_BUFFER_TOO_SMALL then "Buffer Too Small"%string
  else if Status =? STATUS_OBJECT_TYPE_MISMATCH then "Wrong Type"%string
  else if Status =? STATUS_OBJECT_NAME_INVALID then "Object Name Invalid"%string
  else if Status =? STATUS_OBJECT_NAME_NOT_FOUND then "Object Name not found"%string
  else if Status =? STATUS_OBJECT_PATH_INVALID then "Object Path Invalid"%string
  else if Status =? STATUS_SHARING_VIOLATION then "Sharing Violation"%string
  else if Status =? STATUS_INSUFFICIENT_RESOURCES then "Insufficient resources"%string
  else if Status =? STATUS_NOT_SUPPORTED then "Operation is not supported"%string
  else safe_sprintf 32 ("Unknown error 0x" ++ format_08lx Status)%string.

End StatusMessages.

(** A [safe_sprintf] that keeps the first [count - 1] characters. *)
Definition truncating_sprintf (count : nat) (text : string) : string :=
  substring 0 (count - 1) text.

(** ** Observations on the heap traffic of a trace *)

Definition allocated_of (e : event) : list PVOID :=
  match e with
  | EvRtlAllocateHeap _ _ p => if p =? NULL then [] else [p]
  | _ => []
  end.
Definition freed_of (e : event) : list PVOID :=
  match e with EvRtlFreeHeap _ p => [p] | _ => [] end.
Definition snapshot_query_of (e : event) : list (PVOID * Z * NTSTATUS) :=
  match e with
  | EvNtQuerySystemInformation b size st => [(b, size, st)]
  | _ => []
  end.

(** The blocks [RtlAllocateHeap] handed out, oldest first. *)
Definition allocated (tr : list event) : list PVOID := flat_map allocated_of tr.
(** The blocks passed to [RtlFreeHeap], oldest first. *)
Definition freed (tr : list event) : list PVOID := flat_map freed_of tr.
(** The calls of [NtQuerySystemInformation]: buffer, size, status. *)
Definition snapshot_queries (tr : list event) : list (PVOID * Z * NTSTATUS) :=
  flat_map snapshot_query_of tr.

(** A reply of [NtQuerySystemInformation] that asks for a larger buffer. *)
Definition mismatch (q : PVOID * Z * NTSTATUS) : Prop :=
  snd q = STATUS_INFO_LENGTH_MISMATCH.

(** [Sim.one_handle] with a snapshot that needs 256 KB, four times the
    size the first query offers. *)
Definition snapshot_of_256k : Sim.system :=
  {| Sim.self := Sim.self Sim.one_handle;
     Sim.snapshot_size := 0x40000;
     Sim.snapshot := Sim.snapshot Sim.one_handle;
     Sim.open := Sim.open Sim.one_handle;
     Sim.duplicate := Sim.duplicate Sim.one_handle;
     Sim.file_type := Sim.file_type Sim.one_handle;
     Sim.object_name := Sim.object_name Sim.one_handle;
     Sim.module_file_name := Sim.module_file_name Sim.one_handle;
     Sim.cancel_after := None |}.

(** ** Monitors of a trace *)

(** A monitor reads a trace event by event from a state of its own;
    [None] says that the trace broke the rule the monitor stands for. *)
Fixpoint run {S : Type} (step : S -> event -> option S) (s : S)
    (tr : list event) : option S :=
  match tr with
  | [] => Some s
  | e :: tr' =>
      match step s e with
      | Some s' => run step s' tr'
      | None => None
      end
  end.

(** [NtQueryObject] is only called on the handle [GetFileType] has just
    found to be a disk file.  The state is that handle, if any; a close
    or a duplication forgets it. *)
Definition vetted_step (vetted : option HANDLE) (e : event)
  : option (option HANDLE) :=
  match e with
  | EvGetFileType h t => Some (if t =? FILE_TYPE_DISK then Some h else None)
  | EvNtQueryObject h _ _ _ _ =>
      match vetted with
      | Some x => if x =? h then Some vetted else None
      | None => None
      end
  | EvNtClose _ | EvNtDuplicateObject _ _ _ _ _ => Some None
  | _ => Some vetted
  end.

(** A monitor that housekeeping events leave where it is. *)
Definition ignores_housekeeping {S : Type} (step : S -> event -> option S)
  : Prop :=
  forall s e, housekeeping_event e -> step s e = Some s.

(** [NtQueryObject] writes into the block the heap handed out last, and
    is told the size that was asked of the heap for it; nothing has been
    freed since.  The state is that block and its size. *)
Definition buffer_step (current : option (PVOID * Z)) (e : event)
  : option (option (PVOID * Z)) :=
  match e with
  | EvRtlAllocateHeap _ size p => Some (Some (p, size))
  | EvRtlFreeHeap _ _ | EvRtlDestroyHeap _ _ => Some None
  | EvNtQueryObject _ b size _ _ =>
      match current with
      | Some (p, n) => if (p =? b) && (n =? size) then Some current else None
      | None => None
      end
  | _ => Some current
  end.

(** The block and the size the locals [buffer] and [bufferSize] speak
    of. *)
Definition in_use (f : frame) : option (PVOID * Z) :=
  Some (buffer f, bufferSize f).

(** A monitor that no housekeeping event can upset. *)
Definition accepts_housekeeping {S : Type} (step : S -> event -> option S)
  : Prop :=
  forall s e, housekeeping_event e -> step s e <> None.

(** A handle that [NtDuplicateObject] stored is passed to [NtClose]
    before the next duplication.  The state is the handle stored and not
    closed yet; a duplication while one is pending breaks the rule. *)
Definition duplicate_step (pending : option HANDLE) (e : event)
  : option (option HANDLE) :=
  match e with
  | EvNtDuplicateObject _ _ _ _ out =>
      match pending with
      | Some _ => None
      | None =>
          Some match out with
               | Some h => if h =? NULL then None else Some h
               | None => None
               end
      end
  | EvNtClose h =>
      Some match pending with
           | Some x => if x =? h then None else pending
           | None => None
           end
  | _ => Some pending
  end.

(** The pending duplicate, if there is one, is the one in [dupHandle],
    and the test of line 410 will find it. *)
Definition duplicate_tracks (pending : option HANDLE) (f : frame) : Prop :=
  pending = None \/
  (pending = Some (dupHandle f) /\ dupHandle f <> NULL /\
   processHandle f <> NtCurrentProcess).

(** What [uprintf] has been sent so far: nothing, the warning, the header
    and maybe some report lines, or the closing summary as well. *)
Inductive phase :=
| Searching
| Warned
| Reporting
| Done (found : bool).

(** The order in which a search for [HandleName] may send its lines. *)
Definition lines_step (HandleName : string) (s : phase) (e : event)
  : option phase :=
  match e with
  | EvUprintf l =>
      match l, s with
      | LWarningEnumerate _, Searching => Some Warned
      | LHeader n, Searching =>
          if String.eqb n HandleName then Some Reporting else None
      | LPath _, Reporting | LUnknown _, Reporting => Some Reporting
      | LCloseApplications, Reporting => Some (Done true)
      | LNotIdentified n, Searching | LNotIdentified n, Warned =>
          if String.eqb n HandleName then Some (Done false) else None
      | _, _ => None
      end
  | _ => Some s
  end.

(** The phase the local [bFound] stands for inside the loop. *)
Definition phase_of (bFound : bool) : phase :=
  if bFound then Reporting else Searching.

(** The lines that report a process. *)
Definition report_line (l : line) : Prop :=
  match l with
  | LPath _ | LUnknown _ => True
  | _ => False
  end.

(** A search that ignores the caller's own process looks only at what it
    has just duplicated out of another process: [GetFileType] follows a
    successful [NtDuplicateObject] whose source is not the caller's pseudo
    handle, and no process is reported through that pseudo handle.  The
    state tells whether a duplication has just succeeded. *)
Definition outsider_step (duplicated : bool) (e : event) : option bool :=
  match e with
  | EvNtDuplicateObject _ process _ status _ =>
      if process =? NtCurrentProcess then None else Some (NT_SUCCESS status)
  | EvGetFileType _ _ => if duplicated then Some false else None
  | EvGetModuleFileNameExU process _ | EvGetProcessId process _ =>
      if process =? NtCurrentProcess then None else Some duplicated
  | _ => Some duplicated
  end.

(** [NtClose] is never passed a null handle. *)
Definition close_step (u : unit) (e : event) : option unit :=
  match e with
  | EvNtClose h => if h =? NULL then None else Some u
  | _ => Some u
  end.

(** ** The slots a pass overwrites before it reads them *)

(** [f] with another value in [exe[cur_exe]], the slot the next resolved
    path goes to, and with another value in [pid[cur_pid]], the slot the
    next record's process id goes to. *)
Definition with_next_path (x : string) (f : frame) : frame :=
  set_exe (upd2 (exe f) (cur_exe f) x) f.
Definition with_next_pid (p : Z) (f : frame) : frame :=
  set_pid (upd2 (pid f) (cur_pid f) p) f.

(** The same outcome of a stage but for the frame, which is [g]. *)
Definition with_frame {W : Type} (g : frame -> frame)
    (r : (control * frame) * machine W * list event)
  : (control * frame) * machine W * list event :=
  let '((c, f), m, e) := r in ((c, g f), m, e).
Definition with_query_frame {W : Type} (g : frame -> frame)
    (r : (NTSTATUS * frame) * machine W * list event)
  : (NTSTATUS * frame) * machine W * list event :=
  let '((st, f), m, e) := r in ((st, g f), m, e).

(** What a trace has shown of the private heap so far: nothing, the heap
    that is in use, or its destruction. *)
Inductive heap_phase :=
| HeapUnseen
| HeapInUse (heap : PVOID)
| HeapDestroyed.

(** One heap per search: a heap is created at most once and before any
    use, every allocation, release and destruction names the same heap,
    and nothing touches the heap once [RtlDestroyHeap] has been called. *)
Definition heap_step (s : heap_phase) (e : event) : option heap_phase :=
  match e with
  | EvRtlCreateHeap h =>
      match s with
      | HeapUnseen => Some (HeapInUse h)
      | _ => None
      end
  | EvRtlAllocateHeap h _ _ | EvRtlFreeHeap h _ =>
      match s with
      | HeapUnseen => Some (HeapInUse h)
      | HeapInUse h' => if h' =? h then Some s else None
      | HeapDestroyed => None
      end
  | EvRtlDestroyHeap h _ =>
      match s with
      | HeapUnseen => Some HeapDestroyed
      | HeapInUse h' => if h' =? h then Some HeapDestroyed else None
      | HeapDestroyed => None
      end
  | _ => Some s
  end.

(** The heap the trace has shown, if any, is the one in [PhHeapHandle]. *)
Definition heap_tracks {W : Type} (s : heap_phase) (m : machine W) : Prop :=
  s = HeapUnseen \/ s = HeapInUse (PhHeapHandle m).

(** Nothing of the heap has been seen. *)
Definition heap_unseen {W : Type} (s : heap_phase) (m : machine W) : Prop :=
  s = HeapUnseen.

(** From a state of the monitor and a machine that [P] relates, the
    events of [c] are accepted and lead to a state and a machine that [Q]
    relates. *)
Definition heap_triple {W A : Type} (P : heap_phase -> machine W -> Prop)
    (c : M W A) (Q : heap_phase -> machine W -> Prop) : Prop :=
  forall m a m' e s,
    c m = (a, m', e) -> P s m ->
    exists s', run heap_step s e = Some s' /\ Q s' m'.

(** A computation that works in the heap of [PhHeapHandle]. *)
Definition in_the_heap {W A : Type} (c : M W A) : Prop :=
  heap_triple heap_tracks c heap_tracks.

(** * Facts *)

(** ** Status codes *)

Lemma size_error_not_success (status : NTSTATUS) :
  size_error status = true -> NT_SUCCESS status = false.
Proof.
  unfold size_error. intros H.
  apply orb_true_iff in H. destruct H as [H | H].
  - apply orb_true_iff in H.
    destruct H as [H | H]; apply Z.eqb_eq in H; subst; reflexivity.
  - apply Z.eqb_eq in H. subst. reflexivity.
Qed.

Lemma success_not_denied (status : NTSTATUS) :
  NT_SUCCESS status = true -> (status =? STATUS_ACCESS_DENIED) = false.
Proof.
  unfold NT_SUCCESS. intros H. apply Z.leb_le in H. apply Z.eqb_neq.
  intros ->. revert H. vm_compute. intros H. apply H. reflexivity.
Qed.

(** ** Observations distribute over concatenation *)

Lemma uprintf_lines_app a b :
  uprintf_lines (a ++ b) = uprintf_lines a ++ uprintf_lines b.
Proof. apply flat_map_app. Qed.
Lemma records_read_app a b :
  records_read (a ++ b) = records_read a ++ records_read b.
Proof. apply flat_map_app. Qed.
Lemma opens_app a b : opens (a ++ b) = opens a ++ opens b.
Proof. apply flat_map_app. Qed.
Lemma duplications_app a b :
  duplications (a ++ b) = duplications a ++ duplications b.
Proof. apply flat_map_app. Qed.
Lemma closes_app a b : closes (a ++ b) = closes a ++ closes b.
Proof. apply flat_map_app. Qed.
Lemma queries_app a b : queries (a ++ b) = queries a ++ queries b.
Proof. apply flat_map_app. Qed.
Lemma resolved_app a b : resolved (a ++ b) = resolved a ++ resolved b.
Proof. apply flat_map_app. Qed.
Lemma path_lines_app a b : path_lines (a ++ b) = path_lines a ++ path_lines b.
Proof.
  unfold path_lines. rewrite uprintf_lines_app. apply flat_map_app.
Qed.
Lemma slot_events_app a b : slot_events (a ++ b) = slot_events a ++ slot_events b.
Proof. apply flat_map_app. Qed.

Create Rewrite HintDb observe.
#[local] Hint Rewrite uprintf_lines_app records_read_app opens_app
  duplications_app closes_app queries_app resolved_app path_lines_app
  slot_events_app : observe.

(** ** The trace specifications over concatenation *)

Lemma memo_respected_app memo a b :
  memo_respected memo (a ++ b)
  <-> memo_respected memo a /\ memo_respected (memo_after memo a) b.
Proof.
  revert memo. induction a as [|[[k p] st] a IH]; intros memo; cbn.
  - tauto.
  - rewrite IH. tauto.
Qed.

Lemma memo_after_app memo a b :
  memo_after memo (a ++ b) = memo_after (memo_after memo a) b.
Proof.
  revert memo. induction a as [|[[k p] st] a IH]; intros memo; cbn;
    [reflexivity|apply IH].
Qed.

Lemma slot_free_app held a b :
  slot_free held (a ++ b)
  <-> slot_free held a /\ slot_free (held_after held a) b.
Proof.
  revert held. induction a as [|[h|[st out]] a IH]; intros held; cbn.
  - tauto.
  - apply IH.
  - rewrite IH. tauto.
Qed.

Lemma held_after_app held a b :
  held_after held (a ++ b) = held_after (held_after held a) b.
Proof.
  revert held. induction a as [|[h|[st out]] a IH]; intros held; cbn;
    [reflexivity|apply IH|apply IH].
Qed.

Lemma dedup_app reported a b :
  dedup reported (a ++ b)
  = dedup reported a ++ dedup (reported_after reported a) b.
Proof.
  revert reported. induction a as [|p a IH]; intros reported; cbn.
  - reflexivity.
  - destruct (string_dec p reported) as [->|Hne].
    + apply IH.
    + cbn. rewrite IH. reflexivity.
Qed.

Lemma reported_after_app reported a b :
  reported_after reported (a ++ b)
  = reported_after (reported_after reported a) b.
Proof.
  revert reported. induction a as [|p a IH]; intros reported; cbn;
    [reflexivity|apply IH].
Qed.

Lemma opens_follow_runs_nil prev i pids : opens_follow_runs prev i pids [].
Proof. destruct pids; cbn; auto. Qed.

(** A call of [PhOpenProcess] is for a record whose process id differs
    from the one before it. *)
Lemma opens_follow_runs_at pids :
  forall prev i ops,
    opens_follow_runs prev i pids ops ->
    forall k q st,
      In (k, q, st) ops ->
      (i <= k)%nat /\ nth_error pids (k - i) = Some q /\
      match (k - i)%nat with
      | O => q <> prev
      | S j => nth_error pids j <> Some q
      end.
Proof.
  induction pids as [|p pids IH]; intros prev i ops H k q st Hin.
  - cbn in H. subst ops. contradiction.
  - assert (Hshift : forall k' q',
      (S i <= k')%nat /\ nth_error pids (k' - S i) = Some q' /\
      match (k' - S i)%nat with
      | O => q' <> p
      | S j => nth_error pids j <> Some q'
      end ->
      (i <= k')%nat /\ nth_error (p :: pids) (k' - i) = Some q' /\
      match (k' - i)%nat with
      | O => q' <> prev
      | S j => nth_error (p :: pids) j <> Some q'
      end).
    { intros k' q' (Hle & Hnth & Hprev).
      replace (k' - i)%nat with (S (k' - S i)) by lia.
      split; [lia|]. split; [exact Hnth|].
      destruct (k' - S i)%nat as [|j]; cbn; [congruence|exact Hprev]. }
    cbn in H. destruct ops as [|[[k0 q0] st0] ops]; [contradiction|].
    destruct H as [(-> & -> & Hne & H) | H].
    + destruct Hin as [Heq | Hin].
      * injection Heq as <- <- <-. rewrite Nat.sub_diag. cbn.
        split; [lia|]. split; [reflexivity|exact Hne].
      * apply Hshift. exact (IH _ _ _ H _ _ _ Hin).
    + apply Hshift. exact (IH _ _ _ H _ _ _ Hin).
Qed.

(** Over records [a] to [b] that share one process id, at most one call
    of [PhOpenProcess] is made. *)
Lemma opens_follow_runs_once (a b : nat) (P : Z) pids :
  forall prev i ops,
    opens_follow_runs prev i pids ops ->
    (forall k, (a <= k <= b)%nat -> (i <= k)%nat ->
               nth_error pids (k - i) = Some P) ->
    ((i <= a)%nat -> (List.length (opens_between a b ops) <= 1)%nat) /\
    ((a < i)%nat -> ((i <= b)%nat -> prev = P) ->
     opens_between a b ops = []).
Proof.
  induction pids as [|p pids IH]; intros prev i ops H Hrun.
  - cbn in H. subst ops. cbn. split; intros; [lia|reflexivity].
  - assert (Hrun' : forall k, (a <= k <= b)%nat -> (S i <= k)%nat ->
                              nth_error pids (k - S i) = Some P).
    { intros k Hk Hik. specialize (Hrun k Hk ltac:(lia)).
      replace (k - i)%nat with (S (k - S i)) in Hrun by lia. exact Hrun. }
    assert (Hp : (a <= i <= b)%nat -> p = P).
    { intros Hi. specialize (Hrun i Hi ltac:(lia)).
      rewrite Nat.sub_diag in Hrun. cbn in Hrun. congruence. }
    cbn in H. destruct ops as [|[[k0 q0] st0] ops].
    { cbn. split; intros; [lia|reflexivity]. }
    destruct H as [(-> & -> & Hne & H) | H].
    + destruct (IH _ _ _ H Hrun') as (IH1 & IH2).
      unfold opens_between in *. cbn [filter open_index fst].
      destruct ((a <=? i)%nat && (i <=? b)%nat) eqn:Hin.
      * apply andb_true_iff in Hin. destruct Hin as (Ha & Hb).
        apply Nat.leb_le in Ha, Hb.
        split.
        -- intros Hia. rewrite IH2; [cbn; lia|lia|].
           intros _. apply Hp. lia.
        -- intros Hai Hprev. exfalso. apply Hne.
           rewrite (Hp ltac:(lia)). symmetry. apply Hprev. lia.
      * apply andb_false_iff in Hin.
        split.
        -- intros Hia. destruct (Nat.eq_dec i a) as [->|Hn].
           ++ rewrite IH2; [cbn; lia|lia|].
              intros Hb. destruct Hin as [Hin|Hin];
                [apply Nat.leb_gt in Hin|apply Nat.leb_gt in Hin]; lia.
           ++ apply IH1. lia.
        -- intros Hai Hprev. apply IH2; [lia|].
           intros Hb. destruct Hin as [Hin|Hin];
             [apply Nat.leb_gt in Hin|apply Nat.leb_gt in Hin]; lia.
    + destruct (IH _ _ _ H Hrun') as (IH1 & IH2). split.
      * intros Hia. destruct (Nat.eq_dec i a) as [->|Hne].
        -- rewrite IH2; [cbn; lia|lia|]. intros Hb. apply Hp. lia.
        -- apply IH1. lia.
      * intros Hai Hprev. apply IH2; [lia|].
        intros Hb. apply Hp. lia.
Qed.

(** ** Inversion of computations *)

Lemma bind_inv {W A B} (c : M W A) (k : A -> M W B) m b m2 e :
  bind c k m = (b, m2, e) ->
  exists a m1 e1 e2,
    c m = (a, m1, e1) /\ k a m1 = (b, m2, e2) /\ e = e1 ++ e2.
Proof.
  unfold bind. destruct (c m) as [[a m1] e1].
  destruct (k a m1) as [[b' m2'] e2] eqn:Ek. intros [= <- <- <-].
  exists a, m1, e1, e2. auto.
Qed.

Lemma ret_inv {W A} (a : A) (m : machine W) b m' e :
  ret a m = (b, m', e) -> b = a /\ m' = m /\ e = [].
Proof. unfold ret. intros [= <- <- <-]. auto. Qed.

Lemma emit_inv {W} (ev : event) (m : machine W) u m' e :
  emit ev m = (u, m', e) -> m' = m /\ e = [ev].
Proof. unfold emit. intros [= <- <- <-]. auto. Qed.

Lemma os_call_inv {W A} (f : W -> A * W) (ev : A -> event) (m : machine W)
    a m' e :
  os_call f ev m = (a, m', e) ->
  exists w, f (world m) = (a, w) /\ m' = set_world w m /\ e = [ev a].
Proof.
  unfold os_call. destruct (f (world m)) as [a' w]. intros [= <- <- <-].
  exists w. auto.
Qed.

(** Take a computation apart along its binds, branching on the tests it
    meets; equations on calls the tactic does not know are kept. *)
Ltac minv H :=
  lazymatch type of H with
  | bind _ _ _ = _ =>
      let a := fresh "a" in let m := fresh "m" in
      let e1 := fresh "e" in let e2 := fresh "e" in
      let H1 := fresh "H" in let H2 := fresh "H" in
      apply bind_inv in H;
      destruct H as (a & m & e1 & e2 & H1 & H2 & ->);
      minv H1; minv H2
  | ret _ _ = _ =>
      apply ret_inv in H;
      let Ha := fresh in let Hm := fresh in let He := fresh in
      destruct H as (Ha & Hm & He);
      try (injection Ha as Ha); subst
  | emit _ _ = _ =>
      apply emit_inv in H;
      let Hm := fresh in let He := fresh in
      destruct H as (Hm & He); subst
  | os_call _ _ _ = _ =>
      let w := fresh "w" in
      let Hw := fresh "Hcall" in let Hm := fresh in let He := fresh in
      apply os_call_inv in H;
      destruct H as (w & Hw & Hm & He); subst
  | (if ?c then _ else _) _ = _ =>
      let E := fresh "Hif" in
      destruct c eqn:E; cbv beta iota in H; minv H
  | (match ?x with _ => _ end) _ = _ =>
      let E := fresh "Hcase" in
      destruct x eqn:E; cbv beta iota in H; minv H
  | get_heap _ = _ => unfold get_heap in H; minv H
  | put_heap _ _ = _ => unfold put_heap in H; minv H
  | get_initialBufferSize _ = _ => unfold get_initialBufferSize in H; minv H
  | put_initialBufferSize _ _ = _ => unfold put_initialBufferSize in H; minv H
  | (_, _, _) = (_, _, _) =>
      let Ha := fresh in let Hm := fresh in let He := fresh in
      injection H as Ha Hm He; subst
  | match ?x with _ => _ end = _ =>
      let E := fresh "Hcase" in
      destruct x eqn:E; cbv beta iota in H; minv H
  | _ => idtac
  end.

Section EngineFacts.

Context {W : Type} (os : OS W).
Variable PH_LARGE_BUFFER_SIZE : Z.
Variable pid1_indeterminate : Z.
Variable exe1_indeterminate : string.

(** *** Set-up and clean-up emit housekeeping events only *)

Lemma PhFree_events p m : Forall housekeeping_event (events_of (PhFree os p m)).
Proof.
  unfold PhFree, pfRtlFreeHeap, os_call, get_heap, bind, ret, events_of.
  destruct (pf_resolved os pRtlFreeHeap); simpl; repeat constructor.
Qed.

Lemma PhAllocate_events n m : Forall housekeeping_event (events_of (PhAllocate os n m)).
Proof.
  unfold PhAllocate, pfRtlAllocateHeap, os_call, get_heap, bind, ret, events_of.
  destruct (pf_resolved os pRtlAllocateHeap); simpl; [|constructor].
  destruct (RtlAllocateHeap os _ _ _); simpl. repeat constructor.
Qed.

Lemma PhCreateHeap_events m : Forall housekeeping_event (events_of (PhCreateHeap os m)).
Proof.
  unfold PhCreateHeap, pfRtlCreateHeap, os_call, get_heap, put_heap, bind,
    ret, events_of.
  simpl. destruct (PhHeapHandle m =? NULL); simpl; [|constructor].
  destruct (NT_SUCCESS _); simpl; [|constructor].
  destruct (RtlCreateHeap os _) as [h w]; simpl.
  destruct (h =? NULL); simpl; repeat constructor.
Qed.

Lemma PhDestroyHeap_events m : Forall housekeeping_event (events_of (PhDestroyHeap os m)).
Proof.
  unfold PhDestroyHeap, pfRtlDestroyHeap, os_call, get_heap, put_heap, bind,
    ret, events_of.
  simpl. destruct (PhHeapHandle m =? NULL); simpl; [constructor|].
  destruct (NT_SUCCESS _); simpl; [|constructor].
  destruct (RtlDestroyHeap os _ _) as [h w]; simpl.
  destruct (h =? NULL); simpl; repeat constructor.
Qed.

(** A trace of heap events shows nothing to the observers. *)
Lemma housekeeping_unobserved evs :
  Forall housekeeping_event evs ->
  uprintf_lines evs = [] /\ records_read evs = [] /\ opens evs = [] /\
  duplications evs = [] /\ closes evs = [] /\ queries evs = [] /\
  resolved evs = [] /\ path_lines evs = [] /\ slot_events evs = [].
Proof.
  induction 1 as [|e evs He _ IH]; [repeat split|].
  destruct IH as (I1 & I2 & I3 & I4 & I5 & I6 & I7 & I8 & I9).
  unfold path_lines in *.
  destruct e; simpl in He; try contradiction; simpl; repeat split; assumption.
Qed.

(** The events of a name query show queries only. *)
Lemma silent_observe evs :
  silent evs ->
  uprintf_lines evs = [] /\ records_read evs = [] /\ opens evs = [] /\
  duplications evs = [] /\ closes evs = [] /\
  resolved evs = [] /\ path_lines evs = [] /\ slot_events evs = [].
Proof.
  induction 1 as [|e evs He _ IH]; [repeat split|].
  destruct IH as (I1 & I2 & I3 & I4 & I5 & I6 & I7 & I8).
  unfold path_lines in *.
  destruct e; simpl in He; try contradiction; simpl; repeat split; assumption.
Qed.

Lemma housekeeping_is_silent evs : Forall housekeeping_event evs -> silent evs.
Proof.
  unfold silent. apply Forall_impl. intros e He.
  destruct e; simpl in *; try contradiction; exact I.
Qed.

(** *** [PhEnumHandlesEx] *)

(** One pass of the loop of lines 202-214 on a length-mismatch reply. *)
Lemma enum_loop_mismatch fuel buf size m info w :
  NtQuerySystemInformation os buf size (world m)
    = ((STATUS_INFO_LENGTH_MISMATCH, info), w) ->
  let doubled := ULONG_wrap (size * 2) in
  let query := EvNtQuerySystemInformation buf size STATUS_INFO_LENGTH_MISMATCH in
  let freed := PhFree os buf (set_world w m) in
  (PH_LARGE_BUFFER_SIZE < doubled ->
     enum_loop os PH_LARGE_BUFFER_SIZE (S fuel) buf size m
     = (Some (EnumReturn STATUS_INSUFFICIENT_RESOURCES), machine_of freed,
        query :: events_of freed)) /\
  (doubled <= PH_LARGE_BUFFER_SIZE ->
     let allocated := PhAllocate os doubled (machine_of freed) in
     let fresh := value_of allocated in
     (fresh = NULL ->
        enum_loop os PH_LARGE_BUFFER_SIZE (S fuel) buf size m
        = (Some (EnumReturn STATUS_NO_MEMORY), machine_of allocated,
           query :: events_of freed ++ events_of allocated)) /\
     (fresh <> NULL ->
        let retry := enum_loop os PH_LARGE_BUFFER_SIZE fuel fresh doubled
                       (machine_of allocated) in
        enum_loop os PH_LARGE_BUFFER_SIZE (S fuel) buf size m
        = (value_of retry, machine_of retry,
           query :: events_of freed ++ events_of allocated ++ events_of retry))).
Proof.
  intros Hq doubled query freed.
  assert (Hstep : enum_loop os PH_LARGE_BUFFER_SIZE (S fuel) buf size m =
    let '(_, m1, e1) := freed in
    let '(b, m2, e2) :=
      (if PH_LARGE_BUFFER_SIZE <? doubled
       then ret (Some (EnumReturn STATUS_INSUFFICIENT_RESOURCES))
       else bind (PhAllocate os doubled)
              (fun p => if p =? NULL
                        then ret (Some (EnumReturn STATUS_NO_MEMORY))
                        else enum_loop os PH_LARGE_BUFFER_SIZE fuel p doubled))
        m1 in
    (b, m2, query :: e1 ++ e2)).
  { cbn [enum_loop]. unfold bind at 1.
    unfold pfNtQuerySystemInformation at 1, os_call at 1. rewrite Hq.
    cbn [fst snd]. rewrite Z.eqb_refl.
    unfold bind at 1. fold freed. fold doubled.
    destruct freed as [[[] m1] e1].
    match goal with |- context [?c m1] =>
      match type of (c m1) with
      | _ => destruct (c m1) as [[b m2] e2]
      end end.
    reflexivity. }
  rewrite Hstep. clear Hstep.
  destruct freed as [[[] m1] e1].
  unfold machine_of, events_of, value_of; cbn [fst snd]. split.
  - intros Hgt. apply Z.ltb_lt in Hgt. rewrite Hgt.
    unfold ret. rewrite app_nil_r. reflexivity.
  - intros Hle. apply Z.ltb_ge in Hle. rewrite Hle.
    unfold bind. destruct (PhAllocate os doubled m1) as [[p m2] e2].
    cbn [fst snd]. split.
    + intros ->. cbn. rewrite app_nil_r. reflexivity.
    + intros Hp. apply Z.eqb_neq in Hp. rewrite Hp.
      destruct (enum_loop os PH_LARGE_BUFFER_SIZE fuel p doubled m2)
        as [[r m3] e3].
      reflexivity.
Qed.

(** The loop cannot outlive its fuel once doubling the size [k] times
    passes the ceiling. *)
Lemma enum_loop_returns (k : nat) :
  PH_LARGE_BUFFER_SIZE < 2 ^ 31 ->
  forall fuel buf size m,
    (k < fuel)%nat -> 0 < size < 2 ^ 31 ->
    PH_LARGE_BUFFER_SIZE < size * 2 ^ Z.of_nat k ->
    value_of (enum_loop os PH_LARGE_BUFFER_SIZE fuel buf size m) <> None.
Proof.
  intros Hceil. induction k as [|k IH]; intros fuel buf size m Hk Hs Hpow;
    (destruct fuel as [|fuel]; [lia|]);
    destruct (enum_loop os PH_LARGE_BUFFER_SIZE (S fuel) buf size m)
      as [[r m'] e] eqn:H;
    unfold value_of; cbn [fst snd];
    cbn [enum_loop] in H; minv H; try discriminate;
    assert (Hd : ULONG_wrap (size * 2) = size * 2)
      by (unfold ULONG_wrap; apply Z.mod_small; lia);
    rewrite Hd in *;
    match goal with Hc : (_ <? _) = false |- _ => apply Z.ltb_ge in Hc end.
  - cbn in Hpow. lia.
  - match goal with
    | Hr : enum_loop _ _ fuel ?p ?sz ?m1 = _ |- _ =>
        specialize (IH fuel p sz m1); rewrite Hr in IH
    end.
    unfold value_of in IH; cbn [fst snd] in IH.
    apply IH; [lia|lia|].
    rewrite Nat2Z.inj_succ, Z.pow_succ_r in Hpow by lia. lia.
Qed.

Lemma PhAllocate_initialBufferSize n m :
  initialBufferSize (machine_of (PhAllocate os n m)) = initialBufferSize m.
Proof.
  destruct (PhAllocate os n m) as [[p m'] e] eqn:H.
  unfold machine_of; cbn [fst snd].
  unfold PhAllocate, pfRtlAllocateHeap in H. minv H; reflexivity.
Qed.

(** With a ceiling below 2^31 and a positive seed size, 32 queries are
    all [PhEnumHandlesEx] can issue: it returns. *)
Lemma PhEnumHandlesEx_returns fuel m :
  PH_LARGE_BUFFER_SIZE < 2 ^ 31 ->
  0 < initialBufferSize m < 2 ^ 31 ->
  (32 <= fuel)%nat ->
  value_of (PhEnumHandlesEx os PH_LARGE_BUFFER_SIZE fuel m) <> None.
Proof.
  intros Hceil Hinit Hfuel.
  destruct (PhEnumHandlesEx os PH_LARGE_BUFFER_SIZE fuel m)
    as [[r m'] e] eqn:H.
  unfold value_of; cbn [fst snd].
  unfold PhEnumHandlesEx in H. minv H; try discriminate.
  exfalso.
  match goal with
  | Hr : enum_loop _ _ fuel ?p ?sz ?m1 = _,
    Ha : PhAllocate _ ?n ?m0 = (_, ?m1, _) |- _ =>
      pose proof (enum_loop_returns 31 Hceil fuel p sz m1) as Hl;
      pose proof (PhAllocate_initialBufferSize n m0) as Hi;
      rewrite Hr in Hl; rewrite Ha in Hi
  end.
  unfold value_of, machine_of in *; cbn [fst snd] in *.
  apply Hl; [lia|lia| |reflexivity].
  change (2 ^ Z.of_nat 31) with (2 ^ 31). lia.
Qed.

(** Turn the equations kept by [minv] on heap calls into facts on their
    events. *)
Ltac heap_facts :=
  repeat match goal with
  | H : PhFree ?o ?p ?m = (_, _, ?e) |- _ =>
      lazymatch goal with
      | _ : Forall housekeeping_event e |- _ => fail
      | _ => let X := fresh "Hheap" in
             pose proof (PhFree_events p m) as X; rewrite H in X;
             unfold events_of in X; cbn [fst snd] in X
      end
  | H : PhAllocate ?o ?n ?m = (_, _, ?e) |- _ =>
      lazymatch goal with
      | _ : Forall housekeeping_event e |- _ => fail
      | _ => let X := fresh "Hheap" in
             pose proof (PhAllocate_events n m) as X; rewrite H in X;
             unfold events_of in X; cbn [fst snd] in X
      end
  | H : PhCreateHeap ?o ?m = (_, _, ?e) |- _ =>
      lazymatch goal with
      | _ : Forall housekeeping_event e |- _ => fail
      | _ => let X := fresh "Hheap" in
             pose proof (PhCreateHeap_events m) as X; rewrite H in X;
             unfold events_of in X; cbn [fst snd] in X
      end
  | H : PhDestroyHeap ?o ?m = (_, _, ?e) |- _ =>
      lazymatch goal with
      | _ : Forall housekeeping_event e |- _ => fail
      | _ => let X := fresh "Hheap" in
             pose proof (PhDestroyHeap_events m) as X; rewrite H in X;
             unfold events_of in X; cbn [fst snd] in X
      end
  end.

Ltac heap_forall :=
  repeat first
    [ assumption
    | apply Forall_nil
    | apply Forall_cons; [exact I|]
    | apply Forall_app; split ].

Lemma enum_loop_events fuel :
  forall buf size m,
    Forall housekeeping_event (events_of (enum_loop os PH_LARGE_BUFFER_SIZE fuel buf size m)).
Proof.
  induction fuel as [|fuel IH]; intros buf size m.
  - cbn. constructor.
  - destruct (enum_loop os PH_LARGE_BUFFER_SIZE (S fuel) buf size m)
      as [[r m'] e] eqn:H.
    unfold events_of; cbn [fst snd].
    cbn [enum_loop] in H. unfold pfNtQuerySystemInformation in H.
    minv H; heap_facts; heap_forall.
    match goal with
    | Hr : enum_loop _ _ fuel ?p ?sz ?m1 = _ |- _ =>
        specialize (IH p sz m1); rewrite Hr in IH
    end.
    exact IH.
Qed.

Lemma PhEnumHandlesEx_events fuel m :
  Forall housekeeping_event (events_of (PhEnumHandlesEx os PH_LARGE_BUFFER_SIZE fuel m)).
Proof.
  destruct (PhEnumHandlesEx os PH_LARGE_BUFFER_SIZE fuel m)
    as [[r m'] e] eqn:H.
  unfold events_of; cbn [fst snd].
  unfold PhEnumHandlesEx in H.
  minv H; heap_facts;
    try match goal with
    | Hr : enum_loop _ _ fuel ?p ?sz ?m1 = _ |- _ =>
        pose proof (enum_loop_events fuel p sz m1) as Hl; rewrite Hr in Hl;
        unfold events_of in Hl; cbn [fst snd] in Hl
    end;
    heap_forall.
Qed.

Lemma capture_events fuel m :
  Forall housekeeping_event (events_of (capture os PH_LARGE_BUFFER_SIZE fuel m)).
Proof.
  destruct (capture os PH_LARGE_BUFFER_SIZE fuel m) as [[r m'] e] eqn:H.
  unfold events_of; cbn [fst snd].
  unfold capture in H.
  minv H; heap_facts;
    try match goal with
    | Hr : PhEnumHandlesEx _ _ fuel ?m1 = _ |- _ =>
        pose proof (PhEnumHandlesEx_events fuel m1) as Hl; rewrite Hr in Hl;
        unfold events_of in Hl; cbn [fst snd] in Hl
    end;
    heap_forall.
Qed.

Lemma out_events HandleName found b h m :
  let r := out os HandleName found b h m in
  value_of r = Returned found /\
  uprintf_lines (events_of r)
  = [if found then LCloseApplications else LNotIdentified HandleName] /\
  records_read (events_of r) = [] /\ opens (events_of r) = [] /\
  duplications (events_of r) = [] /\ closes (events_of r) = [] /\
  queries (events_of r) = [] /\ resolved (events_of r) = [] /\
  path_lines (events_of r) = [] /\ slot_events (events_of r) = [].
Proof.
  intros r. subst r.
  destruct (out os HandleName found b h m) as [[r m'] e] eqn:H.
  unfold value_of, events_of; cbn [fst snd].
  unfold out, uprintf in H. minv H; heap_facts;
    repeat match goal with
    | X : Forall housekeeping_event _ |- _ =>
        apply housekeeping_unobserved in X;
        destruct X as (? & ? & ? & ? & ? & ? & ? & ? & ?)
    end;
    autorewrite with observe;
    cbn [uprintf_lines records_read opens duplications closes queries
         resolved path_lines slot_events flat_map line_of record_of open_of
         duplicate_of close_of query_of resolved_of path_of slot_of app];
    repeat match goal with
    | X : _ = [] |- _ => rewrite X
    end; cbn [app flat_map path_of]; repeat split.
Qed.

(** *** What follows a length-mismatch reply in the trace *)

Lemma split_after_prefix {A : Type} (l1 l2 pre post : list A) (x : A) :
  ~ In x l1 -> l1 ++ l2 = pre ++ x :: post ->
  exists pre', pre = l1 ++ pre' /\ l2 = pre' ++ x :: post.
Proof.
  revert pre. induction l1 as [|a l1 IH]; intros pre Hn H.
  - exists pre. split; [reflexivity|exact H].
  - destruct pre as [|b pre]; cbn [app] in H; injection H as Ha H.
    + exfalso. apply Hn. left. exact Ha.
    + subst b. destruct (IH pre) as (pre' & -> & ->).
      * intros Hin. apply Hn. right. exact Hin.
      * exact H.
      * exists pre'. split; reflexivity.
Qed.

Lemma split_before_suffix {A : Type} (l1 l2 pre post : list A) (x : A) :
  ~ In x l2 -> l1 ++ l2 = pre ++ x :: post ->
  exists post', l1 = pre ++ x :: post' /\ post = post' ++ l2.
Proof.
  revert pre. induction l1 as [|a l1 IH]; intros pre Hn H.
  - exfalso. apply Hn. cbn [app] in H. rewrite H.
    apply in_or_app. right. left. reflexivity.
  - destruct pre as [|b pre]; cbn [app] in H; injection H as Ha H.
    + subst a. exists l1. split; [reflexivity|symmetry; exact H].
    + subst b. destruct (IH pre Hn H) as (post' & -> & ->).
      exists post'. split; reflexivity.
Qed.

(** The events of [PhFree] and [PhAllocate], which leave the heap handle
    alone. *)
Lemma PhFree_trace p m :
  events_of (PhFree os p m)
  = (if pf_resolved os pRtlFreeHeap
     then [EvRtlFreeHeap (PhHeapHandle m) p] else []) /\
  PhHeapHandle (machine_of (PhFree os p m)) = PhHeapHandle m.
Proof.
  unfold PhFree, pfRtlFreeHeap, os_call, get_heap, bind, ret, events_of,
    machine_of.
  destruct (pf_resolved os pRtlFreeHeap); cbn; split; reflexivity.
Qed.

Lemma PhAllocate_trace n m :
  events_of (PhAllocate os n m)
  = (if pf_resolved os pRtlAllocateHeap
     then [EvRtlAllocateHeap (PhHeapHandle m) n (value_of (PhAllocate os n m))]
     else []) /\
  PhHeapHandle (machine_of (PhAllocate os n m)) = PhHeapHandle m /\
  (value_of (PhAllocate os n m) <> NULL ->
   pf_resolved os pRtlAllocateHeap = true).
Proof.
  unfold PhAllocate, pfRtlAllocateHeap, os_call, get_heap, bind, ret,
    events_of, machine_of, value_of.
  destruct (pf_resolved os pRtlAllocateHeap); cbn.
  - destruct (RtlAllocateHeap os (PhHeapHandle m) n (world m)); cbn.
    repeat split; reflexivity.
  - repeat split; try reflexivity. intros H. exfalso. apply H. reflexivity.
Qed.

Lemma PhFree_same_heap p m1 m2 :
  PhHeapHandle m1 = PhHeapHandle m2 ->
  events_of (PhFree os p m1) = events_of (PhFree os p m2).
Proof.
  intros H. rewrite (proj1 (PhFree_trace p m1)), (proj1 (PhFree_trace p m2)), H.
  reflexivity.
Qed.

Lemma PhFree_asks_nothing p m b s st :
  ~ In (EvNtQuerySystemInformation b s st) (events_of (PhFree os p m)).
Proof.
  rewrite (proj1 (PhFree_trace p m)).
  destruct (pf_resolved os pRtlFreeHeap); cbn;
    [intros [H|[]]; discriminate H|intros []].
Qed.

Lemma PhAllocate_asks_nothing n m b s st :
  ~ In (EvNtQuerySystemInformation b s st) (events_of (PhAllocate os n m)).
Proof.
  rewrite (proj1 (PhAllocate_trace n m)).
  destruct (pf_resolved os pRtlAllocateHeap); cbn;
    [intros [H|[]]; discriminate H|intros []].
Qed.

(** The loop of lines 202-214 on any other reply. *)
Lemma enum_loop_done fuel buf size m st info w :
  NtQuerySystemInformation os buf size (world m) = ((st, info), w) ->
  st <> STATUS_INFO_LENGTH_MISMATCH ->
  enum_loop os PH_LARGE_BUFFER_SIZE (S fuel) buf size m
  = (Some (EnumDone st buf size info), set_world w m,
     [EvNtQuerySystemInformation buf size st]).
Proof.
  intros Hq Hst. apply Z.eqb_neq in Hst.
  cbn [enum_loop]. unfold bind, pfNtQuerySystemInformation, os_call.
  rewrite Hq. cbn [fst snd]. rewrite Hst. reflexivity.
Qed.

(** A loop that is entered asks first, with the buffer and the size it
    was entered with, and records the reply of the system. *)
Lemma enum_loop_head fuel buf size m :
  exists rest,
    events_of (enum_loop os PH_LARGE_BUFFER_SIZE (S fuel) buf size m)
    = EvNtQuerySystemInformation buf size
        (fst (fst (NtQuerySystemInformation os buf size (world m))))
      :: rest.
Proof.
  destruct (NtQuerySystemInformation os buf size (world m))
    as [[st info] w] eqn:Hq.
  cbn [fst]. destruct (Z.eq_dec st STATUS_INFO_LENGTH_MISMATCH) as [->|Hst].
  - destruct (enum_loop_mismatch fuel buf size m info w Hq) as (Hover & Hfit).
    destruct (Z.lt_ge_cases PH_LARGE_BUFFER_SIZE (ULONG_wrap (size * 2)))
      as [Hc|Hc].
    + rewrite (Hover Hc). eexists. reflexivity.
    + destruct (Hfit Hc) as (Hnull & Hfresh).
      destruct (Z.eq_dec
                  (value_of (PhAllocate os (ULONG_wrap (size * 2))
                               (machine_of (PhFree os buf (set_world w m)))))
                  NULL) as [Hp|Hp].
      * rewrite (Hnull Hp). eexists. reflexivity.
      * rewrite (Hfresh Hp). eexists. reflexivity.
  - rewrite (enum_loop_done fuel buf size m st info w Hq Hst).
    eexists. reflexivity.
Qed.

Lemma enum_loop_asks_first fuel buf size m :
  value_of (enum_loop os PH_LARGE_BUFFER_SIZE fuel buf size m) <> None ->
  exists st rest,
    events_of (enum_loop os PH_LARGE_BUFFER_SIZE fuel buf size m)
    = EvNtQuerySystemInformation buf size st :: rest.
Proof.
  destruct fuel as [|fuel]; intros H.
  - exfalso. apply H. reflexivity.
  - destruct (enum_loop_head fuel buf size m) as (rest & ->).
    eexists. eexists. reflexivity.
Qed.

(** Every length-mismatch reply in the trace of the loop is followed by
    the release of the buffer that was offered, and then either by the
    return of [STATUS_INSUFFICIENT_RESOURCES], when twice the size is
    over the ceiling, or by the allocation of twice the size and, if that
    gives a block, by the next query, of that block and that size. *)
Lemma enum_loop_after_mismatch fuel :
  forall buf0 size0 m,
    forall pre buf size post,
      events_of (enum_loop os PH_LARGE_BUFFER_SIZE fuel buf0 size0 m)
      = pre ++ EvNtQuerySystemInformation buf size STATUS_INFO_LENGTH_MISMATCH
            :: post ->
      let r := value_of (enum_loop os PH_LARGE_BUFFER_SIZE fuel buf0 size0 m) in
      let doubled := ULONG_wrap (size * 2) in
      let freed := events_of (PhFree os buf m) in
      (PH_LARGE_BUFFER_SIZE < doubled ->
         post = freed /\
         r = Some (EnumReturn STATUS_INSUFFICIENT_RESOURCES)) /\
      (doubled <= PH_LARGE_BUFFER_SIZE ->
         pf_resolved os pRtlAllocateHeap = true ->
         exists fresh rest,
           post = freed
                  ++ EvRtlAllocateHeap (PhHeapHandle m) doubled fresh :: rest /\
           (fresh = NULL ->
              rest = [] /\ r = Some (EnumReturn STATUS_NO_MEMORY)) /\
           (fresh <> NULL -> r <> None ->
              exists st rest',
                rest = EvNtQuerySystemInformation fresh doubled st :: rest')).
Proof.
  induction fuel as [|fuel IH]; intros buf0 size0 m pre buf size post H.
  { cbn in H. destruct pre; discriminate H. }
  destruct (NtQuerySystemInformation os buf0 size0 (world m))
    as [[st info] w] eqn:Hq.
  destruct (Z.eq_dec st STATUS_INFO_LENGTH_MISMATCH) as [->|Hst].
  2: { rewrite (enum_loop_done fuel buf0 size0 m st info w Hq Hst) in H.
       unfold events_of in H; cbn [snd] in H.
       destruct pre as [|a pre]; cbn [app] in H.
       - injection H as _ _ Hs _. contradiction.
       - injection H as _ H. destruct pre; discriminate H. }
  destruct (enum_loop_mismatch fuel buf0 size0 m info w Hq) as (Hover & Hfit).
  pose proof (PhFree_trace buf0 (set_world w m)) as (_ & Hfh).
  cbn [PhHeapHandle set_world] in Hfh.
  assert (Hsame : forall b, events_of (PhFree os b (set_world w m))
                            = events_of (PhFree os b m))
    by (intros b; apply PhFree_same_heap; reflexivity).
  destruct (Z.lt_ge_cases PH_LARGE_BUFFER_SIZE (ULONG_wrap (size0 * 2)))
    as [Hc|Hc].
  - (* over the ceiling *)
    specialize (Hover Hc). cbv zeta. rewrite Hover in *.
    unfold events_of at 1 in H. unfold value_of. cbn [fst snd] in *.
    destruct pre as [|a pre]; cbn [app] in H.
    + injection H as -> -> <-. rewrite Hsame. split.
      * intros _. split; reflexivity.
      * intros Hle. lia.
    + injection H as _ H. exfalso.
      apply (PhFree_asks_nothing buf0 (set_world w m) buf size
               STATUS_INFO_LENGTH_MISMATCH).
      rewrite H. apply in_or_app. right. left. reflexivity.
  - destruct (Hfit Hc) as (Hnull & Hfresh). clear Hover Hfit.
    pose proof (PhAllocate_trace (ULONG_wrap (size0 * 2))
                  (machine_of (PhFree os buf0 (set_world w m))))
      as (Hae & Hah & _).
    rewrite Hfh in Hae, Hah.
    destruct (Z.eq_dec
                (value_of (PhAllocate os (ULONG_wrap (size0 * 2))
                             (machine_of (PhFree os buf0 (set_world w m)))))
                NULL) as [Hp|Hp].
    + (* no memory *)
      specialize (Hnull Hp). cbv zeta. rewrite Hnull in *.
      unfold events_of at 1 in H. unfold value_of at 1. cbn [fst snd] in *.
      destruct pre as [|a pre]; cbn [app] in H.
      * injection H as -> -> <-. rewrite Hsame. split; [intros Hlt; lia|].
        intros _ Hres. rewrite Hres in Hae. rewrite Hae, Hp.
        exists NULL, []. split; [reflexivity|]. split.
        -- intros _. split; reflexivity.
        -- intros Hn. exfalso. apply Hn. reflexivity.
      * injection H as _ H. exfalso.
        assert (Hin : In (EvNtQuerySystemInformation buf size
                            STATUS_INFO_LENGTH_MISMATCH)
                        (pre ++ EvNtQuerySystemInformation buf size
                                  STATUS_INFO_LENGTH_MISMATCH :: post))
          by (apply in_or_app; right; left; reflexivity).
        rewrite <- H in Hin. apply in_app_or in Hin.
        destruct Hin as [Hin|Hin]; revert Hin;
          [apply PhFree_asks_nothing|apply PhAllocate_asks_nothing].
    + (* the next pass *)
      specialize (Hfresh Hp). cbv zeta in Hfresh. cbv zeta.
      rewrite Hfresh in *.
      unfold events_of at 1 in H. unfold value_of at 1. cbn [fst snd] in *.
      destruct pre as [|a pre]; cbn [app] in H.
      * injection H as -> -> <-. rewrite Hsame. split; [intros Hlt; lia|].
        intros _ Hres. rewrite Hres in Hae. rewrite Hae.
        eexists. eexists. split; [reflexivity|]. split.
        -- intros Hn. contradiction.
        -- intros _ Hr. apply enum_loop_asks_first. exact Hr.
      * injection H as _ H. rewrite app_assoc in H.
        apply split_after_prefix in H.
        2: { intros Hin. apply in_app_or in Hin. destruct Hin as [Hin|Hin].
             - revert Hin. apply PhFree_asks_nothing.
             - revert Hin. apply PhAllocate_asks_nothing. }
        destruct H as (pre' & _ & H).
        specialize (IH _ _ _ _ _ _ _ H). cbv zeta in IH.
        rewrite Hah in IH.
        rewrite (PhFree_same_heap buf _ m Hah) in IH. exact IH.
Qed.

(** [PhEnumHandlesEx] around its loop: the first allocation, the loop,
    and the release of the buffer when the last reply is a failure. *)
Lemma PhEnumHandlesEx_unfold fuel m :
  pf_resolved os pNtQuerySystemInformation = true ->
  let a := PhAllocate os (initialBufferSize m) m in
  value_of a <> NULL ->
  let l := enum_loop os PH_LARGE_BUFFER_SIZE fuel (value_of a)
             (initialBufferSize m) (machine_of a) in
  exists closing,
    events_of (PhEnumHandlesEx os PH_LARGE_BUFFER_SIZE fuel m)
    = events_of a ++ events_of l ++ closing /\
    (forall b s st, ~ In (EvNtQuerySystemInformation b s st) closing) /\
    value_of (PhEnumHandlesEx os PH_LARGE_BUFFER_SIZE fuel m)
    = match value_of l with
      | None => None
      | Some (EnumReturn st) => Some (st, None)
      | Some (EnumDone st b _ info) =>
          Some (st, if NT_SUCCESS st then Some (b, info) else None)
      end /\
    match value_of l with
    | Some (EnumDone _ _ _ _) => True
    | _ => closing = []
    end.
Proof.
  intros Hres a Ha l. subst a l.
  destruct (PhEnumHandlesEx os PH_LARGE_BUFFER_SIZE fuel m)
    as [[r m'] e] eqn:H.
  unfold PhEnumHandlesEx, PF_INIT_OR_SET_STATUS in H. rewrite Hres in H.
  change (NT_SUCCESS STATUS_SUCCESS) with true in H. cbn [negb andb] in H.
  change (NT_SUCCESS STATUS_SUCCESS) with true in H. cbn [negb] in H.
  apply bind_inv in H. destruct H as (sz & m0 & e0 & e1 & H0 & H & ->).
  unfold get_initialBufferSize in H0. injection H0 as <- <- <-.
  apply bind_inv in H. destruct H as (p & ma & ea & e2 & Hp & H & ->).
  rewrite Hp in *. unfold value_of, machine_of, events_of in *.
  cbn [fst snd app] in *.
  apply Z.eqb_neq in Ha. rewrite Ha in H.
  apply bind_inv in H. destruct H as (x & ml & el & e3 & Hl & H & ->).
  rewrite Hl. cbn [fst snd].
  destruct x as [[st|st b s info]|].
  - apply ret_inv in H. destruct H as (-> & -> & ->).
    exists []. repeat split. intros b s st' [].
  - destruct (NT_SUCCESS st) eqn:Hs; cbn [negb] in H.
    + apply bind_inv in H. destruct H as (u & m1 & e4 & e5 & H4 & H & ->).
      apply ret_inv in H. destruct H as (-> & -> & ->).
      assert (e4 = []) as ->.
      { destruct (s <=? 2097152);
          [unfold put_initialBufferSize in H4|unfold ret in H4];
          injection H4 as _ _ <-; reflexivity. }
      exists []. repeat split. intros b' s' st' [].
    + apply bind_inv in H. destruct H as (u & m1 & e4 & e5 & H4 & H & ->).
      apply ret_inv in H. destruct H as (-> & -> & ->).
      exists e4. rewrite app_nil_r. repeat split.
      intros b' s' st'.
      pose proof (PhFree_asks_nothing b ml b' s' st') as Hn.
      rewrite H4 in Hn. exact Hn.
  - apply ret_inv in H. destruct H as (-> & -> & ->).
    exists []. repeat split. intros b s st' [].
Qed.

(** Without the entry point, or without a first block, nothing is asked. *)
Lemma PhEnumHandlesEx_asks_nothing fuel m :
  pf_resolved os pNtQuerySystemInformation = false \/
  value_of (PhAllocate os (initialBufferSize m) m) = NULL ->
  forall b s st,
    ~ In (EvNtQuerySystemInformation b s st)
         (events_of (PhEnumHandlesEx os PH_LARGE_BUFFER_SIZE fuel m)).
Proof.
  intros H b s st.
  unfold PhEnumHandlesEx, PF_INIT_OR_SET_STATUS.
  destruct (pf_resolved os pNtQuerySystemInformation) eqn:Hres.
  - destruct H as [H|H]; [discriminate H|].
    change (NT_SUCCESS STATUS_SUCCESS) with true. cbn [negb andb].
    change (NT_SUCCESS STATUS_SUCCESS) with true. cbn [negb].
    unfold bind at 1, get_initialBufferSize at 1. unfold bind at 1.
    pose proof (PhAllocate_asks_nothing (initialBufferSize m) m b s st) as Hn.
    destruct (PhAllocate os (initialBufferSize m) m) as [[p ma] ea].
    unfold value_of, events_of in *; cbn [fst snd] in *.
    subst p. rewrite Z.eqb_refl. unfold ret. cbn [app].
    rewrite app_nil_r. exact Hn.
  - change (NT_SUCCESS STATUS_SUCCESS) with true. cbn [negb andb].
    change (NT_SUCCESS STATUS_NOT_IMPLEMENTED) with false. cbn [negb].
    unfold ret, events_of. cbn. intros [].
Qed.

(** The first query is of the block first allocated, with the size kept
    from the last successful call, and the trace records what the system
    replies to it. *)
Lemma PhEnumHandlesEx_first_query fuel m :
  pf_resolved os pNtQuerySystemInformation = true ->
  let a := PhAllocate os (initialBufferSize m) m in
  value_of a <> NULL ->
  exists rest,
    events_of (PhEnumHandlesEx os PH_LARGE_BUFFER_SIZE (S fuel) m)
    = events_of a
      ++ EvNtQuerySystemInformation (value_of a) (initialBufferSize m)
           (fst (fst (NtQuerySystemInformation os (value_of a)
                        (initialBufferSize m) (world (machine_of a)))))
      :: rest.
Proof.
  intros Hres a Ha.
  destruct (PhEnumHandlesEx_unfold (S fuel) m Hres Ha)
    as (closing & He & _).
  destruct (enum_loop_head fuel (value_of a) (initialBufferSize m)
              (machine_of a)) as (rest & Hl).
  fold a in He. rewrite Hl in He. rewrite He.
  exists (rest ++ closing). reflexivity.
Qed.

(** [enum_loop_after_mismatch], of [PhEnumHandlesEx] itself. *)
Lemma PhEnumHandlesEx_after_mismatch fuel m pre buf size post :
  events_of (PhEnumHandlesEx os PH_LARGE_BUFFER_SIZE fuel m)
  = pre ++ EvNtQuerySystemInformation buf size STATUS_INFO_LENGTH_MISMATCH
        :: post ->
  let r := value_of (PhEnumHandlesEx os PH_LARGE_BUFFER_SIZE fuel m) in
  let doubled := ULONG_wrap (size * 2) in
  let freed := events_of (PhFree os buf m) in
  (PH_LARGE_BUFFER_SIZE < doubled ->
     post = freed /\ r = Some (STATUS_INSUFFICIENT_RESOURCES, None)) /\
  (doubled <= PH_LARGE_BUFFER_SIZE ->
     exists fresh rest,
       post = freed
              ++ EvRtlAllocateHeap (PhHeapHandle m) doubled fresh :: rest /\
       (fresh = NULL -> rest = [] /\ r = Some (STATUS_NO_MEMORY, None)) /\
       (fresh <> NULL -> r <> None ->
          exists st rest',
            rest = EvNtQuerySystemInformation fresh doubled st :: rest')).
Proof.
  intros H r doubled freed. subst r doubled freed.
  destruct (pf_resolved os pNtQuerySystemInformation) eqn:Hres.
  2: { exfalso.
       apply (PhEnumHandlesEx_asks_nothing fuel m (or_introl Hres) buf size
                STATUS_INFO_LENGTH_MISMATCH).
       rewrite H. apply in_or_app. right. left. reflexivity. }
  destruct (Z.eq_dec (value_of (PhAllocate os (initialBufferSize m) m)) NULL)
    as [Ha|Ha].
  { exfalso.
    apply (PhEnumHandlesEx_asks_nothing fuel m (or_intror Ha) buf size
             STATUS_INFO_LENGTH_MISMATCH).
    rewrite H. apply in_or_app. right. left. reflexivity. }
  destruct (PhEnumHandlesEx_unfold fuel m Hres Ha)
    as (closing & He & Hclosing & Hv & Hend).
  pose proof (PhAllocate_trace (initialBufferSize m) m) as (_ & Hah & Halloc).
  specialize (Halloc Ha).
  rewrite He in H. apply split_after_prefix in H.
  2: { apply PhAllocate_asks_nothing. }
  destruct H as (pre1 & _ & H).
  apply split_before_suffix in H; [|apply Hclosing].
  destruct H as (post1 & H & ->).
  pose proof (enum_loop_after_mismatch fuel _ _ _ _ _ _ _ H) as (Hover & Hfit).
  rewrite Hah in Hfit.
  rewrite (PhFree_same_heap buf _ m Hah) in Hover, Hfit.
  rewrite Hv. split.
  - intros Hc. destruct (Hover Hc) as (-> & Hr). rewrite Hr in *.
    rewrite Hend, app_nil_r. split; reflexivity.
  - intros Hc. destruct (Hfit Hc Halloc) as (fresh & rest & -> & Hnull & Hfresh).
    exists fresh, (rest ++ closing). split.
    + rewrite <- app_assoc. reflexivity.
    + split.
      * intros Hp. destruct (Hnull Hp) as (-> & Hr). rewrite Hr in *.
        rewrite Hend. split; reflexivity.
      * intros Hp Hr. destruct Hfresh as (st & rest' & ->).
        -- exact Hp.
        -- intros Hn. apply Hr. rewrite Hn. reflexivity.
        -- exists st, (rest' ++ closing). reflexivity.
Qed.

(** *** A system that keeps asking for more *)

Lemma PhCreateHeap_initialBufferSize m :
  initialBufferSize (machine_of (PhCreateHeap os m)) = initialBufferSize m.
Proof.
  destruct (PhCreateHeap os m) as [[st m'] e] eqn:H.
  unfold machine_of; cbn [fst snd].
  unfold PhCreateHeap, pfRtlCreateHeap in H. minv H; reflexivity.
Qed.

Lemma PhAllocate_value n m :
  pf_resolved os pRtlAllocateHeap = true ->
  value_of (PhAllocate os n m)
  = fst (RtlAllocateHeap os (PhHeapHandle m) n (world m)).
Proof.
  intros Hres.
  unfold PhAllocate, pfRtlAllocateHeap, os_call, get_heap, bind, value_of.
  rewrite Hres. cbn [negb].
  destruct (RtlAllocateHeap os (PhHeapHandle m) n (world m)). reflexivity.
Qed.

(** When every query of at most the ceiling is answered with a length
    mismatch and the heap never runs out, the loop can only end at the
    ceiling. *)
Lemma enum_loop_starved fuel :
  PH_LARGE_BUFFER_SIZE < 2 ^ 31 ->
  pf_resolved os pRtlAllocateHeap = true ->
  (forall heap size w,
     0 < size -> fst (RtlAllocateHeap os heap size w) <> NULL) ->
  (forall buf size w,
     size <= PH_LARGE_BUFFER_SIZE ->
     fst (fst (NtQuerySystemInformation os buf size w))
     = STATUS_INFO_LENGTH_MISMATCH) ->
  forall buf size m,
    0 < size <= PH_LARGE_BUFFER_SIZE ->
    value_of (enum_loop os PH_LARGE_BUFFER_SIZE fuel buf size m) = None \/
    value_of (enum_loop os PH_LARGE_BUFFER_SIZE fuel buf size m)
    = Some (EnumReturn STATUS_INSUFFICIENT_RESOURCES).
Proof.
  intros Hceil Hres Halloc Hquery.
  induction fuel as [|fuel IH]; intros buf size m Hsize.
  { left. reflexivity. }
  destruct (NtQuerySystemInformation os buf size (world m))
    as [[st info] w] eqn:Hq.
  pose proof (Hquery buf size (world m) (proj2 Hsize)) as Hst.
  rewrite Hq in Hst. cbn [fst] in Hst. subst st.
  destruct (enum_loop_mismatch fuel buf size m info w Hq) as (Hover & Hfit).
  assert (Hd : ULONG_wrap (size * 2) = size * 2)
    by (unfold ULONG_wrap; apply Z.mod_small; lia).
  destruct (Z.lt_ge_cases PH_LARGE_BUFFER_SIZE (ULONG_wrap (size * 2)))
    as [Hc|Hc].
  - right. rewrite (Hover Hc). reflexivity.
  - destruct (Hfit Hc) as (_ & Hfresh).
    assert (Hp : value_of (PhAllocate os (ULONG_wrap (size * 2))
                             (machine_of (PhFree os buf (set_world w m))))
                 <> NULL).
    { rewrite (PhAllocate_value _ _ Hres). apply Halloc. lia. }
    rewrite (Hfresh Hp). unfold value_of at 1 3. cbn [fst].
    apply IH. lia.
Qed.

Lemma PhEnumHandlesEx_starved fuel m :
  PH_LARGE_BUFFER_SIZE < 2 ^ 31 ->
  (32 <= fuel)%nat ->
  pf_resolved os pNtQuerySystemInformation = true ->
  pf_resolved os pRtlAllocateHeap = true ->
  (forall heap size w,
     0 < size -> fst (RtlAllocateHeap os heap size w) <> NULL) ->
  (forall buf size w,
     size <= PH_LARGE_BUFFER_SIZE ->
     fst (fst (NtQuerySystemInformation os buf size w))
     = STATUS_INFO_LENGTH_MISMATCH) ->
  0 < initialBufferSize m <= PH_LARGE_BUFFER_SIZE ->
  value_of (PhEnumHandlesEx os PH_LARGE_BUFFER_SIZE fuel m)
  = Some (STATUS_INSUFFICIENT_RESOURCES, None).
Proof.
  intros Hceil Hfuel Hres Hra Halloc Hquery Hseed.
  assert (Ha : value_of (PhAllocate os (initialBufferSize m) m) <> NULL).
  { rewrite (PhAllocate_value _ _ Hra). apply Halloc. lia. }
  destruct (PhEnumHandlesEx_unfold fuel m Hres Ha) as (closing & _ & _ & Hv & _).
  pose proof (PhEnumHandlesEx_returns fuel m Hceil) as Hret.
  rewrite Hv in *.
  destruct (enum_loop_starved fuel Hceil Hra Halloc Hquery
              (value_of (PhAllocate os (initialBufferSize m) m))
              (initialBufferSize m)
              (machine_of (PhAllocate os (initialBufferSize m) m)) Hseed)
    as [Hn|Hn]; rewrite Hn in *.
  - exfalso. apply Hret; [lia|exact Hfuel|reflexivity].
  - reflexivity.
Qed.

(** *** A failed capture *)

(** Lines 367-378 by cases: an entry point is missing, the heap cannot
    be created, or the handles are enumerated. *)
Lemma capture_unfold fuel m :
  capture os PH_LARGE_BUFFER_SIZE fuel m
  = let entry :=
      PF_INIT_OR_SET_STATUS os pNtClose
        (PF_INIT_OR_SET_STATUS os pNtDuplicateObject
           (PF_INIT_OR_SET_STATUS os pNtQueryObject STATUS_SUCCESS)) in
    if NT_SUCCESS entry then
      let heap := PhCreateHeap os m in
      if NT_SUCCESS (value_of heap) then
        let enum := PhEnumHandlesEx os PH_LARGE_BUFFER_SIZE fuel
                      (machine_of heap) in
        (value_of enum, machine_of enum, events_of heap ++ events_of enum)
      else (Some (value_of heap, None), machine_of heap, events_of heap ++ [])
    else (Some (entry, None), m, []).
Proof.
  unfold capture. cbv zeta.
  destruct (NT_SUCCESS
              (PF_INIT_OR_SET_STATUS os pNtClose
                 (PF_INIT_OR_SET_STATUS os pNtDuplicateObject
                    (PF_INIT_OR_SET_STATUS os pNtQueryObject STATUS_SUCCESS))))
    eqn:He; unfold bind.
  - destruct (PhCreateHeap os m) as [[s0 m0] e0].
    unfold value_of, machine_of, events_of; cbn [fst snd].
    destruct (NT_SUCCESS s0); [|reflexivity].
    destruct (PhEnumHandlesEx os PH_LARGE_BUFFER_SIZE fuel m0) as [[r m1] e1].
    reflexivity.
  - unfold ret. rewrite He. reflexivity.
Qed.

(** When the snapshot stage ends in failure the search is over before it
    has looked at any record: one warning, the "not identified" line,
    [FALSE]. *)
Lemma capture_failure_ends_the_search fuel HandleName bPartialMatch
    bIgnoreSelf m status snapshot m1 e1 :
  capture os PH_LARGE_BUFFER_SIZE fuel m = (Some (status, snapshot), m1, e1) ->
  NT_SUCCESS status = false ->
  let r := SearchProcess os PH_LARGE_BUFFER_SIZE pid1_indeterminate
             exe1_indeterminate fuel HandleName bPartialMatch bIgnoreSelf m in
  value_of r = Returned false /\
  uprintf_lines (events_of r)
  = [LWarningEnumerate status; LNotIdentified HandleName] /\
  records_read (events_of r) = [].
Proof.
  intros Hc Hs r. subst r.
  pose proof (capture_events fuel m) as Hq. rewrite Hc in Hq.
  unfold events_of in Hq; cbn [fst snd] in Hq.
  apply housekeeping_unobserved in Hq. destruct Hq as (Hq & Hrec & _).
  destruct (SearchProcess os PH_LARGE_BUFFER_SIZE pid1_indeterminate
              exe1_indeterminate fuel HandleName bPartialMatch bIgnoreSelf m)
    as [[r m'] e] eqn:H.
  unfold value_of, events_of; cbn [fst snd].
  unfold SearchProcess in H.
  apply bind_inv in H. destruct H as (a & m0 & e0 & e2 & H1 & H2 & ->).
  rewrite Hc in H1. injection H1 as <- <- <-.
  cbv beta iota in H2. rewrite Hs in H2. cbn [negb] in H2.
  unfold uprintf in H2. minv H2.
  match goal with
  | Ho : out _ _ _ _ _ ?m1 = _ |- _ =>
      pose proof (out_events HandleName false NULL NULL m1)
        as (Ho1 & Ho2 & Ho3 & _);
      rewrite Ho in Ho1, Ho2, Ho3
  end.
  unfold value_of, events_of in *; cbn [fst snd] in *.
  split; [assumption|].
  autorewrite with observe. rewrite Hq, Hrec, Ho2, Ho3. split; reflexivity.
Qed.

(** *** The name query (lines 476-489) *)

(** Split what is known of the events of sub-computations into the
    observations, and compute an observation of a whole trace. *)
Ltac silence :=
  repeat match goal with
  | X : Forall housekeeping_event ?l |- _ =>
      apply housekeeping_unobserved in X;
      destruct X as (? & ? & ? & ? & ? & ? & ? & ? & ?)
  | X : silent ?l |- _ =>
      apply silent_observe in X;
      destruct X as (? & ? & ? & ? & ? & ? & ? & ?)
  end.

Ltac observe :=
  autorewrite with observe;
  cbn [uprintf_lines records_read opens duplications closes queries resolved
       path_lines slot_events flat_map line_of record_of open_of duplicate_of
       close_of query_of resolved_of path_of slot_of app fst snd];
  repeat match goal with
  | X : _ = [] |- _ => rewrite X
  end;
  cbn [app flat_map path_of List.length].

Ltac silent_goal :=
  unfold silent;
  repeat first
    [ assumption
    | apply Forall_nil
    | apply Forall_cons; [exact I|]
    | apply Forall_app; split
    | apply housekeeping_is_silent; assumption ].

Lemma query_name_loop_spec more :
  forall f m,
    let r := query_name_loop os more f m in
    handles_and_rings (snd (value_of r)) = handles_and_rings f /\
    silent (events_of r) /\
    (1 <= List.length (queries (events_of r)) <= S more)%nat /\
    (size_error (fst (value_of r)) = true ->
     List.length (queries (events_of r)) = S more).
Proof.
  induction more as [|more IH]; intros f m r; subst r;
    destruct (query_name_loop os _ f m) as [[[st f'] m'] e] eqn:H;
    unfold value_of, events_of; cbn [fst snd];
    cbn [query_name_loop] in H; unfold pfNtQueryObject, uuprintf in H;
    minv H; heap_facts;
    try match goal with
    | Hr : query_name_loop _ more ?f1 ?m1 = _ |- _ =>
        specialize (IH f1 m1); rewrite Hr in IH;
        unfold value_of, events_of in IH; cbn [fst snd] in IH;
        destruct IH as (I1 & I2 & I3 & I4)
    end;
    (split; [|split; [|split]]);
    try reflexivity; try (silent_goal; fail); silence;
    try (observe; lia); try congruence;
    try (rewrite I1; reflexivity);
    try (intros Hs; observe; rewrite (I4 Hs); reflexivity).
  all: cbn in *; congruence.
Qed.

(** *** One pass through the loop body *)

Lemma PhOpenProcess_events p m : events_of (PhOpenProcess os p m) = [].
Proof.
  destruct (PhOpenProcess os p m) as [[r m'] e] eqn:H.
  unfold events_of; cbn [fst snd].
  unfold PhOpenProcess in H. minv H; reflexivity.
Qed.

Section BodyFacts.

Variable handles : SYSTEM_HANDLE_INFORMATION_EX.
Variable HandleName : string.
Variable wHandleName : list WCHAR.
Variable wHandleNameLen : Z.
Variable bPartialMatch bIgnoreSelf : bool.

Local Abbreviation body :=
  (loop_body os handles HandleName wHandleName wHandleNameLen
     bPartialMatch bIgnoreSelf).
Local Abbreviation gate :=
  (gate_stage os handles HandleName wHandleName wHandleNameLen
     bPartialMatch bIgnoreSelf).
Local Abbreviation opening :=
  (open_stage os HandleName wHandleName wHandleNameLen
     bPartialMatch bIgnoreSelf).
Local Abbreviation duplicating :=
  (dup_stage os HandleName wHandleName wHandleNameLen
     bPartialMatch bIgnoreSelf).
Local Abbreviation typing :=
  (filetype_stage os HandleName wHandleName wHandleNameLen bPartialMatch).
Local Abbreviation naming :=
  (name_stage os HandleName wHandleName wHandleNameLen bPartialMatch).
Local Abbreviation matching :=
  (match_stage os HandleName wHandleName wHandleNameLen bPartialMatch).
Local Abbreviation reporting := (report_stage os HandleName).

(** Take a stage apart, down to the native calls. *)
Ltac stage_inv H :=
  unfold CHECK_FOR_USER_CANCEL,
    pfNtClose, pfNtDuplicateObject, pfGetFileType, pfGetModuleFileNameExU,
    pfGetProcessId, uprintf, uuprintf in H;
  minv H;
  heap_facts;
  repeat match goal with
  | Hq : query_name_loop _ ?more ?f ?m = _ |- _ =>
      let X := fresh "Hquery" in
      pose proof (query_name_loop_spec more f m) as X;
      rewrite Hq in X; unfold value_of, events_of in X;
      cbn [fst snd] in X; destruct X as (? & ? & _ & _);
      clear Hq
  | Ho : PhOpenProcess _ ?p ?m = _ |- _ =>
      let X := fresh "Hopen" in
      pose proof (PhOpenProcess_events p m) as X;
      rewrite Ho in X; unfold events_of in X; cbn [fst snd] in X;
      subst; clear Ho
  end.

(** Rewrite with the tests taken on a path; turn them into
    propositions; split on what a frame still depends on. *)
Ltac use_tests :=
  repeat match goal with
  | X : negb _ = true |- _ => apply negb_true_iff in X
  | X : negb _ = false |- _ => apply negb_false_iff in X
  | X : NT_SUCCESS ?n = true |- _ =>
      lazymatch goal with
      | _ : (n =? STATUS_ACCESS_DENIED) = false |- _ => fail
      | _ => pose proof (success_not_denied n X)
      end
  end;
  repeat match goal with
  | X : ?b = true |- context [?b] => rewrite X
  | X : ?b = false |- context [?b] => rewrite X
  end.

Ltac tests_as_props :=
  repeat match goal with
  | X : negb _ = true |- _ => apply negb_true_iff in X
  | X : negb _ = false |- _ => apply negb_false_iff in X
  | X : (_ =? _) = true |- _ => apply Z.eqb_eq in X
  | X : (_ =? _) = false |- _ => apply Z.eqb_neq in X
  | X : (_ <=? _)%nat = true |- _ => apply Nat.leb_le in X
  | X : (_ <=? _)%nat = false |- _ => apply Nat.leb_gt in X
  end.

Ltac split_frames :=
  repeat match goal with
  | |- context [match ?o with Some _ => _ | None => _ end] =>
      is_var o; destruct o
  | _ : context [match ?o with Some _ => _ | None => _ end] |- _ =>
      is_var o; destruct o
  | |- context [if ?n =? STATUS_ACCESS_DENIED then _ else _] =>
      is_var n; destruct (n =? STATUS_ACCESS_DENIED) eqn:?
  end.

(** Use what a name query keeps of the frame. *)
Ltac kept_fields :=
  repeat match goal with
  | X : (_, _) = (_, _) |- _ => injection X as X ?
  end;
  repeat match goal with
  | X : ?proj ?g = _ |- _ => is_var g; rewrite X in *
  end.

(** Simplify the frames met on a path. *)
Ltac frames :=
  cbn [buffer bufferSize name dupHandle processHandle bFound pid cur_pid
       last_access_denied_pid exe cur_exe set_buffer set_bufferSize set_name
       set_dupHandle set_processHandle set_bFound set_pid set_cur_pid
       set_last_access_denied_pid set_exe set_cur_exe handles_and_rings
       fst snd] in *.

Ltac leaf :=
  frames; split_frames; frames; unfold handles_and_rings in *; kept_fields;
  silence; use_tests.

(** Lines 421-432. *)
Lemma track_pid_summary i h f m :
  let r := track_pid os i h f m in
  let f' := value_of r in
  let e := events_of r in
  let p := UniqueProcessId h in
  let changed := negb (fst (upd2 (pid f) (cur_pid f) p)
                       =? snd (upd2 (pid f) (cur_pid f) p)) in
  records_read e = [i] /\ opens e = [] /\
  resolved e = [] /\ path_lines e = [] /\
  slot_events e
  = (if changed && negb (processHandle f =? NULL)
        && negb (processHandle f =? NtCurrentProcess)
     then [inl (processHandle f)] else []) /\
  f' = set_processHandle (if changed then NULL else processHandle f)
         (set_cur_pid (if changed then (cur_pid f + 1) mod 2 else cur_pid f)
            (set_pid (upd2 (pid f) (cur_pid f) p) f)).
Proof.
  intros r f' e p changed. subst r f' e p changed.
  destruct (track_pid os i h f m) as [[f' m'] e] eqn:H.
  unfold value_of, events_of; cbn [fst snd].
  unfold track_pid in H. stage_inv H; frames;
    repeat match goal with
    | X : ?b = _ |- context [?b] => rewrite X
    end;
    cbn [negb andb]; repeat split; try (observe; reflexivity).
  all: try (destruct f; reflexivity).
  apply negb_false_iff, Z.eqb_eq in Hif0.
  destruct f; cbn in *; subst; reflexivity.
Qed.

(** Lines 508-522. *)
Lemma report_stage_post f m c f' m' e :
  reporting f m = ((c, f'), m', e) -> c = Continue /\ tail_post f f' e.
Proof.
  intros H. unfold report_stage in H. stage_inv H; leaf.
  all: split; [reflexivity|].
  all: unfold tail_post; repeat (split; [observe; reflexivity|]).
  all: unfold report_post; frames.
  all: try (left; repeat split; observe; reflexivity).
  all: right; eexists; (split; [observe; reflexivity|]);
       (split; [reflexivity|]); use_tests; split; observe; reflexivity.
Qed.

Lemma tail_post_skip f f' e :
  unobserved e -> same_slots f' f -> tail_post f f' e.
Proof.
  intros (E1 & E2 & E3 & E4 & E5) (S1 & S2 & S3 & S4 & S5 & S6).
  unfold tail_post, report_post. repeat (split; [assumption|]).
  left. repeat split; assumption.
Qed.

Lemma tail_post_prefix f1 f f' e0 e :
  unobserved e0 -> same_slots f1 f ->
  tail_post f1 f' e -> tail_post f f' (e0 ++ e).
Proof.
  intros (E1 & E2 & E3 & E4 & E5) (S1 & S2 & S3 & S4 & S5 & S6).
  unfold tail_post, report_post.
  intros (T1 & T2 & T3 & T4 & T5 & T6 & T7 & T8).
  autorewrite with observe.
  rewrite E1, E2, E3, E4, E5, T1, T2, T3, T4, T5, T6, T7, S1, S2, S3, S4.
  cbn [app]. rewrite <- S5, <- S6. repeat (split; [reflexivity|]).
  exact T8.
Qed.

Lemma report_post_prefix f1 f f' e0 e :
  resolved e0 = [] -> path_lines e0 = [] ->
  exe f1 = exe f -> cur_exe f1 = cur_exe f ->
  report_post f1 f' e -> report_post f f' (e0 ++ e).
Proof.
  intros E4 E5 S1 S2. unfold report_post.
  autorewrite with observe. rewrite E4, E5, S1, S2. cbn [app]. tauto.
Qed.

Ltac unobserved_goal := unfold unobserved; repeat split; observe; reflexivity.
Ltac same_slots_goal :=
  unfold same_slots; frames; repeat split; congruence.

(** Close a path of a stage of lines 460-506: it ends here, or it goes on
    into the stage [lemma] speaks of. *)
Ltac tail_leaf lemma :=
  leaf;
  first
    [ match goal with
      | Hs : _ = (?c, ?f', ?m', ?e) |- _ /\ tail_post _ ?f' (_ ++ ?e) =>
          apply lemma in Hs; destruct Hs as (Hc & Ht);
          split; [exact Hc|];
          eapply tail_post_prefix; [| |exact Ht];
          [unobserved_goal | same_slots_goal]
      end
    | match goal with
      | Hs : _ = (?c, ?f', ?m', ?e) |- _ /\ tail_post _ ?f' ?e =>
          apply lemma in Hs; destruct Hs as (Hc & Ht);
          split; [exact Hc|];
          eapply (tail_post_prefix _ _ _ [] e); [| |exact Ht];
          [unobserved_goal | same_slots_goal]
      end
    | split; [auto|];
      apply tail_post_skip; [unobserved_goal | same_slots_goal] ].

(** Lines 496-506. *)
Lemma match_stage_post f m c f' m' e :
  matching f m = ((c, f'), m', e) ->
  (c = Continue \/ c = Crash) /\ tail_post f f' e.
Proof.
  intros H. unfold match_stage in H. stage_inv H; leaf.
  - split; [auto|]. apply tail_post_skip; [unobserved_goal|same_slots_goal].
  - apply report_stage_post in H. destruct H as (-> & Ht). auto.
  - split; [auto|]. apply tail_post_skip; [unobserved_goal|same_slots_goal].
Qed.

(** Lines 476-506. *)
Lemma name_stage_post h f m c f' m' e :
  naming h f m = ((c, f'), m', e) ->
  (c = Continue \/ c = Crash) /\ tail_post f f' e.
Proof.
  intros H. unfold name_stage in H. stage_inv H; tail_leaf match_stage_post.
Qed.

(** Lines 472-506. *)
Lemma filetype_stage_post h f m c f' m' e :
  typing h f m = ((c, f'), m', e) ->
  (c = Continue \/ c = Crash) /\ tail_post f f' e.
Proof.
  intros H. unfold filetype_stage in H.
  stage_inv H; tail_leaf name_stage_post.
Qed.

(** Lines 460-506. *)
Lemma dup_stage_post i h f m c f' m' e :
  duplicating i h f m = ((c, f'), m', e) ->
  (c = Continue \/ c = Crash) /\ tail_post f f' e.
Proof.
  intros H. unfold dup_stage in H.
  stage_inv H; tail_leaf filetype_stage_post.
Qed.

(** Lines 444-506. *)
Lemma open_stage_post N i h f m c f' m' e :
  opening i h f m = ((c, f'), m', e) ->
  UniqueProcessId h <> last_access_denied_pid f -> (i < N)%nat ->
  c <> Break /\ gate_post N i h f c f' e.
Proof.
  intros H Hmemo Hi. unfold open_stage in H. stage_inv H; leaf.
  all: try match goal with
       | Hs : duplicating _ _ _ _ = _ |- _ =>
           apply dup_stage_post in Hs;
           destruct Hs as (Hc & T1 & T2 & T3 & T4 & T5 & T6 & T7 & T8);
           frames
       end.
  all: (split; [first [discriminate | destruct Hc; subst; discriminate]|]).
  all: unfold gate_post; frames.
  all: (split; [observe; reflexivity|]).
  all: (split; [first [discriminate | intros ->; destruct Hc; discriminate]|]).
  all: (split; [congruence|]); (split; [congruence|]).
  all: split;
       [ first
           [ left; repeat split; first [observe; reflexivity | congruence]
           | right; do 2 eexists;
             (split; [observe; reflexivity|]);
             (split; [observe; reflexivity|]);
             use_tests; cbn [negb];
             repeat split; try assumption; try congruence;
             tests_as_props; first [assumption | congruence] ]
       | first
           [ exact T8
           | left; repeat split; observe; reflexivity
           | eapply report_post_prefix; [| | | |exact T8];
             [observe; reflexivity | observe; reflexivity
             | reflexivity | reflexivity] ] ].
Qed.

(** Lines 434-506. *)
Lemma gate_stage_post i h f m c f' m' e :
  gate i h f m = ((c, f'), m', e) ->
  gate_post (NumberOfHandles handles) i h f c f' e.
Proof.
  intros H. unfold gate_stage in H. stage_inv H; leaf; tests_as_props.
  all: try match goal with
       | Hs : opening _ _ _ _ = _ |- _ =>
           eapply open_stage_post in Hs; [|eassumption|eassumption];
           destruct Hs as (_ & Hs); exact Hs
       end.
  all: unfold gate_post, report_post; frames;
       (split; [reflexivity|]);
       (split; [first [discriminate | intros _; assumption]|]);
       (split; [reflexivity|]); (split; [reflexivity|]);
       split; left; repeat split; reflexivity.
Qed.

(** Lines 410-413. *)
Lemma close_dup_post f m f' m' e :
  close_dup os f m = (f', m', e) ->
  crash_post f e /\ same_slots f' f.
Proof.
  intros H. unfold close_dup in H. stage_inv H; unfold crash_post, dup_closed.
  - rewrite Hif. repeat split.
  - rewrite Hif. repeat split.
Qed.

Local Abbreviation looping :=
  (search_loop os handles HandleName wHandleName wHandleNameLen
     bPartialMatch bIgnoreSelf).

(** One pass of the loop on a record. *)
Lemma iteration_spec i h f m f0 m0 e0 c f' m' e1 :
  close_dup os f m = (f0, m0, e0) ->
  body i h f0 m0 = ((c, f'), m', e1) ->
  iteration_post (NumberOfHandles handles) i h f c f' (e0 ++ e1).
Proof.
  intros Hd Hb. apply close_dup_post in Hd.
  destruct Hd as ((D1 & D2 & D3 & D4 & D5) & (S1 & S2 & S3 & S4 & S5 & S6)).
  unfold loop_body in Hb. apply bind_inv in Hb.
  destruct Hb as (f1 & m1 & e2 & e3 & Ht & Hg & ->).
  pose proof (track_pid_summary i h f0 m0) as T. rewrite Ht in T.
  unfold value_of, events_of in T; cbn [fst snd] in T.
  destruct T as (T1 & T2 & T3 & T4 & T5 & ->).
  apply gate_stage_post in Hg. unfold gate_post in Hg. frames.
  destruct Hg as (G1 & G2 & G3 & G4 & G5 & G6).
  unfold iteration_post, pid_changed, process_closed, pid_changed.
  rewrite S1, S2, S4 in *.
  split; [observe; rewrite ?D1, ?T1, ?G1; reflexivity|].
  split; [exact G2|]. split; [exact G3|]. split; [exact G4|].
  split.
  - destruct G5 as [(O1 & O2 & O3 & O4) | (st & out & O1 & O2 & O3 & O4 & O5 & O6 & O7)].
    + left. observe. rewrite ?D2, ?D3, ?T2, ?T5, ?O1, ?O2, ?O3, ?O4, ?S3.
      rewrite ?app_nil_r. repeat split; reflexivity.
    + right. exists st, out. observe.
      rewrite ?D2, ?D3, ?T2, ?T5, ?O1, ?O2, ?O6, ?O7, ?S3.
      assert (Hch : negb (fst (upd2 (pid f) (cur_pid f) (UniqueProcessId h))
                          =? snd (upd2 (pid f) (cur_pid f) (UniqueProcessId h)))
                    = true)
        by (apply negb_true_iff, Z.eqb_neq; exact O3).
      rewrite Hch in *. repeat split; try assumption; try reflexivity.
      rewrite <- S3. exact O4.
  - eapply report_post_prefix; [exact D4 | exact D5 | exact S5 | exact S6 |].
    eapply report_post_prefix; [exact T3 | exact T4 | | | exact G6];
      reflexivity.
Qed.


(** One pass of the loop, as [search_loop] runs it. *)
Lemma search_loop_inv slots i f m c f' m' e :
  looping slots i f m = ((c, f'), m', e) ->
  match slots with
  | [] => c = Crash /\ crash_post f e /\ same_slots f' f
  | h :: rest =>
      exists c1 f1 e1,
        iteration_post (NumberOfHandles handles) i h f c1 f1 e1 /\
        ((c1 <> Continue /\ c = c1 /\ f' = f1 /\ e = e1) \/
         (c1 = Continue /\
          exists m1 e2,
            looping rest (S i) f1 m1 = ((c, f'), m', e2) /\ e = e1 ++ e2))
  end.
Proof.
  intros H. destruct slots as [|h rest]; cbn [search_loop] in H;
    apply bind_inv in H; destruct H as (f0 & m0 & e0 & e1 & Hd & H & ->).
  - apply ret_inv in H. destruct H as (Hv & _ & ->). injection Hv as -> ->.
    rewrite app_nil_r. apply close_dup_post in Hd. tauto.
  - apply bind_inv in H. destruct H as ([c1 f1] & m1 & e2 & e3 & Hb & H & ->).
    pose proof (iteration_spec _ _ _ _ _ _ _ _ _ _ _ Hd Hb) as Hit.
    exists c1, f1, (e0 ++ e2). split; [exact Hit|].
    destruct c1; cbv beta iota in H.
    + right. split; [reflexivity|]. exists m1, e3. split; [exact H|].
      rewrite app_assoc. reflexivity.
    + left. apply ret_inv in H. destruct H as (Hv & _ & ->).
      injection Hv as -> ->. rewrite app_nil_r.
      repeat split; discriminate.
    + left. apply ret_inv in H. destruct H as (Hv & _ & ->).
      injection Hv as -> ->. rewrite app_nil_r.
      repeat split; discriminate.
    + left. apply ret_inv in H. destruct H as (Hv & _ & ->).
      injection Hv as -> ->. rewrite app_nil_r.
      repeat split; discriminate.
Qed.

(** *** The loop *)

(** The access-denied memo over the whole loop. *)
Lemma search_loop_memo slots :
  forall i f m c f' m' e,
    looping slots i f m = ((c, f'), m', e) ->
    memo_respected (last_access_denied_pid f) (opens e) /\
    last_access_denied_pid f' = memo_after (last_access_denied_pid f) (opens e).
Proof.
  induction slots as [|h rest IH]; intros i f m c f' m' e H;
    apply search_loop_inv in H.
  - destruct H as (_ & (_ & O & _) & (_ & _ & S3 & _)).
    rewrite O. cbn. auto.
  - destruct H as (c1 & f1 & e1 & Hit & Hrest).
    destruct Hit as (_ & _ & _ & _ & Hopen & _).
    assert (Hone : memo_respected (last_access_denied_pid f) (opens e1) /\
                   last_access_denied_pid f1
                   = memo_after (last_access_denied_pid f) (opens e1)).
    { destruct Hopen as [(O1 & _ & O3 & _)
                        | (st & out & O1 & _ & _ & O4 & _ & O6 & _)];
        rewrite O1; cbn; auto. }
    destruct Hone as (Hr & Ha).
    destruct Hrest as [(_ & -> & -> & ->) | (_ & m1 & e2 & Hl & ->)];
      [auto|].
    apply IH in Hl. destruct Hl as (Hr2 & Ha2).
    rewrite opens_app, memo_respected_app, memo_after_app, <- Ha. auto.
Qed.

Lemma dup_closed_tracks held f :
  slot_tracks held f ->
  slot_free held (dup_closed f) /\
  slot_tracks (held_after held (dup_closed f)) f.
Proof.
  intros Ht. unfold dup_closed.
  destruct (negb (dupHandle f =? NULL)
            && negb (processHandle f =? NtCurrentProcess)); cbn;
    [|auto].
  split; [exact I|].
  destruct Ht as [->|(-> & Hn & Hs)]; [left; reflexivity|].
  destruct (processHandle f =? dupHandle f); [left; reflexivity|].
  right. auto.
Qed.

Lemma process_closed_tracks held f p :
  slot_tracks held f ->
  slot_free held (process_closed f p) /\
  (pid_changed f p = true -> held_after held (process_closed f p) = None) /\
  (pid_changed f p = false -> held_after held (process_closed f p) = held).
Proof.
  intros Ht. unfold process_closed.
  destruct (pid_changed f p); cbn [andb].
  - destruct (negb (processHandle f =? NULL)
              && negb (processHandle f =? NtCurrentProcess)) eqn:E; cbn.
    + split; [exact I|]. split; [|discriminate]. intros _.
      destruct Ht as [->|(-> & _)]; [reflexivity|].
      rewrite Z.eqb_refl. reflexivity.
    + split; [exact I|]. split; [|discriminate]. intros _.
      destruct Ht as [->|(-> & Hn & Hs)]; [reflexivity|].
      apply Z.eqb_neq in Hn, Hs. rewrite Hn, Hs in E. discriminate.
  - cbn. split; [exact I|]. split; [discriminate|reflexivity].
Qed.

Lemma holding_tracks st out f :
  processHandle f
  = (if NT_SUCCESS st then match out with Some x => x | None => NULL end
     else NULL) ->
  slot_tracks (holding st out) f.
Proof.
  intros Hp. unfold holding, slot_tracks.
  destruct (NT_SUCCESS st); [|auto].
  destruct out as [x|]; [|auto].
  destruct ((x =? NULL) || (x =? NtCurrentProcess)) eqn:E; [auto|].
  apply orb_false_iff in E. destruct E as (E1 & E2).
  apply Z.eqb_neq in E1, E2. right. rewrite Hp. auto.
Qed.

Lemma iteration_slot N i h f c f' e held :
  iteration_post N i h f c f' e ->
  slot_tracks held f ->
  slot_free held (slot_events e) /\
  slot_tracks (held_after held (slot_events e)) f'.
Proof.
  intros (_ & _ & _ & _ & Hopen & _) Ht.
  destruct (dup_closed_tracks _ _ Ht) as (D1 & D2).
  destruct (process_closed_tracks _ _ (UniqueProcessId h) D2) as (P1 & P2 & P3).
  destruct Hopen as [(_ & O2 & _ & O4)
                    | (st & out & _ & O2 & O3 & _ & _ & _ & O7)];
    rewrite O2.
  - rewrite slot_free_app, held_after_app. split; [auto|].
    destruct (pid_changed f (UniqueProcessId h)).
    + rewrite P2 by reflexivity. left. reflexivity.
    + rewrite P3 by reflexivity.
      destruct D2 as [->|(-> & Hn & Hs)]; [left; reflexivity|].
      right. rewrite O4. auto.
  - rewrite !slot_free_app, !held_after_app. rewrite (P2 O3). cbn.
    split; [auto|]. apply holding_tracks. exact O7.
Qed.

Lemma search_loop_slot slots :
  forall i f m c f' m' e held,
    looping slots i f m = ((c, f'), m', e) ->
    slot_tracks held f ->
    slot_free held (slot_events e).
Proof.
  induction slots as [|h rest IH]; intros i f m c f' m' e held H Ht;
    apply search_loop_inv in H.
  - destruct H as (_ & (_ & _ & O & _) & _). rewrite O.
    apply dup_closed_tracks. exact Ht.
  - destruct H as (c1 & f1 & e1 & Hit & Hrest).
    destruct (iteration_slot _ _ _ _ _ _ _ held Hit Ht) as (S1 & S2).
    destruct Hrest as [(_ & -> & -> & ->) | (_ & m1 & e2 & Hl & ->)];
      [exact S1|].
    rewrite slot_events_app, slot_free_app. split; [exact S1|].
    exact (IH _ _ _ _ _ _ _ _ Hl S2).
Qed.

(** The two pid slots over one pass. *)
Lemma iteration_runs N i h f c f' e :
  iteration_post N i h f c f' e ->
  cur_pid f = 0 \/ cur_pid f = 1 ->
  (opens e = [] \/
   exists st, opens e = [(i, UniqueProcessId h, st)] /\
              UniqueProcessId h <> prev_pid f) /\
  prev_pid f' = UniqueProcessId h /\
  (cur_pid f' = 0 \/ cur_pid f' = 1).
Proof.
  intros (_ & _ & Hpid & Hcur & Hopen & _) Hc.
  unfold prev_pid, pid_changed in *. rewrite Hpid, Hcur.
  assert (Hch : negb (fst (upd2 (pid f) (cur_pid f) (UniqueProcessId h))
                      =? snd (upd2 (pid f) (cur_pid f) (UniqueProcessId h)))
                = true ->
                UniqueProcessId h <> idx2 (pid f) (1 - cur_pid f)).
  { intros E. apply negb_true_iff, Z.eqb_neq in E.
    destruct Hc as [Hc|Hc]; rewrite Hc in *; cbn in *; congruence. }
  split; [|split].
  - destruct Hopen as [(O1 & _) | (st & out & O1 & _ & O3 & _)];
      [left; exact O1|].
    right. exists st. split; [exact O1|]. apply Hch. exact O3.
  - destruct (negb _) eqn:E.
    + destruct Hc as [Hc|Hc]; rewrite Hc; reflexivity.
    + apply negb_false_iff, Z.eqb_eq in E.
      destruct Hc as [Hc|Hc]; rewrite Hc in *; cbn in *; congruence.
  - destruct (negb _); [|exact Hc].
    destruct Hc as [Hc|Hc]; rewrite Hc; [right|left]; reflexivity.
Qed.

(** Calls of [PhOpenProcess] over the whole loop happen where the
    process id changes. *)
Lemma search_loop_runs slots :
  forall i f m c f' m' e,
    looping slots i f m = ((c, f'), m', e) ->
    cur_pid f = 0 \/ cur_pid f = 1 ->
    opens_follow_runs (prev_pid f) i (map UniqueProcessId slots) (opens e).
Proof.
  induction slots as [|h rest IH]; intros i f m c f' m' e H Hc;
    apply search_loop_inv in H.
  - destruct H as (_ & (_ & O & _) & _). rewrite O. reflexivity.
  - destruct H as (c1 & f1 & e1 & Hit & Hrest).
    destruct (iteration_runs _ _ _ _ _ _ _ Hit Hc) as (Hopen & Hprev & Hc1).
    assert (Hrec : exists e2,
               opens e = opens e1 ++ opens e2 /\
               opens_follow_runs (UniqueProcessId h) (S i)
                 (map UniqueProcessId rest) (opens e2)).
    { destruct Hrest as [(_ & -> & -> & ->) | (_ & m1 & e2 & Hl & ->)].
      - exists []. rewrite app_nil_r. split; [reflexivity|].
        apply opens_follow_runs_nil.
      - exists e2. split; [apply opens_app|].
        rewrite <- Hprev. exact (IH _ _ _ _ _ _ _ Hl Hc1). }
    destruct Hrec as (e2 & -> & Hfollow).
    cbn [map opens_follow_runs].
    destruct Hopen as [-> | (st & -> & Hne)]; cbn [app].
    + destruct (opens e2) as [|[[k q] st] ops]; [exact I|].
      right. exact Hfollow.
    + left. auto.
Qed.

(** The two path slots over one report. *)
Lemma report_post_dedup f f' e :
  report_post f f' e ->
  cur_exe f = 0 \/ cur_exe f = 1 ->
  path_lines e = dedup (last_reported f) (resolved e) /\
  last_reported f' = reported_after (last_reported f) (resolved e) /\
  (cur_exe f' = 0 \/ cur_exe f' = 1).
Proof.
  intros [(R1 & R2 & R3 & R4) | (path & R1 & R2 & R3 & R4)] Hc;
    unfold last_reported.
  - rewrite R1, R2, R3, R4. cbn. auto.
  - rewrite R1, R3, R4, R2. cbn [dedup reported_after]. unfold strcmp_ne.
    destruct Hc as [Hc|Hc]; rewrite Hc; cbn -[string_dec].
    + destruct (string_dec path (snd (exe f))) as [E|E];
        cbn -[string_dec]; auto.
    + destruct (string_dec (fst (exe f)) path) as [E|E];
        destruct (string_dec path (fst (exe f))) as [E'|E'];
        cbn -[string_dec]; auto; congruence.
Qed.

(** The report lines of the whole loop. *)
Lemma search_loop_dedup slots :
  forall i f m c f' m' e,
    looping slots i f m = ((c, f'), m', e) ->
    cur_exe f = 0 \/ cur_exe f = 1 ->
    path_lines e = dedup (last_reported f) (resolved e).
Proof.
  induction slots as [|h rest IH]; intros i f m c f' m' e H Hc;
    apply search_loop_inv in H.
  - destruct H as (_ & (_ & _ & _ & O4 & O5) & _). rewrite O4, O5.
    reflexivity.
  - destruct H as (c1 & f1 & e1 & Hit & Hrest).
    destruct Hit as (_ & _ & _ & _ & _ & Hrep).
    destruct (report_post_dedup _ _ _ Hrep Hc) as (D1 & D2 & D3).
    destruct Hrest as [(_ & -> & -> & ->) | (_ & m1 & e2 & Hl & ->)];
      [exact D1|].
    rewrite path_lines_app, resolved_app, dedup_app, D1, <- D2.
    rewrite (IH _ _ _ _ _ _ _ Hl D3). reflexivity.
Qed.

(** The loop ends through the exit test only at an index that is not
    below the declared count, having read the record there. *)
Lemma search_loop_break slots :
  forall i f m f' m' e,
    looping slots i f m = ((Break, f'), m', e) ->
    exists k, (NumberOfHandles handles <= k)%nat /\ In k (records_read e).
Proof.
  induction slots as [|h rest IH]; intros i f m f' m' e H;
    apply search_loop_inv in H.
  - destruct H as (Hc & _). discriminate.
  - destruct H as (c1 & f1 & e1 & Hit & Hrest).
    destruct Hit as (R & Hb & _).
    destruct Hrest as [(_ & <- & -> & ->) | (_ & m1 & e2 & Hl & ->)].
    + exists i. split; [apply Hb; reflexivity|]. rewrite R. left. reflexivity.
    + apply IH in Hl. destruct Hl as (k & Hk & Hin). exists k.
      split; [exact Hk|]. rewrite records_read_app. apply in_or_app. auto.
Qed.

(** *** A pass whose name query fails *)

(** The last [NtQueryObject] of a name query is the one whose status the
    query ends with. *)
Lemma query_name_loop_last more :
  forall f m,
    exists earlier size,
      queries (events_of (query_name_loop os more f m))
      = earlier ++ [(fst (value_of (query_name_loop os more f m)), size)].
Proof.
  induction more as [|more IH]; intros f m;
    destruct (query_name_loop os _ f m) as [[[st f'] m'] e] eqn:H;
    unfold value_of, events_of; cbn [fst snd];
    cbn [query_name_loop] in H; unfold pfNtQueryObject, uuprintf in H;
    minv H; heap_facts; silence;
    try match goal with
    | Hr : query_name_loop _ more ?f1 ?m1 = _ |- _ =>
        destruct (IH f1 m1) as (earlier & size & I); rewrite Hr in I;
        unfold value_of, events_of in I; cbn [fst snd] in I
    end.
  all: observe.
  all: try (rewrite I; eexists (_ :: _); eexists; reflexivity).
  all: eexists []; eexists; reflexivity.
Qed.

Lemma report_stage_asks_nothing f m r m' e :
  reporting f m = (r, m', e) -> queries e = [].
Proof.
  intros H. unfold report_stage in H. stage_inv H; observe; reflexivity.
Qed.

Lemma match_stage_asks_nothing f m r m' e :
  matching f m = (r, m', e) -> queries e = [].
Proof.
  intros H. unfold match_stage in H. stage_inv H; try reflexivity.
  eapply report_stage_asks_nothing. eassumption.
Qed.

(** A pass in which the last name query was answered with [st] and
    [size], a failure: it ends with [continue], has printed nothing and
    has left [bFound] as it was. *)
Local Abbreviation skipped f c f' e :=
  (forall earlier st size,
     queries e = earlier ++ [(st, size)] -> NT_SUCCESS st = false ->
     c = Continue /\ uprintf_lines e = [] /\ bFound f' = bFound f).

Ltac no_query :=
  let Hq := fresh "Hq" in
  intros ? ? ? Hq; exfalso; revert Hq; observe;
  let earlier := fresh in
  intros Hq;
  match type of Hq with
  | [] = ?l ++ _ => destruct l; discriminate Hq
  end.

Lemma name_stage_skipped h f m c f' m' e :
  naming h f m = ((c, f'), m', e) -> skipped f c f' e.
Proof.
  intros H. unfold name_stage in H. apply bind_inv in H.
  destruct H as ([st0 f1] & m1 & e1 & e2 & Hq & H & ->).
  destruct (query_name_loop_last (attempts - 1) f m) as (earlier0 & size0 & Hl).
  pose proof (query_name_loop_spec (attempts - 1) f m) as (Hk & Hsil & _).
  rewrite Hq in Hl, Hk, Hsil.
  unfold value_of, events_of in *; cbn [fst snd] in *.
  apply silent_observe in Hsil. destruct Hsil as (Hlines & _).
  assert (Hb : bFound f1 = bFound f)
    by (unfold handles_and_rings in Hk; congruence).
  intros earlier st size Hqs Hs.
  destruct (NT_SUCCESS st0) eqn:Hs0; cbn [negb] in H.
  - exfalso. apply match_stage_asks_nothing in H.
    rewrite queries_app, H, app_nil_r, Hl in Hqs.
    apply app_inj_tail in Hqs. destruct Hqs as (_ & Hp).
    injection Hp as -> _. congruence.
  - unfold uuprintf in H. minv H.
    rewrite uprintf_lines_app, Hlines. repeat split. exact Hb.
Qed.

Ltac into_stage lemma :=
  match goal with
  | Hs : _ = (?c, ?f', ?m', ?e) |- _ =>
      let X := fresh "Hstage" in
      first [ pose proof (lemma _ _ _ _ _ _ _ Hs) as X
            | pose proof (lemma _ _ _ _ _ _ _ _ Hs) as X ];
      let Hq := fresh "Hq" in
      let Hf := fresh "Hf" in
      let Hl := fresh "Hl" in
      let Hb := fresh "Hb" in
      intros ? ? ? Hq Hf; revert Hq; observe; intros Hq;
      destruct (X _ _ _ Hq Hf) as (-> & Hl & Hb);
      frames; repeat split;
      first [assumption | observe; first [assumption | reflexivity]]
  end.

Lemma filetype_stage_skipped h f m c f' m' e :
  typing h f m = ((c, f'), m', e) -> skipped f c f' e.
Proof.
  intros H. unfold filetype_stage in H. stage_inv H.
  - no_query.
  - into_stage name_stage_skipped.
Qed.

Lemma dup_stage_skipped i h f m c f' m' e :
  duplicating i h f m = ((c, f'), m', e) -> skipped f c f' e.
Proof.
  intros H. unfold dup_stage in H. stage_inv H; split_frames;
    first [no_query | into_stage filetype_stage_skipped].
Qed.

Lemma open_stage_skipped i h f m c f' m' e :
  opening i h f m = ((c, f'), m', e) -> skipped f c f' e.
Proof.
  intros H. unfold open_stage in H. stage_inv H; split_frames;
    first [no_query | into_stage dup_stage_skipped].
Qed.

Lemma gate_stage_skipped i h f m c f' m' e :
  gate i h f m = ((c, f'), m', e) -> skipped f c f' e.
Proof.
  intros H. unfold gate_stage in H. stage_inv H;
    first [no_query | into_stage open_stage_skipped].
Qed.

(** A pass of the body whose last name query failed ends with
    [continue], has printed nothing and has left [bFound] alone. *)
Lemma loop_body_skipped i h f m c f' m' e :
  body i h f m = ((c, f'), m', e) -> skipped f c f' e.
Proof.
  intros H. unfold loop_body in H. apply bind_inv in H.
  destruct H as (f1 & m1 & e1 & e2 & Ht & Hg & ->).
  pose proof (track_pid_summary i h f m) as T. rewrite Ht in T.
  unfold value_of, events_of in T; cbn [fst snd] in T.
  destruct T as (_ & _ & _ & _ & _ & ->).
  pose proof (gate_stage_skipped _ _ _ _ _ _ _ _ Hg) as Hskip.
  assert (Hquiet : queries e1 = [] /\ uprintf_lines e1 = []).
  { unfold track_pid in Ht. stage_inv Ht; split; observe; reflexivity. }
  destruct Hquiet as (Q1 & Q2).
  intros earlier st size Hq Hs.
  rewrite queries_app, Q1 in Hq. cbn [app] in Hq.
  destruct (Hskip earlier st size Hq Hs) as (-> & Hl & Hb).
  rewrite uprintf_lines_app, Q2, Hl. frames. rewrite Hb.
  repeat split.
Qed.

(** The queries of a pass are those of its one name query, if it has
    one. *)
Local Abbreviation asked e :=
  (queries e = [] \/
   exists f0 m0,
     queries e = queries (events_of (query_name_loop os (attempts - 1) f0 m0))).

Ltac asks_nothing := left; observe; reflexivity.

Ltac asks_later lemma :=
  match goal with
  | Hs : _ = (?c, ?f', ?m', ?e) |- _ =>
      let X := fresh "Hstage" in
      first [ pose proof (lemma _ _ _ _ _ _ _ Hs) as X
            | pose proof (lemma _ _ _ _ _ _ _ _ Hs) as X ];
      observe; exact X
  end.

Lemma name_stage_asked h f m c f' m' e :
  naming h f m = ((c, f'), m', e) -> asked e.
Proof.
  intros H. unfold name_stage in H. apply bind_inv in H.
  destruct H as ([st0 f1] & m1 & e1 & e2 & Hq & H & ->).
  right. exists f, m. rewrite Hq. unfold events_of; cbn [snd].
  rewrite queries_app.
  destruct (NT_SUCCESS st0); cbn [negb] in H.
  - apply match_stage_asks_nothing in H. rewrite H, app_nil_r. reflexivity.
  - unfold uuprintf in H. minv H. rewrite app_nil_r. reflexivity.
Qed.

Lemma filetype_stage_asked h f m c f' m' e :
  typing h f m = ((c, f'), m', e) -> asked e.
Proof.
  intros H. unfold filetype_stage in H. stage_inv H;
    first [asks_nothing | asks_later name_stage_asked].
Qed.

Lemma dup_stage_asked i h f m c f' m' e :
  duplicating i h f m = ((c, f'), m', e) -> asked e.
Proof.
  intros H. unfold dup_stage in H. stage_inv H;
    first [asks_nothing | asks_later filetype_stage_asked].
Qed.

Lemma open_stage_asked i h f m c f' m' e :
  opening i h f m = ((c, f'), m', e) -> asked e.
Proof.
  intros H. unfold open_stage in H. stage_inv H;
    first [asks_nothing | asks_later dup_stage_asked].
Qed.

Lemma gate_stage_asked i h f m c f' m' e :
  gate i h f m = ((c, f'), m', e) -> asked e.
Proof.
  intros H. unfold gate_stage in H. stage_inv H;
    first [asks_nothing | asks_later open_stage_asked].
Qed.

(** A pass of the body asks [NtQueryObject] at most 8 times. *)
Lemma loop_body_asks_eight_times i h f m r m' e :
  body i h f m = (r, m', e) -> (List.length (queries e) <= 8)%nat.
Proof.
  intros H. unfold loop_body in H. apply bind_inv in H.
  destruct H as (f1 & m1 & e1 & e2 & Ht & Hg & ->).
  assert (Q1 : queries e1 = []).
  { unfold track_pid in Ht. stage_inv Ht; observe; reflexivity. }
  destruct r as [c f'].
  pose proof (gate_stage_asked _ _ _ _ _ _ _ _ Hg) as [Hn|(f0 & m0 & Hn)];
    rewrite queries_app, Q1, Hn; cbn [app List.length]; [lia|].
  pose proof (query_name_loop_spec (attempts - 1) f0 m0) as (_ & _ & Hb & _).
  change (S (attempts - 1)) with 8%nat in Hb. lia.
Qed.

End BodyFacts.









(** *** The whole search *)

(** What the observers see of a search is what they see of its loop, if
    it gets that far. *)
Lemma SearchProcess_loop fuel HandleName bPartialMatch bIgnoreSelf m :
  let r := SearchProcess os PH_LARGE_BUFFER_SIZE pid1_indeterminate
             exe1_indeterminate fuel HandleName bPartialMatch bIgnoreSelf m in
  (opens (events_of r) = [] /\ slot_events (events_of r) = [] /\
   resolved (events_of r) = [] /\ path_lines (events_of r) = []) \/
  (exists status ptr handles m0 e0 buffer0 m1,
     capture os PH_LARGE_BUFFER_SIZE fuel m
     = (Some (status, Some (ptr, handles)), m0, e0) /\
     NT_SUCCESS status = true /\
     let l := search_loop os handles HandleName (utf8_to_wchar os HandleName)
                (USHORT_cast (Z.of_nat (wcslen (utf8_to_wchar os HandleName))))
                bPartialMatch bIgnoreSelf (Handles handles) O
                (initial_frame pid1_indeterminate exe1_indeterminate buffer0)
                m1 in
     opens (events_of r) = opens (events_of l) /\
     slot_events (events_of r) = slot_events (events_of l) /\
     resolved (events_of r) = resolved (events_of l) /\
     path_lines (events_of r) = path_lines (events_of l)).
Proof.
  intros r. subst r.
  destruct (SearchProcess os PH_LARGE_BUFFER_SIZE pid1_indeterminate
              exe1_indeterminate fuel HandleName bPartialMatch bIgnoreSelf m)
    as [[o m'] e] eqn:H.
  unfold events_of at 1 2 3 4; cbn [fst snd].
  unfold SearchProcess in H.
  apply bind_inv in H. destruct H as (r & m0 & e0 & e1 & Hc & H & ->).
  pose proof (capture_events fuel m) as Hq. rewrite Hc in Hq.
  unfold events_of in Hq; cbn [fst snd] in Hq.
  apply housekeeping_unobserved in Hq.
  destruct Hq as (_ & _ & Q3 & _ & _ & _ & Q7 & Q8 & Q9).
  destruct r as [[status snapshot]|]; cbv beta iota in H.
  2: { apply ret_inv in H. destruct H as (_ & _ & ->). left.
       observe. auto. }
  destruct (NT_SUCCESS status) eqn:Hs; cbn [negb] in H.
  2: { unfold uprintf in H. minv H.
       match goal with
       | Ho : out _ _ _ _ _ ?m1 = _ |- _ =>
           pose proof (out_events HandleName false NULL NULL m1) as Hout;
           rewrite Ho in Hout
       end.
       unfold events_of in Hout; cbn [fst snd] in Hout.
       destruct Hout as (_ & _ & _ & X1 & _ & _ & _ & X2 & X3 & X4).
       left. observe. auto. }
  apply bind_inv in H. destruct H as (buffer0 & m1 & e2 & e3 & Ha & H & ->).
  heap_facts. apply housekeeping_unobserved in Hheap.
  destruct Hheap as (_ & _ & A3 & _ & _ & _ & A7 & A8 & A9).
  destruct (buffer0 =? NULL) eqn:Hb.
  { match goal with
    | Ho : out _ ?n ?f ?b ?h ?m1 = _ |- _ =>
        pose proof (out_events n f b h m1) as Hout; rewrite Ho in Hout
    end.
    unfold events_of in Hout; cbn [fst snd] in Hout.
    destruct Hout as (_ & _ & _ & X1 & _ & _ & _ & X2 & X3 & X4).
    left. observe. auto. }
  apply bind_inv in H. destruct H as ([c f'] & m2 & e4 & e5 & Hl & H & ->).
  assert (Hpost : opens e5 = [] /\ slot_events e5 = [] /\
                  resolved e5 = [] /\ path_lines e5 = []).
  { destruct c; cbv beta iota in H;
      try (match goal with
           | Ho : out _ ?n ?f ?b ?h ?m1 = _ |- _ =>
               pose proof (out_events n f b h m1) as Hout; rewrite Ho in Hout
           end;
           unfold events_of in Hout; cbn [fst snd] in Hout; tauto).
    apply ret_inv in H. destruct H as (_ & _ & ->). auto. }
  destruct Hpost as (P1 & P2 & P3 & P4).
  destruct snapshot as [[ptr handles]|].
  - right. exists status, ptr, handles, m0, e0, buffer0, m1.
    split; [exact Hc|]. split; [exact Hs|].
    cbn [fst snd] in Hl. cbv zeta. rewrite Hl.
    unfold events_of; cbn [fst snd]. observe. rewrite ?app_nil_r. auto.
  - left. cbn [Handles] in Hl. apply search_loop_inv in Hl.
    destruct Hl as (_ & (_ & L2 & L3 & L4 & L5) & _).
    unfold dup_closed in L3. cbn in L3.
    observe. rewrite ?L2, ?L3, ?L4, ?L5. auto.
Qed.

End EngineFacts.

(** * The specification, statement by statement *)

(** ** Matching (lines 496-506) *)

(** In exact mode a candidate matches exactly when the [Length] field of
    its name equals the character count of the target and the leading
    characters compare equal. *)
Lemma name_matches_exact (wHandleName : list WCHAR) (wHandleNameLen : Z)
    (Name : UNICODE_STRING) :
  name_matches false wHandleName wHandleNameLen Name = true
  <-> wHandleNameLen = Length Name /\
      wcsncmp wHandleName (Buffer Name) (Z.to_nat wHandleNameLen) = 0.
Proof.
  unfold name_matches. cbn [negb andb].
  destruct (wHandleNameLen =? Length Name) eqn:E; cbn [negb].
  - apply Z.eqb_eq in E. rewrite Z.eqb_eq. tauto.
  - apply Z.eqb_neq in E. split; [discriminate|tauto].
Qed.

(** [Length] counts bytes and the target length counts characters: in
    exact mode a name never matches the very string it consists of. *)
Lemma name_matches_exact_own_name (s : list WCHAR) :
  0 < Z.of_nat (List.length s) < 65536 -> wcslen s = List.length s ->
  name_matches false s (USHORT_cast (Z.of_nat (wcslen s)))
    (unicode_string_of s) = false.
Proof.
  intros Hlen Hw. unfold name_matches, unicode_string_of, USHORT_cast.
  cbn [negb andb Length]. rewrite Hw.
  change (2 ^ 16) with 65536.
  rewrite Z.mod_small by lia.
  replace (Z.of_nat (List.length s) =? 2 * Z.of_nat (List.length s))
    with false by (symmetry; apply Z.eqb_neq; lia).
  reflexivity.
Qed.

(** C1 (the code departs from the specification).  The first end-to-end scenario:
    one handle, owned by another process, named
    [\Device\HarddiskVolume3\file.txt], the same string as target, exact
    mode.  The search returns [FALSE] and prints the "not identified"
    line only: no header, no path line. *)
Theorem exact_scenario_reports_nothing :
  Sim.run Sim.one_handle Sim.file_txt false true
  = (Returned false,
     snd (Sim.run Sim.one_handle Sim.file_txt false true)) /\
  uprintf_lines (snd (Sim.run Sim.one_handle Sim.file_txt false true))
  = [LNotIdentified Sim.file_txt] /\
  queries (snd (Sim.run Sim.one_handle Sim.file_txt false true))
  = [(STATUS_SUCCESS, 82)].
Proof. vm_compute. repeat split. Qed.

(** The same scenario in partial mode is found and reported. *)
Lemma partial_scenario_reports :
  fst (Sim.run Sim.one_handle Sim.file_txt true true) = Returned true /\
  uprintf_lines (snd (Sim.run Sim.one_handle Sim.file_txt true true))
  = [LHeader Sim.file_txt; LPath Sim.explorer_exe; LCloseApplications].
Proof. vm_compute. repeat split. Qed.

(** ** Release of handles *)

(** C2 (the code departs from the specification).  Two handles of one process and
    a cancellation between them: the search returns, the process handle
    0x100 it opened is in no call of [NtClose]. *)
Theorem cancelled_search_leaves_process_handle_open :
  fst (Sim.run Sim.cancelled Sim.file_txt true true) = Returned true /\
  slot_events (snd (Sim.run Sim.cancelled Sim.file_txt true true))
  = [inr (STATUS_SUCCESS, Some 0x100); inl 0x244] /\
  closes (snd (Sim.run Sim.cancelled Sim.file_txt true true)) = [0x244].
Proof. vm_compute. repeat split. Qed.

(** C3 (the code departs from the specification).  The caller's own handle 0x44
    followed by a record of a process that cannot be opened: no
    duplication call is issued, and [NtClose] is called on 0x44. *)
Theorem own_handle_is_closed :
  fst (Sim.run Sim.own_then_denied Sim.file_txt true false) = Returned true /\
  duplications (snd (Sim.run Sim.own_then_denied Sim.file_txt true false)) = [] /\
  closes (snd (Sim.run Sim.own_then_denied Sim.file_txt true false)) = [0x44].
Proof. vm_compute. repeat split. Qed.

(** ** The exit test of the loop (lines 436-442) *)

(** C4 (the code departs from the specification).  With one declared record the
    loop dereferences the records at index 0 and at index 1. *)
Theorem record_past_the_count_is_read :
  NumberOfHandles (Sim.snapshot Sim.one_handle) = 1%nat /\
  records_read (snd (Sim.run Sim.one_handle Sim.file_txt true true)) = [0; 1]%nat.
Proof. vm_compute. repeat split. Qed.

(** C5 (the code departs from the specification).  With one declared record and
    process id 0 in the three slots after it, the loop makes five
    passes. *)
Theorem skip_postpones_the_exit :
  NumberOfHandles (Sim.snapshot Sim.zero_slack) = 1%nat /\
  records_read (snd (Sim.run Sim.zero_slack Sim.file_txt true true))
  = [0; 1; 2; 3; 4]%nat.
Proof. vm_compute. repeat split. Qed.

(** ** The snapshot (lines 186-226 and 377-383) *)

(** C6.  [PhEnumHandlesEx] and the failure of the capture, in six parts.
    (1) With the entry point and a first block, the first event after
    the allocation is the query of that block with the size kept in
    [initialBufferSize], and it records what the system replies.
    (2) Wherever the trace of [PhEnumHandlesEx] shows a reply
    [STATUS_INFO_LENGTH_MISMATCH], what follows is the release of the
    buffer that was offered ([PhFree] emits the same events in every state
    with the heap handle of [m]) and then: when twice the size is over
    the ceiling, nothing more, and the call returns
    [STATUS_INSUFFICIENT_RESOURCES]; otherwise the allocation of twice the
    size, after which the call returns [STATUS_NO_MEMORY] if no block was
    given, and asks again, with the new block and twice the size, if one
    was.
    (3) The same step of the loop of lines 202-214, from the reply of the
    system to the state and the trace.
    (4) With a ceiling below 2^31 the call returns within 32 queries.
    (5) When an entry point is missing, when the heap cannot be created or
    when [PhEnumHandlesEx] returns a failure, [SearchProcess] returns
    [FALSE] having printed the warning and the "not identified" line only,
    and having read no record.
    (6) In particular a reply that asks for more than the ceiling ends the
    search so, with [STATUS_INSUFFICIENT_RESOURCES] in the warning.
    (7) And on a system that has every entry point, whose heap gives a
    block for every positive size and that answers every query of at
    most the ceiling with [STATUS_INFO_LENGTH_MISMATCH], every search
    ends so. *)
Theorem snapshot_capture_is_bounded_and_its_failure_ends_the_search
    {W : Type} (os : OS W) (PH_LARGE_BUFFER_SIZE : Z) :
  (forall fuel m,
     pf_resolved os pNtQuerySystemInformation = true ->
     let first := PhAllocate os (initialBufferSize m) m in
     value_of first <> NULL ->
     exists rest,
       events_of (PhEnumHandlesEx os PH_LARGE_BUFFER_SIZE (S fuel) m)
       = events_of first
         ++ EvNtQuerySystemInformation (value_of first) (initialBufferSize m)
              (fst (fst (NtQuerySystemInformation os (value_of first)
                           (initialBufferSize m) (world (machine_of first)))))
         :: rest) /\
  (forall fuel m pre buf size post,
     events_of (PhEnumHandlesEx os PH_LARGE_BUFFER_SIZE fuel m)
     = pre ++ EvNtQuerySystemInformation buf size STATUS_INFO_LENGTH_MISMATCH
           :: post ->
     let r := value_of (PhEnumHandlesEx os PH_LARGE_BUFFER_SIZE fuel m) in
     let doubled := ULONG_wrap (size * 2) in
     let freed := events_of (PhFree os buf m) in
     (PH_LARGE_BUFFER_SIZE < doubled ->
        post = freed /\ r = Some (STATUS_INSUFFICIENT_RESOURCES, None)) /\
     (doubled <= PH_LARGE_BUFFER_SIZE ->
        exists fresh rest,
          post = freed
                 ++ EvRtlAllocateHeap (PhHeapHandle m) doubled fresh :: rest /\
          (fresh = NULL -> rest = [] /\ r = Some (STATUS_NO_MEMORY, None)) /\
          (fresh <> NULL -> r <> None ->
             exists st rest',
               rest = EvNtQuerySystemInformation fresh doubled st :: rest'))) /\
  (forall fuel buf size m info w,
     NtQuerySystemInformation os buf size (world m)
       = ((STATUS_INFO_LENGTH_MISMATCH, info), w) ->
     let doubled := ULONG_wrap (size * 2) in
     let query :=
       EvNtQuerySystemInformation buf size STATUS_INFO_LENGTH_MISMATCH in
     let freed := PhFree os buf (set_world w m) in
     (PH_LARGE_BUFFER_SIZE < doubled ->
        enum_loop os PH_LARGE_BUFFER_SIZE (S fuel) buf size m
        = (Some (EnumReturn STATUS_INSUFFICIENT_RESOURCES), machine_of freed,
           query :: events_of freed)) /\
     (doubled <= PH_LARGE_BUFFER_SIZE ->
        let allocated := PhAllocate os doubled (machine_of freed) in
        let fresh := value_of allocated in
        (fresh = NULL ->
           enum_loop os PH_LARGE_BUFFER_SIZE (S fuel) buf size m
           = (Some (EnumReturn STATUS_NO_MEMORY), machine_of allocated,
              query :: events_of freed ++ events_of allocated)) /\
        (fresh <> NULL ->
           let retry := enum_loop os PH_LARGE_BUFFER_SIZE fuel fresh doubled
                          (machine_of allocated) in
           enum_loop os PH_LARGE_BUFFER_SIZE (S fuel) buf size m
           = (value_of retry, machine_of retry,
              query :: events_of freed ++ events_of allocated
                    ++ events_of retry)))) /\
  (forall fuel m,
     PH_LARGE_BUFFER_SIZE < 2 ^ 31 ->
     0 < initialBufferSize m < 2 ^ 31 ->
     (32 <= fuel)%nat ->
     value_of (PhEnumHandlesEx os PH_LARGE_BUFFER_SIZE fuel m) <> None) /\
  (forall pid1 exe1 fuel HandleName bPartialMatch bIgnoreSelf m,
     let r := SearchProcess os PH_LARGE_BUFFER_SIZE pid1 exe1 fuel
                HandleName bPartialMatch bIgnoreSelf m in
     let aborted := fun status =>
       value_of r = Returned false /\
       uprintf_lines (events_of r)
       = [LWarningEnumerate status; LNotIdentified HandleName] /\
       records_read (events_of r) = [] in
     let entry :=
       PF_INIT_OR_SET_STATUS os pNtClose
         (PF_INIT_OR_SET_STATUS os pNtDuplicateObject
            (PF_INIT_OR_SET_STATUS os pNtQueryObject STATUS_SUCCESS)) in
     let heap := PhCreateHeap os m in
     (NT_SUCCESS entry = false -> aborted entry) /\
     (NT_SUCCESS entry = true -> NT_SUCCESS (value_of heap) = false ->
      aborted (value_of heap)) /\
     (NT_SUCCESS entry = true -> NT_SUCCESS (value_of heap) = true ->
      forall status snapshot,
        value_of (PhEnumHandlesEx os PH_LARGE_BUFFER_SIZE fuel
                    (machine_of heap)) = Some (status, snapshot) ->
        NT_SUCCESS status = false ->
        aborted status)) /\
  (forall pid1 exe1 fuel HandleName bPartialMatch bIgnoreSelf m
          pre buf size post,
     NT_SUCCESS
       (PF_INIT_OR_SET_STATUS os pNtClose
          (PF_INIT_OR_SET_STATUS os pNtDuplicateObject
             (PF_INIT_OR_SET_STATUS os pNtQueryObject STATUS_SUCCESS))) = true ->
     NT_SUCCESS (value_of (PhCreateHeap os m)) = true ->
     events_of (PhEnumHandlesEx os PH_LARGE_BUFFER_SIZE fuel
                  (machine_of (PhCreateHeap os m)))
     = pre ++ EvNtQuerySystemInformation buf size STATUS_INFO_LENGTH_MISMATCH
           :: post ->
     PH_LARGE_BUFFER_SIZE < ULONG_wrap (size * 2) ->
     let r := SearchProcess os PH_LARGE_BUFFER_SIZE pid1 exe1 fuel
                HandleName bPartialMatch bIgnoreSelf m in
     value_of r = Returned false /\
     uprintf_lines (events_of r)
     = [LWarningEnumerate STATUS_INSUFFICIENT_RESOURCES;
        LNotIdentified HandleName] /\
     records_read (events_of r) = []) /\
  (forall pid1 exe1 fuel HandleName bPartialMatch bIgnoreSelf m,
     PH_LARGE_BUFFER_SIZE < 2 ^ 31 ->
     (32 <= fuel)%nat ->
     (forall p, pf_resolved os p = true) ->
     NT_SUCCESS (value_of (PhCreateHeap os m)) = true ->
     0 < initialBufferSize m <= PH_LARGE_BUFFER_SIZE ->
     (forall heap size w,
        0 < size -> fst (RtlAllocateHeap os heap size w) <> NULL) ->
     (forall buf size w,
        size <= PH_LARGE_BUFFER_SIZE ->
        fst (fst (NtQuerySystemInformation os buf size w))
        = STATUS_INFO_LENGTH_MISMATCH) ->
     let r := SearchProcess os PH_LARGE_BUFFER_SIZE pid1 exe1 fuel
                HandleName bPartialMatch bIgnoreSelf m in
     value_of r = Returned false /\
     uprintf_lines (events_of r)
     = [LWarningEnumerate STATUS_INSUFFICIENT_RESOURCES;
        LNotIdentified HandleName] /\
     records_read (events_of r) = []).
Proof.
  assert (Hfail : forall pid1 exe1 fuel HandleName bPartialMatch bIgnoreSelf
                         m status snapshot,
            NT_SUCCESS
              (PF_INIT_OR_SET_STATUS os pNtClose
                 (PF_INIT_OR_SET_STATUS os pNtDuplicateObject
                    (PF_INIT_OR_SET_STATUS os pNtQueryObject STATUS_SUCCESS)))
            = true ->
            NT_SUCCESS (value_of (PhCreateHeap os m)) = true ->
            value_of (PhEnumHandlesEx os PH_LARGE_BUFFER_SIZE fuel
                        (machine_of (PhCreateHeap os m)))
            = Some (status, snapshot) ->
            NT_SUCCESS status = false ->
            let r := SearchProcess os PH_LARGE_BUFFER_SIZE pid1 exe1 fuel
                       HandleName bPartialMatch bIgnoreSelf m in
            value_of r = Returned false /\
            uprintf_lines (events_of r)
            = [LWarningEnumerate status; LNotIdentified HandleName] /\
            records_read (events_of r) = []).
  { intros pid1 exe1 fuel HandleName bPartialMatch bIgnoreSelf m status
           snapshot He Hh Hv Hs.
    pose proof (capture_unfold os PH_LARGE_BUFFER_SIZE fuel m) as Hc.
    cbv zeta in Hc. rewrite He, Hh, Hv in Hc.
    exact (capture_failure_ends_the_search os PH_LARGE_BUFFER_SIZE pid1 exe1
             fuel HandleName bPartialMatch bIgnoreSelf m status snapshot
             _ _ Hc Hs). }
  split; [|split; [|split; [|split; [|split; [|split]]]]].
  - intros fuel m Hres first Hfirst.
    exact (PhEnumHandlesEx_first_query os PH_LARGE_BUFFER_SIZE fuel m
             Hres Hfirst).
  - intros fuel m pre buf size post He.
    exact (PhEnumHandlesEx_after_mismatch os PH_LARGE_BUFFER_SIZE fuel m
             pre buf size post He).
  - intros fuel buf size m info w Hq.
    exact (enum_loop_mismatch os PH_LARGE_BUFFER_SIZE fuel buf size m info w Hq).
  - intros fuel m Hceil Hinit Hfuel.
    exact (PhEnumHandlesEx_returns os PH_LARGE_BUFFER_SIZE fuel m
             Hceil Hinit Hfuel).
  - intros pid1 exe1 fuel HandleName bPartialMatch bIgnoreSelf m
           r aborted entry heap.
    pose proof (capture_unfold os PH_LARGE_BUFFER_SIZE fuel m) as Hc.
    cbv zeta in Hc. fold entry heap in Hc.
    split; [|split].
    + intros He. rewrite He in Hc.
      exact (capture_failure_ends_the_search os PH_LARGE_BUFFER_SIZE pid1
               exe1 fuel HandleName bPartialMatch bIgnoreSelf m entry None
               _ _ Hc He).
    + intros He Hh. rewrite He, Hh in Hc.
      exact (capture_failure_ends_the_search os PH_LARGE_BUFFER_SIZE pid1
               exe1 fuel HandleName bPartialMatch bIgnoreSelf m
               (value_of heap) None _ _ Hc Hh).
    + intros He Hh status snapshot Hv Hs.
      exact (Hfail pid1 exe1 fuel HandleName bPartialMatch bIgnoreSelf m
               status snapshot He Hh Hv Hs).
  - intros pid1 exe1 fuel HandleName bPartialMatch bIgnoreSelf m
           pre buf size post He Hh Htrace Hover.
    destruct (PhEnumHandlesEx_after_mismatch os PH_LARGE_BUFFER_SIZE fuel
                _ pre buf size post Htrace) as (Hm & _).
    destruct (Hm Hover) as (_ & Hv).
    exact (Hfail pid1 exe1 fuel HandleName bPartialMatch bIgnoreSelf m
             STATUS_INSUFFICIENT_RESOURCES None He Hh Hv eq_refl).
  - intros pid1 exe1 fuel HandleName bPartialMatch bIgnoreSelf m
           Hceil Hfuel Hall Hh Hseed Halloc Hquery.
    assert (He : NT_SUCCESS
                   (PF_INIT_OR_SET_STATUS os pNtClose
                      (PF_INIT_OR_SET_STATUS os pNtDuplicateObject
                         (PF_INIT_OR_SET_STATUS os pNtQueryObject
                            STATUS_SUCCESS))) = true)
      by (unfold PF_INIT_OR_SET_STATUS; rewrite !Hall; reflexivity).
    rewrite <- (PhCreateHeap_initialBufferSize os m) in Hseed.
    pose proof (PhEnumHandlesEx_starved os PH_LARGE_BUFFER_SIZE fuel
                  (machine_of (PhCreateHeap os m)) Hceil Hfuel
                  (Hall pNtQuerySystemInformation) (Hall pRtlAllocateHeap)
                  Halloc Hquery Hseed) as Hv.
    exact (Hfail pid1 exe1 fuel HandleName bPartialMatch bIgnoreSelf m
             STATUS_INSUFFICIENT_RESOURCES None He Hh Hv eq_refl).
Qed.

(** C6 on the simulated system whose snapshot needs twice the ceiling:
    the loop at the ceiling, the return of [PhEnumHandlesEx] within its
    fuel, its status after the reply that asks for more than the ceiling,
    and the whole search. *)
Lemma snapshot_capture_witness :
  value_of (enum_loop (Sim.os Sim.huge_snapshot) Sim.ceiling 1
              (Sim.block Sim.ceiling) Sim.ceiling Sim.boot)
  = Some (EnumReturn STATUS_INSUFFICIENT_RESOURCES) /\
  value_of (PhEnumHandlesEx (Sim.os Sim.huge_snapshot) Sim.ceiling 64 Sim.boot)
  <> None /\
  value_of (PhEnumHandlesEx (Sim.os Sim.huge_snapshot) Sim.ceiling 64 Sim.boot)
  = Some (STATUS_INSUFFICIENT_RESOURCES, None) /\
  value_of (SearchProcess (Sim.os Sim.huge_snapshot) Sim.ceiling 0 EmptyString
              64 Sim.file_txt true true Sim.boot)
  = Returned false /\
  uprintf_lines
    (events_of (SearchProcess (Sim.os Sim.huge_snapshot) Sim.ceiling 0
                  EmptyString 64 Sim.file_txt true true Sim.boot))
  = [LWarningEnumerate STATUS_INSUFFICIENT_RESOURCES;
     LNotIdentified Sim.file_txt] /\
  records_read
    (events_of (SearchProcess (Sim.os Sim.huge_snapshot) Sim.ceiling 0
                  EmptyString 64 Sim.file_txt true true Sim.boot))
  = [].
Proof.
  destruct (snapshot_capture_is_bounded_and_its_failure_ends_the_search
              (Sim.os Sim.huge_snapshot) Sim.ceiling)
    as (_ & Hafter & Hstep & Hreturns & _ & _ & Hstarved).
  pose (e := events_of (PhEnumHandlesEx (Sim.os Sim.huge_snapshot)
                          Sim.ceiling 64 Sim.boot)).
  assert (He : e = firstn (List.length e - 2) e
                   ++ EvNtQuerySystemInformation (Sim.block Sim.ceiling)
                        Sim.ceiling STATUS_INFO_LENGTH_MISMATCH
                   :: skipn (List.length e - 1) e)
    by (vm_compute; reflexivity).
  assert (Hover : Sim.ceiling < ULONG_wrap (Sim.ceiling * 2))
    by (vm_compute; reflexivity).
  split; [|split; [|split]].
  - rewrite (proj1 (Hstep O (Sim.block Sim.ceiling) Sim.ceiling Sim.boot
                      Sim.no_snapshot O eq_refl));
      [reflexivity|exact Hover].
  - apply Hreturns; [vm_compute; reflexivity|vm_compute; split; reflexivity|].
    repeat constructor.
  - destruct (Hafter 64%nat Sim.boot _ _ _ _ He) as (Hm & _).
    exact (proj2 (Hm Hover)).
  - apply (Hstarved 0 EmptyString 64%nat Sim.file_txt true true Sim.boot).
    + reflexivity.
    + repeat constructor.
    + intros p. reflexivity.
    + reflexivity.
    + split; [reflexivity|discriminate].
    + intros heap size w Hsize. cbn [Sim.os RtlAllocateHeap fst].
      unfold Sim.block, NULL. lia.
    + intros buf size w Hsize.
      cbn [Sim.os NtQuerySystemInformation fst Sim.huge_snapshot
           Sim.snapshot_size].
      destruct (size <? 512 * 1024 * 1024) eqn:E; [reflexivity|].
      apply Z.ltb_ge in E. unfold Sim.ceiling in Hsize. lia.
Defined.

(** ** The name query (lines 476-494) *)

(** One pass of the [do ... while] on a size-error reply. *)
Lemma query_name_loop_size_error {W : Type} (os : OS W) more f m
    st returnSize Name w :
  NtQueryObject os (dupHandle f) (buffer f) (bufferSize f) (world m)
    = ((st, returnSize, Name), w) ->
  size_error st = true ->
  let freed := PhFree os (buffer f) (set_world w m) in
  let allocated := PhAllocate os returnSize (machine_of freed) in
  let f1 := set_buffer (value_of allocated)
              (set_bufferSize returnSize (set_name Name f)) in
  let evs := EvNtQueryObject (dupHandle f) (buffer f) (bufferSize f)
               st returnSize
             :: EvUuprintf (DRealloc (bufferSize f) returnSize)
             :: events_of freed ++ events_of allocated in
  match more with
  | O => query_name_loop os O f m = ((st, f1), machine_of allocated, evs)
  | S more' =>
      let retry := query_name_loop os more' f1 (machine_of allocated) in
      query_name_loop os (S more') f m
      = (value_of retry, machine_of retry, evs ++ events_of retry)
  end.
Proof.
  intros Hq Hs freed allocated f1 evs.
  assert (Hstep : forall k : NTSTATUS -> frame -> M W (NTSTATUS * frame),
    bind (pfNtQueryObject os (dupHandle f) (buffer f) (bufferSize f))
      (fun r =>
         let '(status, returnSize, Name) := r in
         let f := set_name Name f in
         if size_error status then
           bind (uuprintf (DRealloc (bufferSize f) returnSize))
             (fun _ =>
                let f := set_bufferSize returnSize f in
                bind (PhFree os (buffer f))
                  (fun _ =>
                     bind (PhAllocate os (bufferSize f))
                       (fun p => k status (set_buffer p f))))
         else ret (status, f)) m
    = let '(r, m', e) := k st f1 (machine_of allocated) in
      (r, m', evs ++ e)).
  { intros k. unfold bind at 1, pfNtQueryObject, os_call. rewrite Hq.
    cbn [fst snd]. rewrite Hs.
    unfold bind at 1, uuprintf, emit.
    unfold bind at 1. cbn [buffer bufferSize set_name set_bufferSize].
    fold freed. destruct freed as [[[] mf] ef] eqn:Ef.
    unfold bind at 1. unfold machine_of in allocated. cbn [fst snd] in allocated.
    fold allocated. subst f1 evs.
    destruct allocated as [[p ma] ea] eqn:Ea.
    unfold value_of, machine_of, events_of; cbn [fst snd].
    destruct (k _ _ ma) as [[r m'] e].
    cbn [app]. rewrite <- !app_assoc. reflexivity. }
  destruct more as [|more'].
  - etransitivity; [exact (Hstep (fun s f' => ret (s, f')))|].
    unfold ret. cbv beta iota. rewrite app_nil_r. reflexivity.
  - cbn zeta.
    etransitivity;
      [exact (Hstep (fun _ f' => query_name_loop os more' f'))|].
    cbv beta.
    destruct (query_name_loop os more' f1 (machine_of allocated))
      as [[r m'] e].
    reflexivity.
Qed.

(** A name query that ends unsuccessfully ends the pass with
    [continue]. *)
Lemma name_stage_skips {W : Type} (os : OS W) HandleName wHandleName
    wHandleNameLen bPartialMatch h f m :
  let q := query_name_loop os (attempts - 1) f m in
  NT_SUCCESS (fst (value_of q)) = false ->
  name_stage os HandleName wHandleName wHandleNameLen bPartialMatch h f m
  = ((Continue, snd (value_of q)), machine_of q,
     events_of q
     ++ [EvUuprintf (DQueryFailed (HandleValue h) (UniqueProcessId h)
                                  (fst (value_of q)))]).
Proof.
  intros q Hs. subst q. unfold name_stage, bind.
  destruct (query_name_loop os (attempts - 1) f m) as [[[st f1] m1] e1].
  unfold value_of, machine_of, events_of in *. cbn [fst snd] in *.
  rewrite Hs. cbn [negb]. unfold uuprintf, emit, ret. cbn [app].
  reflexivity.
Qed.

(** A pass that ends with [continue] is followed by the pass on the next
    record. *)
Lemma search_loop_continues {W : Type} (os : OS W) handles HandleName
    wHandleName wHandleNameLen bPartialMatch bIgnoreSelf
    h rest i f m f0 m0 e0 f1 m1 e1 :
  close_dup os f m = (f0, m0, e0) ->
  loop_body os handles HandleName wHandleName wHandleNameLen
    bPartialMatch bIgnoreSelf i h f0 m0 = ((Continue, f1), m1, e1) ->
  let next := search_loop os handles HandleName wHandleName wHandleNameLen
                bPartialMatch bIgnoreSelf rest (S i) f1 m1 in
  search_loop os handles HandleName wHandleName wHandleNameLen
    bPartialMatch bIgnoreSelf (h :: rest) i f m
  = (value_of next, machine_of next, e0 ++ e1 ++ events_of next).
Proof.
  intros Hd Hb next. subst next. cbn [search_loop]. unfold bind.
  rewrite Hd, Hb.
  destruct (search_loop os handles HandleName wHandleName wHandleNameLen
              bPartialMatch bIgnoreSelf rest (S i) f1 m1) as [[r m2] e2].
  reflexivity.
Qed.



(** ** The process handle (lines 421-432 and 444-458) *)

(** C8.  In a search whose snapshot was captured, every call of
    [PhOpenProcess] is for a record whose process id differs from the one
    of the record before it (from 0 for the first record); over records
    [a] to [b] that share one process id at most one call is made; and at
    every call the slot is free: a handle an earlier call opened has been
    passed to [NtClose] in between. *)
Theorem process_is_opened_once_per_run
    {W : Type} (os : OS W) PH_LARGE_BUFFER_SIZE pid1 exe1 fuel HandleName
    bPartialMatch bIgnoreSelf m status ptr handles m0 e0 :
  capture os PH_LARGE_BUFFER_SIZE fuel m
    = (Some (status, Some (ptr, handles)), m0, e0) ->
  let e := events_of (SearchProcess os PH_LARGE_BUFFER_SIZE pid1 exe1 fuel
                        HandleName bPartialMatch bIgnoreSelf m) in
  let pids := map UniqueProcessId (Handles handles) in
  (forall k q st,
     In (k, q, st) (opens e) ->
     nth_error pids k = Some q /\
     match k with
     | O => q <> NULL
     | S j => nth_error pids j <> Some q
     end) /\
  (forall a b P,
     (forall k, (a <= k <= b)%nat -> nth_error pids k = Some P) ->
     (List.length (opens_between a b (opens e)) <= 1)%nat) /\
  slot_free None (slot_events e).
Proof.
  intros Hc e pids. subst e pids.
  destruct (SearchProcess_loop os PH_LARGE_BUFFER_SIZE pid1 exe1 fuel
              HandleName bPartialMatch bIgnoreSelf m)
    as [(O1 & O2 & _) | (status' & ptr' & handles' & m0' & e0' & buffer0 & m1
                         & Hc' & _ & Hl)].
  - rewrite O1, O2. cbn. repeat split; try contradiction. lia.
  - rewrite Hc in Hc'. injection Hc' as <- <- <- <- <-.
    cbv zeta in Hl. destruct Hl as (-> & -> & _).
    destruct (search_loop os handles HandleName _ _ bPartialMatch bIgnoreSelf
                (Handles handles) 0 (initial_frame pid1 exe1 buffer0) m1)
      as [[[c f'] m'] el] eqn:Hrun.
    unfold events_of; cbn [fst snd].
    pose proof (search_loop_runs _ _ _ _ _ _ _ _ _ _ _ _ _ _ _ Hrun
                  (or_intror eq_refl)) as Hruns.
    change (prev_pid (initial_frame pid1 exe1 buffer0)) with NULL in Hruns.
    split; [|split].
    + intros k q st Hin.
      destruct (opens_follow_runs_at _ _ _ _ Hruns k q st Hin) as (_ & H1 & H2).
      rewrite Nat.sub_0_r in H1, H2. auto.
    + intros a b P Hrun_ab.
      apply (opens_follow_runs_once a b P _ _ _ _ Hruns); [|lia].
      intros k Hk _. rewrite Nat.sub_0_r. apply Hrun_ab. exact Hk.
    + apply (search_loop_slot _ _ _ _ _ _ _ _ _ _ _ _ _ _ _ None Hrun).
      left. reflexivity.
Qed.

(** C8 on the simulated system with two handles of process 2000: one call
    of [PhOpenProcess] over the records 0 and 1. *)
Lemma process_is_opened_once_witness :
  (List.length
     (opens_between 0 1
        (opens (events_of (Sim.search Sim.two_handles Sim.file_txt true true))))
   <= 1)%nat.
Proof.
  pose proof (process_is_opened_once_per_run (Sim.os Sim.two_handles)
                Sim.ceiling 0 EmptyString 64%nat Sim.file_txt true true
                Sim.boot STATUS_SUCCESS (Sim.block 0x10000)
                (Sim.snapshot Sim.two_handles)
                (machine_of (capture (Sim.os Sim.two_handles) Sim.ceiling 64
                               Sim.boot))
                (events_of (capture (Sim.os Sim.two_handles) Sim.ceiling 64
                              Sim.boot))
                eq_refl) as (_ & Honce & _).
  apply (Honce 0%nat 1%nat 2000).
  intros k Hk. destruct k as [|[|k]]; [reflexivity|reflexivity|lia].
Defined.

(** ** The access-denied memo (lines 436-438 and 449-457) *)

(** The skip of lines 436-438. *)
Lemma gate_stage_skips_memoized {W : Type} (os : OS W) handles HandleName
    wHandleName wHandleNameLen bPartialMatch bIgnoreSelf i h f m :
  UniqueProcessId h = last_access_denied_pid f ->
  let g := gate_stage os handles HandleName wHandleName wHandleNameLen
             bPartialMatch bIgnoreSelf i h f m in
  events_of g = [] /\ snd (value_of g) = f /\
  (fst (value_of g) = Continue \/ fst (value_of g) = GotoOut).
Proof.
  intros Hp g. subst g. unfold gate_stage, CHECK_FOR_USER_CANCEL, bind.
  destruct (user_cancel os (world m)) as [cancelled w].
  destruct cancelled; unfold ret, events_of, value_of; cbn [fst snd app].
  - auto.
  - rewrite Hp, Z.eqb_refl. cbn [fst snd app]. auto.
Qed.

(** C9.  Over a whole search, and over the loop from any frame, no call
    of [PhOpenProcess] is for the process id the memo holds at that
    point, where the memo starts as the frame has it and takes the
    process id of every call that fails with access-denied; the variable
    [last_access_denied_pid] ends as that memo.  A candidate whose
    process id is the memoized one ends its pass at the skip: nothing is
    called or printed and the frame is unchanged. *)
Theorem access_denied_memo_is_respected {W : Type} (os : OS W) :
  (forall PH_LARGE_BUFFER_SIZE pid1 exe1 fuel HandleName bPartialMatch
          bIgnoreSelf m,
     memo_respected 0
       (opens (events_of (SearchProcess os PH_LARGE_BUFFER_SIZE pid1 exe1
                            fuel HandleName bPartialMatch bIgnoreSelf m)))) /\
  (forall handles HandleName wHandleName wHandleNameLen bPartialMatch
          bIgnoreSelf slots i f m,
     let l := search_loop os handles HandleName wHandleName wHandleNameLen
                bPartialMatch bIgnoreSelf slots i f m in
     memo_respected (last_access_denied_pid f) (opens (events_of l)) /\
     last_access_denied_pid (snd (value_of l))
     = memo_after (last_access_denied_pid f) (opens (events_of l))) /\
  (forall handles HandleName wHandleName wHandleNameLen bPartialMatch
          bIgnoreSelf i h f m,
     UniqueProcessId h = last_access_denied_pid f ->
     let g := gate_stage os handles HandleName wHandleName wHandleNameLen
                bPartialMatch bIgnoreSelf i h f m in
     events_of g = [] /\ snd (value_of g) = f /\
     (fst (value_of g) = Continue \/ fst (value_of g) = GotoOut)).
Proof.
  assert (Hloop : forall handles HandleName wHandleName wHandleNameLen
                         bPartialMatch bIgnoreSelf slots i f m,
     let l := search_loop os handles HandleName wHandleName wHandleNameLen
                bPartialMatch bIgnoreSelf slots i f m in
     memo_respected (last_access_denied_pid f) (opens (events_of l)) /\
     last_access_denied_pid (snd (value_of l))
     = memo_after (last_access_denied_pid f) (opens (events_of l))).
  { intros handles HandleName wHandleName wHandleNameLen bPartialMatch
           bIgnoreSelf slots i f m l. subst l.
    destruct (search_loop os handles HandleName wHandleName wHandleNameLen
                bPartialMatch bIgnoreSelf slots i f m)
      as [[[c f'] m'] e] eqn:Hrun.
    unfold events_of, value_of; cbn [fst snd].
    exact (search_loop_memo _ _ _ _ _ _ _ _ _ _ _ _ _ _ _ Hrun). }
  split; [|split].
  - intros PH_LARGE_BUFFER_SIZE pid1 exe1 fuel HandleName bPartialMatch
           bIgnoreSelf m.
    destruct (SearchProcess_loop os PH_LARGE_BUFFER_SIZE pid1 exe1 fuel
                HandleName bPartialMatch bIgnoreSelf m)
      as [(O1 & _) | (status & ptr & handles & m0 & e0 & buffer0 & m1
                      & _ & _ & Hl)].
    + rewrite O1. exact I.
    + cbv zeta in Hl. destruct Hl as (-> & _).
      apply (Hloop handles HandleName _ _ bPartialMatch bIgnoreSelf
               (Handles handles) O (initial_frame pid1 exe1 buffer0) m1).
  - exact Hloop.
  - intros handles HandleName wHandleName wHandleNameLen bPartialMatch
           bIgnoreSelf i h f m Hp.
    exact (gate_stage_skips_memoized os handles HandleName wHandleName
             wHandleNameLen bPartialMatch bIgnoreSelf i h f m Hp).
Qed.

(** C9 on a simulated system: a record of process 4 met while the memo
    holds 4 is skipped. *)
Lemma access_denied_memo_witness :
  events_of (gate_stage (Sim.os Sim.own_then_denied)
               (Sim.snapshot Sim.own_then_denied) Sim.file_txt
               (Sim.wide Sim.file_txt) 32 true false 1 (Sim.entry 4 0x10)
               (set_last_access_denied_pid 4 Sim.first_frame) Sim.boot) = [].
Proof.
  destruct (access_denied_memo_is_respected (Sim.os Sim.own_then_denied))
    as (_ & _ & Hskip).
  apply (Hskip (Sim.snapshot Sim.own_then_denied) Sim.file_txt
           (Sim.wide Sim.file_txt) 32 true false 1%nat (Sim.entry 4 0x10)
           (set_last_access_denied_pid 4 Sim.first_frame) Sim.boot eq_refl).
Defined.

(** ** The report (lines 386-388 and 513-522) *)

(** C10.  The "o %s" lines of a search are the resolved paths with every
    path dropped that equals the most recently reported one: two matches
    resolving to the same path give one line, matches resolving to A, B
    and A again give three. *)
Theorem report_is_deduplicated_against_the_last_line
    {W : Type} (os : OS W) PH_LARGE_BUFFER_SIZE pid1 exe1 fuel HandleName
    bPartialMatch bIgnoreSelf m :
  let e := events_of (SearchProcess os PH_LARGE_BUFFER_SIZE pid1 exe1 fuel
                        HandleName bPartialMatch bIgnoreSelf m) in
  path_lines e = dedup EmptyString (resolved e) /\
  (forall A, A <> EmptyString -> resolved e = [A; A] -> path_lines e = [A]) /\
  (forall A B, A <> EmptyString -> A <> B ->
               resolved e = [A; B; A] -> path_lines e = [A; B; A]).
Proof.
  intros e.
  assert (Hd : path_lines e = dedup EmptyString (resolved e)).
  { subst e.
    destruct (SearchProcess_loop os PH_LARGE_BUFFER_SIZE pid1 exe1 fuel
                HandleName bPartialMatch bIgnoreSelf m)
      as [(_ & _ & O3 & O4) | (status & ptr & handles & m0 & e0 & buffer0 & m1
                               & _ & _ & Hl)].
    - rewrite O3, O4. reflexivity.
    - cbv zeta in Hl. destruct Hl as (_ & _ & -> & ->).
      destruct (search_loop os handles HandleName _ _ bPartialMatch
                  bIgnoreSelf (Handles handles) 0
                  (initial_frame pid1 exe1 buffer0) m1)
        as [[[c f'] m'] el] eqn:Hrun.
      unfold events_of; cbn [fst snd].
      exact (search_loop_dedup _ _ _ _ _ _ _ _ _ _ _ _ _ _ _ Hrun
               (or_intror eq_refl)). }
  split; [exact Hd|]. split.
  - intros A HA HR. rewrite Hd, HR. cbn [dedup].
    destruct (string_dec A EmptyString); [contradiction|].
    destruct (string_dec A A); [reflexivity|congruence].
  - intros A B HA HAB HR. rewrite Hd, HR. cbn [dedup].
    destruct (string_dec A EmptyString); [contradiction|].
    destruct (string_dec B A); [congruence|].
    destruct (string_dec A B); [contradiction|]. reflexivity.
Qed.

(** C10 on two simulated systems: two handles of one process give one
    line; handles of explorer, notepad and explorer again give three. *)
Lemma report_is_deduplicated_witness :
  path_lines (events_of (Sim.search Sim.two_handles Sim.file_txt true true))
  = [Sim.explorer_exe] /\
  path_lines (events_of (Sim.search Sim.three_handles Sim.file_txt true true))
  = [Sim.explorer_exe; Sim.notepad_exe; Sim.explorer_exe].
Proof.
  split.
  - apply (report_is_deduplicated_against_the_last_line
             (Sim.os Sim.two_handles) Sim.ceiling 0 EmptyString 64%nat
             Sim.file_txt true true Sim.boot).
    + discriminate.
    + vm_compute. reflexivity.
  - apply (report_is_deduplicated_against_the_last_line
             (Sim.os Sim.three_handles) Sim.ceiling 0 EmptyString 64%nat
             Sim.file_txt true true Sim.boot).
    + discriminate.
    + discriminate.
    + vm_compute. reflexivity.
Defined.

(** * Further properties of the engine *)

(** ** The messages of [NtStatusError] (lines 66-106) *)

Lemma hex_digit_injective a b :
  0 <= a < 16 -> 0 <= b < 16 -> hex_digit a = hex_digit b -> a = b.
Proof.
  intros Ha Hb H.
  assert (Hcases : forall x, 0 <= x < 16 ->
            x = 0 \/ x = 1 \/ x = 2 \/ x = 3 \/ x = 4 \/ x = 5 \/ x = 6 \/ x = 7 \/
            x = 8 \/ x = 9 \/ x = 10 \/ x = 11 \/ x = 12 \/ x = 13 \/ x = 14 \/
            x = 15) by (intros; lia).
  destruct (Hcases a Ha) as [->|[->|[->|[->|[->|[->|[->|[->|[->|[->|[->|[->|[->|[->|[->| ->]]]]]]]]]]]]]]];
  destruct (Hcases b Hb) as [->|[->|[->|[->|[->|[->|[->|[->|[->|[->|[->|[->|[->|[->|[->| ->]]]]]]]]]]]]]]];
  first [reflexivity | discriminate H].
Qed.

Lemma hex_digits_length n u : String.length (hex_digits n u) = n.
Proof. induction n as [|n IH]; cbn; [reflexivity|]. rewrite IH. reflexivity. Qed.

Lemma hex_digits_injective n :
  forall u v, 0 <= u -> 0 <= v ->
    hex_digits n u = hex_digits n v ->
    u mod 16 ^ Z.of_nat n = v mod 16 ^ Z.of_nat n.
Proof.
  induction n as [|n IH]; intros u v Hu Hv H.
  - cbn. rewrite !Z.mod_1_r. reflexivity.
  - cbn [hex_digits] in H. injection H as Hd Hr.
    apply hex_digit_injective in Hd; try (apply Z.mod_pos_bound; lia).
    specialize (IH u v Hu Hv Hr).
    rewrite Nat2Z.inj_succ, Z.pow_succ_r by lia.
    assert (Hp : 0 < 16 ^ Z.of_nat n) by (apply Z.pow_pos_nonneg; lia).
    rewrite (Z.mul_comm 16).
    rewrite !Z.rem_mul_r by lia.
    rewrite IH, Hd. reflexivity.
Qed.

Lemma format_08lx_injective s1 s2 :
  - 2 ^ 31 <= s1 < 2 ^ 31 -> - 2 ^ 31 <= s2 < 2 ^ 31 ->
  format_08lx s1 = format_08lx s2 -> s1 = s2.
Proof.
  intros H1 H2 H. unfold format_08lx in H.
  apply hex_digits_injective in H;
    try (unfold ULONG_wrap; apply Z.mod_pos_bound; lia).
  change (16 ^ Z.of_nat 8) with (2 ^ 32) in H.
  unfold ULONG_wrap in H. rewrite !Z.mod_mod in H by lia.
  assert (E1 : s1 mod 2 ^ 32 = if s1 <? 0 then s1 + 2 ^ 32 else s1).
  { destruct (s1 <? 0) eqn:E; [apply Z.ltb_lt in E|apply Z.ltb_ge in E].
    - symmetry. apply Z.mod_unique with (q := -1); lia.
    - apply Z.mod_small. lia. }
  assert (E2 : s2 mod 2 ^ 32 = if s2 <? 0 then s2 + 2 ^ 32 else s2).
  { destruct (s2 <? 0) eqn:E; [apply Z.ltb_lt in E|apply Z.ltb_ge in E].
    - symmetry. apply Z.mod_unique with (q := -1); lia.
    - apply Z.mod_small. lia. }
  rewrite E1, E2 in H.
  destruct (s1 <? 0) eqn:F1; destruct (s2 <? 0) eqn:F2;
    [apply Z.ltb_lt in F1|apply Z.ltb_lt in F1|apply Z.ltb_ge in F1|apply Z.ltb_ge in F1];
    [apply Z.ltb_lt in F2|apply Z.ltb_ge in F2|apply Z.ltb_lt in F2|apply Z.ltb_ge in F2];
    lia.
Qed.

Lemma append_cancel (p a b : string) : (p ++ a = p ++ b)%string -> a = b.
Proof.
  induction p as [|c p IH]; cbn [append]; intros H; [exact H|].
  injection H as H. exact (IH H).
Qed.

Lemma unknown_text_length s :
  String.length ("Unknown error 0x" ++ format_08lx s) = 24%nat.
Proof.
  unfold format_08lx. cbn [append]. cbn [String.length].
  rewrite hex_digits_length. reflexivity.
Qed.

Section StatusMessageFacts.

Variable safe_sprintf : nat -> string -> string.
Hypothesis safe_sprintf_fits :
  forall count text,
    (String.length text < count)%nat -> safe_sprintf count text = text.

Lemma unknown_message s :
  safe_sprintf 32 ("Unknown error 0x" ++ format_08lx s)
  = ("Unknown error 0x" ++ format_08lx s)%string.
Proof. apply safe_sprintf_fits. rewrite unknown_text_length. lia. Qed.

Ltac status_cases s :=
  unfold NtStatusError;
  repeat match goal with
  | |- context [if s =? ?c then _ else _] =>
      let E := fresh "E" in
      destruct (s =? c) eqn:E; [apply Z.eqb_eq in E|apply Z.eqb_neq in E]
  end.

(** X1: two different statuses never get the same message from
    [NtStatusError], provided [safe_sprintf] leaves a text that fits its
    buffer as it is: the sixteen texts of the table differ from one
    another, and a status outside the table is shown with all its eight
    hexadecimal digits, which the 32 bytes of [unknown] always hold. *)
Theorem different_statuses_have_different_messages (s1 s2 : NTSTATUS) :
  - 2 ^ 31 <= s1 < 2 ^ 31 -> - 2 ^ 31 <= s2 < 2 ^ 31 ->
  s1 <> s2 ->
  NtStatusError safe_sprintf s1 <> NtStatusError safe_sprintf s2.
Proof.
  intros H1 H2 Hne H. apply Hne. revert H.
  status_cases s1; status_cases s2; rewrite ?unknown_message;
    try congruence; try (intros H; discriminate H).
  intros H. apply append_cancel in H.
  apply format_08lx_injective; assumption.
Qed.

End StatusMessageFacts.

Lemma substring_all (text : string) :
  forall n, (String.length text <= n)%nat -> substring 0 n text = text.
Proof.
  induction text as [|c text IH]; intros n Hn.
  - destruct n; reflexivity.
  - destruct n as [|n]; [cbn in Hn; lia|].
    cbn [substring]. rewrite IH; [reflexivity|cbn in Hn; lia].
Qed.

Lemma truncating_sprintf_fits count text :
  (String.length text < count)%nat -> truncating_sprintf count text = text.
Proof. intros H. apply substring_all. lia. Qed.

Lemma different_statuses_witness :
  NtStatusError truncating_sprintf STATUS_ACCESS_DENIED
  <> NtStatusError truncating_sprintf (ntstatus 0xC0000005).
Proof.
  apply (different_statuses_have_different_messages truncating_sprintf
           truncating_sprintf_fits);
    [vm_compute; split; [discriminate|reflexivity]
    |vm_compute; split; [discriminate|reflexivity]
    |discriminate].
Defined.

(** ** The private heap (lines 109-145) *)

Ltac heap_tests :=
  repeat match goal with
  | X : negb _ = true |- _ => apply negb_true_iff in X
  | X : negb _ = false |- _ => apply negb_false_iff in X
  | X : (_ =? _) = true |- _ => apply Z.eqb_eq in X
  | X : (_ =? _) = false |- _ => apply Z.eqb_neq in X
  end.

Section HeapFacts.

Context {W : Type} (os : OS W).

(** X2: [PhCreateHeap] reports success exactly when a heap handle is in
    place afterwards, be it the one just created or one that was already
    there. *)
Theorem heap_is_there_iff_creation_succeeds (m : machine W) :
  let r := PhCreateHeap os m in
  NT_SUCCESS (value_of r) = true <-> PhHeapHandle (machine_of r) <> NULL.
Proof.
  intros r. subst r.
  destruct (PhCreateHeap os m) as [[st m'] e] eqn:H.
  unfold value_of, machine_of; cbn [fst snd].
  unfold PhCreateHeap, pfRtlCreateHeap in H.
  minv H; cbn [PhHeapHandle set_PhHeapHandle set_world]; heap_tests.
  all: split; intros X; try assumption; try reflexivity; try congruence;
       try discriminate; try contradiction.
Qed.


(** X4: once [PhCreateHeap] has succeeded, calling it again changes
    nothing and reaches no native entry point: it answers
    [STATUS_ALREADY_COMPLETE]. *)
Theorem second_creation_changes_nothing (m : machine W) :
  NT_SUCCESS (value_of (PhCreateHeap os m)) = true ->
  PhCreateHeap os (machine_of (PhCreateHeap os m))
  = (STATUS_ALREADY_COMPLETE, machine_of (PhCreateHeap os m), []).
Proof.
  intros Hs.
  assert (Hh : (PhHeapHandle (machine_of (PhCreateHeap os m)) =? NULL) = false).
  { destruct (PhCreateHeap os m) as [[st m'] e] eqn:H.
    unfold value_of, machine_of in *; cbn [fst snd] in *.
    unfold PhCreateHeap, pfRtlCreateHeap in H.
    minv H; cbn [PhHeapHandle set_PhHeapHandle set_world]; heap_tests;
      apply Z.eqb_neq; first [assumption | congruence | discriminate Hs]. }
  unfold PhCreateHeap at 1. unfold bind, get_heap. rewrite Hh. reflexivity.
Qed.

(** X5: creation followed by destruction, from a state without heap.
    When the creation fails the destruction finds nothing to do and makes
    no native call; when both succeed the heap destroyed is the heap
    created, and no handle is left. *)
Theorem creation_then_destruction (m : machine W) :
  PhHeapHandle m = NULL ->
  let r1 := PhCreateHeap os m in
  let r2 := PhDestroyHeap os (machine_of r1) in
  (NT_SUCCESS (value_of r1) = false ->
   value_of r2 = STATUS_ALREADY_COMPLETE /\ events_of r2 = [] /\
   machine_of r2 = machine_of r1) /\
  (NT_SUCCESS (value_of r1) = true -> NT_SUCCESS (value_of r2) = true ->
   exists heap,
     heap <> NULL /\
     events_of r1 ++ events_of r2
     = [EvRtlCreateHeap heap; EvRtlDestroyHeap heap NULL] /\
     PhHeapHandle (machine_of r2) = NULL).
Proof.
  intros Hm r1 r2. subst r1 r2.
  destruct (PhCreateHeap os m) as [[st1 m1] e1] eqn:H1.
  destruct (PhDestroyHeap os (machine_of (st1, m1, e1))) as [[st2 m2] e2] eqn:H2.
  unfold value_of, events_of, machine_of in *; cbn [fst snd] in *.
  unfold PhCreateHeap, pfRtlCreateHeap in H1.
  unfold PhDestroyHeap, pfRtlDestroyHeap in H2.
  minv H1; minv H2;
    cbn [PhHeapHandle set_PhHeapHandle set_world] in *; heap_tests;
    try congruence.
  all: split; [intros X; try discriminate; try congruence; auto|].
  all: intros X Y; try discriminate; try congruence.
  subst. eexists. split; [eassumption|]. split; reflexivity.
Qed.

End HeapFacts.

Lemma second_creation_witness :
  PhCreateHeap (Sim.os Sim.one_handle)
    (machine_of (PhCreateHeap (Sim.os Sim.one_handle) Sim.boot))
  = (STATUS_ALREADY_COMPLETE,
     machine_of (PhCreateHeap (Sim.os Sim.one_handle) Sim.boot), []).
Proof.
  apply (second_creation_changes_nothing (Sim.os Sim.one_handle) Sim.boot).
  vm_compute. reflexivity.
Defined.

Lemma creation_then_destruction_witness :
  let r1 := PhCreateHeap (Sim.os Sim.one_handle) Sim.boot in
  let r2 := PhDestroyHeap (Sim.os Sim.one_handle) (machine_of r1) in
  NT_SUCCESS (value_of r1) = true /\ NT_SUCCESS (value_of r2) = true /\
  exists heap,
    heap <> NULL /\
    events_of r1 ++ events_of r2
    = [EvRtlCreateHeap heap; EvRtlDestroyHeap heap NULL] /\
    PhHeapHandle (machine_of r2) = NULL.
Proof.
  intros r1 r2.
  assert (H1 : NT_SUCCESS (value_of r1) = true) by (vm_compute; reflexivity).
  assert (H2 : NT_SUCCESS (value_of r2) = true) by (vm_compute; reflexivity).
  split; [exact H1|]. split; [exact H2|].
  exact (proj2 (creation_then_destruction (Sim.os Sim.one_handle) Sim.boot
                  eq_refl) H1 H2).
Defined.

(** ** The snapshot buffer of [PhEnumHandlesEx] (lines 186-226) *)

Lemma allocated_app a b : allocated (a ++ b) = allocated a ++ allocated b.
Proof. apply flat_map_app. Qed.
Lemma freed_app a b : freed (a ++ b) = freed a ++ freed b.
Proof. apply flat_map_app. Qed.
Lemma snapshot_queries_app a b :
  snapshot_queries (a ++ b) = snapshot_queries a ++ snapshot_queries b.
Proof. apply flat_map_app. Qed.

Create Rewrite HintDb heap_traffic.
#[local] Hint Rewrite allocated_app freed_app snapshot_queries_app app_nil_r
  : heap_traffic.

Ltac traffic :=
  autorewrite with heap_traffic;
  cbn [allocated freed snapshot_queries flat_map allocated_of freed_of
       snapshot_query_of app fst snd];
  rewrite ?app_nil_r.

Section SnapshotFacts.

Context {W : Type} (os : OS W).
Variable PH_LARGE_BUFFER_SIZE : Z.

Local Abbreviation enumerate := (PhEnumHandlesEx os PH_LARGE_BUFFER_SIZE).
Local Abbreviation enumerating := (enum_loop os PH_LARGE_BUFFER_SIZE).

(** What [PhFree] and [PhAllocate] leave in the trace and the machine. *)
Lemma PhFree_inv p m u m' e :
  PhFree os p m = (u, m', e) ->
  initialBufferSize m' = initialBufferSize m /\
  PhHeapHandle m' = PhHeapHandle m /\
  allocated e = [] /\ snapshot_queries e = [] /\
  freed e = (if pf_resolved os pRtlFreeHeap then [p] else []).
Proof.
  intros H. unfold PhFree, pfRtlFreeHeap in H. minv H;
    repeat split; traffic; reflexivity.
Qed.

Lemma PhAllocate_inv n m p m' e :
  PhAllocate os n m = (p, m', e) ->
  initialBufferSize m' = initialBufferSize m /\
  PhHeapHandle m' = PhHeapHandle m /\
  freed e = [] /\ snapshot_queries e = [] /\
  allocated e = (if p =? NULL then [] else [p]).
Proof.
  intros H. unfold PhAllocate, pfRtlAllocateHeap in H. minv H;
    repeat split; traffic; reflexivity.
Qed.

Ltac traffic_facts :=
  repeat match goal with
  | H : PhFree _ _ _ = _ |- _ =>
      apply PhFree_inv in H; destruct H as (? & ? & ? & ? & ?)
  | H : PhAllocate _ _ _ = _ |- _ =>
      apply PhAllocate_inv in H; destruct H as (? & ? & ? & ? & ?)
  end.

Ltac use_traffic :=
  traffic;
  repeat match goal with
  | X : allocated ?e = _ |- context [allocated ?e] => rewrite X
  | X : freed ?e = _ |- context [freed ?e] => rewrite X
  | X : snapshot_queries ?e = _ |- context [snapshot_queries ?e] => rewrite X
  end;
  cbn [app]; rewrite ?app_nil_r.

(** The loop of lines 202-214 from a buffer [buf] of [size] bytes. *)
Lemma enum_loop_inv fuel :
  forall buf size m x m' e,
    enumerating fuel buf size m = (Some x, m', e) ->
    buf <> NULL ->
    initialBufferSize m' = initialBufferSize m /\
    match x with
    | EnumReturn st =>
        NT_SUCCESS st = false /\
        Forall mismatch (snapshot_queries e) /\
        (pf_resolved os pRtlFreeHeap = true -> buf :: allocated e = freed e)
    | EnumDone st b sz info =>
        b <> NULL /\ st <> STATUS_INFO_LENGTH_MISMATCH /\
        (exists pre, Forall mismatch pre /\
                     snapshot_queries e = pre ++ [(b, sz, st)]) /\
        (pf_resolved os pRtlFreeHeap = true ->
         buf :: allocated e = freed e ++ [b]) /\
        (PH_LARGE_BUFFER_SIZE < 2 ^ 31 -> 0 < size < 2 ^ 31 ->
         size <= sz < 2 ^ 31)
    end.
Proof.
  induction fuel as [|fuel IH]; intros buf size m x m' e H Hbuf.
  - cbn in H. discriminate.
  - cbn [enum_loop] in H. unfold pfNtQuerySystemInformation in H.
    minv H; heap_tests.
    + (* the ceiling is passed *)
      traffic_facts. cbn [initialBufferSize set_world] in *.
      split; [congruence|]. split; [reflexivity|]. split.
      * use_traffic. constructor; [|constructor].
        unfold mismatch. cbn. assumption.
      * intros Hr. use_traffic. rewrite Hr. reflexivity.
    + (* no memory *)
      traffic_facts. cbn [initialBufferSize set_world] in *.
      split; [congruence|]. split; [reflexivity|]. split.
      * use_traffic. constructor; [|constructor].
        unfold mismatch. cbn. assumption.
      * intros Hr. use_traffic. subst. rewrite Hr. reflexivity.
    + (* another query *)
      match goal with
      | Hl : enum_loop _ _ _ _ _ _ = _, Hn : _ <> NULL |- _ =>
          apply IH in Hl; [destruct Hl as (I0 & I1)|exact Hn];
          apply Z.eqb_neq in Hn
      end.
      traffic_facts. cbn [initialBufferSize set_world] in *.
      split; [congruence|].
      destruct x as [st|st b sz info].
      * destruct I1 as (I1 & I2 & I3). split; [exact I1|]. split.
        -- use_traffic. constructor; [|exact I2].
           unfold mismatch. cbn. assumption.
        -- intros Hr. use_traffic. rewrite Hr.
           match goal with Hn : (_ =? NULL) = false |- _ => rewrite Hn end.
           cbn [app]. rewrite <- (I3 Hr). reflexivity.
      * destruct I1 as (I1 & I2 & (pre & I3 & I4) & I5 & I6).
        split; [exact I1|]. split; [exact I2|]. split; [|split].
        -- exists ((buf, size, fst a) :: pre). split.
           ++ constructor; [|exact I3]. unfold mismatch. cbn. assumption.
           ++ use_traffic. reflexivity.
        -- intros Hr. use_traffic. rewrite Hr.
           match goal with Hn : (_ =? NULL) = false |- _ => rewrite Hn end.
           cbn [app]. rewrite <- (I5 Hr). reflexivity.
        -- intros Hc Hs.
           assert (Hd : ULONG_wrap (size * 2) = size * 2)
             by (unfold ULONG_wrap; apply Z.mod_small; lia).
           rewrite Hd in *.
           match goal with Hl : (_ <? _) = false |- _ => apply Z.ltb_ge in Hl end.
           specialize (I6 Hc ltac:(lia)). lia.
    + (* the query answers *)
      cbn [initialBufferSize set_world].
      split; [reflexivity|]. split; [assumption|]. split; [assumption|].
      split; [|split].
      * exists []. split; [constructor|]. reflexivity.
      * intros _. reflexivity.
      * intros _ Hs. lia.
Qed.

Lemma enum_loop_machine fuel :
  forall buf size m,
    initialBufferSize (machine_of (enumerating fuel buf size m))
    = initialBufferSize m.
Proof.
  induction fuel as [|fuel IH]; intros buf size m; [reflexivity|].
  destruct (enumerating (S fuel) buf size m) as [[r m'] e] eqn:H.
  unfold machine_of; cbn [fst snd].
  cbn [enum_loop] in H. unfold pfNtQuerySystemInformation in H.
  minv H; traffic_facts; cbn [initialBufferSize set_world] in *;
    try congruence.
  match goal with
  | Hl : enum_loop _ _ _ ?b ?s ?m1 = _ |- _ =>
      specialize (IH b s m1); rewrite Hl in IH;
      unfold machine_of in IH; cbn [fst snd] in IH
  end.
  congruence.
Qed.

(** All of [PhEnumHandlesEx] at once: what it returns, the queries it
    made, the blocks it took and gave back, and the seed size. *)
Lemma PhEnumHandlesEx_inv fuel m r m' e :
  enumerate fuel m = (r, m', e) ->
  match r with
  | None => initialBufferSize m' = initialBufferSize m
  | Some (st, None) =>
      NT_SUCCESS st = false /\
      initialBufferSize m' = initialBufferSize m /\
      (pf_resolved os pRtlFreeHeap = true -> allocated e = freed e)
  | Some (st, Some (b, info)) =>
      NT_SUCCESS st = true /\ b <> NULL /\
      (exists pre sz,
         Forall mismatch pre /\
         snapshot_queries e = pre ++ [(b, sz, st)] /\
         initialBufferSize m'
         = (if sz <=? 0x200000 then sz else initialBufferSize m) /\
         (PH_LARGE_BUFFER_SIZE < 2 ^ 31 -> 0 < initialBufferSize m < 2 ^ 31 ->
          initialBufferSize m <= sz)) /\
      (pf_resolved os pRtlFreeHeap = true -> allocated e = freed e ++ [b])
  end.
Proof.
  intros H. unfold PhEnumHandlesEx in H.
  minv H; heap_tests; subst;
    try match goal with
    | Hl : enum_loop _ _ ?f ?b ?s ?m1 = (?x, _, _) |- _ =>
        pose proof (enum_loop_machine f b s m1) as Hm; rewrite Hl in Hm;
        unfold machine_of in Hm; cbn [fst snd] in Hm;
        try (apply enum_loop_inv in Hl; [|assumption]);
        rename Hl into Hloop
    end;
    traffic_facts;
    cbn [initialBufferSize set_initialBufferSize set_world] in *.
  - split; [assumption|]. split; [reflexivity|]. intros _. reflexivity.
  - split; [reflexivity|]. split; [congruence|]. intros _.
    use_traffic. reflexivity.
  - destruct Hloop as (_ & I1 & _ & I3). split; [exact I1|].
    split; [congruence|]. intros Hr. use_traffic.
    match goal with Hn : ?p <> NULL |- _ => apply Z.eqb_neq in Hn; rewrite Hn end.
    apply I3. exact Hr.
  - destruct Hloop as (_ & I1 & I2 & (pre & I3 & I4) & I5 & I6).
    split; [assumption|]. split; [congruence|]. intros Hr. use_traffic.
    match goal with Hn : ?p <> NULL |- _ => apply Z.eqb_neq in Hn; rewrite Hn end.
    cbn [app]. rewrite (I5 Hr), Hr. reflexivity.
  - destruct Hloop as (_ & I1 & I2 & (pre & I3 & I4) & I5 & I6).
    split; [assumption|]. split; [exact I1|]. split.
    + match type of I4 with
      | _ = _ ++ [(_, ?size, _)] => exists pre, size
      end.
      split; [exact I3|]. split.
      * use_traffic. reflexivity.
      * split; [rewrite Hif2; reflexivity|].
        intros Hc Hs. apply I6; [exact Hc|]. lia.
    + intros Hr. use_traffic.
      match goal with Hn : ?p <> NULL |- _ => apply Z.eqb_neq in Hn; rewrite Hn end.
      cbn [app]. apply I5. exact Hr.
  - destruct Hloop as (_ & I1 & I2 & (pre & I3 & I4) & I5 & I6).
    split; [assumption|]. split; [exact I1|]. split.
    + match type of I4 with
      | _ = _ ++ [(_, ?size, _)] => exists pre, size
      end.
      split; [exact I3|]. split.
      * use_traffic. reflexivity.
      * split; [rewrite Hif2; congruence|].
        intros Hc Hs. apply I6; [exact Hc|]. lia.
    + intros Hr. use_traffic.
      match goal with Hn : ?p <> NULL |- _ => apply Z.eqb_neq in Hn; rewrite Hn end.
      cbn [app]. apply I5. exact Hr.
  - congruence.
Qed.

(** X6: [PhEnumHandlesEx] hands out a snapshot exactly when it reports
    success.  The buffer is then not null and is the one the last query
    filled, every query before it having answered
    [STATUS_INFO_LENGTH_MISMATCH]. *)
Theorem snapshot_is_handed_out_exactly_on_success fuel m st snap :
  value_of (enumerate fuel m) = Some (st, snap) ->
  (NT_SUCCESS st = true <-> snap <> None) /\
  (forall buf info,
     snap = Some (buf, info) ->
     buf <> NULL /\
     exists pre size,
       Forall mismatch pre /\
       snapshot_queries (events_of (enumerate fuel m))
       = pre ++ [(buf, size, st)]).
Proof.
  destruct (enumerate fuel m) as [[r m'] e] eqn:H.
  unfold value_of, events_of; cbn [fst snd]. intros ->.
  apply PhEnumHandlesEx_inv in H. destruct snap as [[b info]|].
  - destruct H as (H1 & H2 & (pre & sz & H3 & H4 & _) & _).
    split; [split; [discriminate|auto]|].
    intros buf info' [= <- <-]. split; [exact H2|]. exists pre, sz. auto.
  - destruct H as (H1 & _). split; [|discriminate].
    split; [congruence|intros X; contradiction].
Qed.

(** X7: when [RtlFreeHeap] is available, [PhEnumHandlesEx] gives back
    every block it took from the heap, in the order it took them, except
    the one it hands out: nothing is left behind by a failing call. *)
Theorem snapshot_buffers_are_given_back fuel m st snap :
  pf_resolved os pRtlFreeHeap = true ->
  value_of (enumerate fuel m) = Some (st, snap) ->
  allocated (events_of (enumerate fuel m))
  = freed (events_of (enumerate fuel m))
    ++ match snap with Some (buf, _) => [buf] | None => [] end.
Proof.
  intros Hr.
  destruct (enumerate fuel m) as [[r m'] e] eqn:H.
  unfold value_of, events_of; cbn [fst snd]. intros ->.
  apply PhEnumHandlesEx_inv in H. destruct snap as [[b info]|].
  - destruct H as (_ & _ & _ & H). exact (H Hr).
  - destruct H as (_ & _ & H). rewrite app_nil_r. exact (H Hr).
Qed.

(** X8: the size [PhEnumHandlesEx] starts from on its next call.  A call
    that fails, or that is cut short, leaves it as it was; a call that
    succeeds sets it to the size of its last query if that is at most
    2 MB, and leaves it otherwise. *)
Theorem snapshot_seed_follows_the_last_success fuel m :
  let r := enumerate fuel m in
  let seed := initialBufferSize m in
  let seed' := initialBufferSize (machine_of r) in
  match value_of r with
  | Some (st, Some (buf, _)) =>
      exists pre size,
        snapshot_queries (events_of r) = pre ++ [(buf, size, st)] /\
        seed' = (if size <=? 0x200000 then size else seed)
  | _ => seed' = seed
  end.
Proof.
  intros r seed seed'. subst r seed seed'.
  destruct (enumerate fuel m) as [[r m'] e] eqn:H.
  unfold value_of, events_of, machine_of; cbn [fst snd].
  apply PhEnumHandlesEx_inv in H.
  destruct r as [[st [[b info]|]]|].
  - destruct H as (_ & _ & (pre & sz & _ & H1 & H2 & _) & _).
    exists pre, sz. auto.
  - destruct H as (_ & H & _). exact H.
  - exact H.
Qed.

(** X9: with a ceiling below 2^31, a seed size between 1 and 2 MB stays
    in that range over any call of [PhEnumHandlesEx], and never
    shrinks. *)
Theorem snapshot_seed_never_shrinks fuel m :
  PH_LARGE_BUFFER_SIZE < 2 ^ 31 ->
  0 < initialBufferSize m <= 0x200000 ->
  initialBufferSize m
  <= initialBufferSize (machine_of (enumerate fuel m)) <= 0x200000.
Proof.
  intros Hc Hs.
  destruct (enumerate fuel m) as [[r m'] e] eqn:H.
  unfold machine_of; cbn [fst snd].
  apply PhEnumHandlesEx_inv in H.
  destruct r as [[st [[b info]|]]|].
  - destruct H as (_ & _ & (pre & sz & _ & _ & H1 & H2) & _).
    specialize (H2 Hc ltac:(lia)). rewrite H1.
    destruct (sz <=? 0x200000) eqn:E; [apply Z.leb_le in E|]; lia.
  - destruct H as (_ & H & _). lia.
  - lia.
Qed.

End SnapshotFacts.

Lemma snapshot_is_handed_out_witness :
  (NT_SUCCESS STATUS_SUCCESS = true
   <-> Some (Sim.block 0x40000, Sim.snapshot snapshot_of_256k) <> None) /\
  (forall buf info,
     Some (Sim.block 0x40000, Sim.snapshot snapshot_of_256k) = Some (buf, info) ->
     buf <> NULL /\
     exists pre size,
       Forall mismatch pre /\
       snapshot_queries
         (events_of (PhEnumHandlesEx (Sim.os snapshot_of_256k) Sim.ceiling 64
                       Sim.boot))
       = pre ++ [(buf, size, STATUS_SUCCESS)]).
Proof.
  apply (snapshot_is_handed_out_exactly_on_success
           (Sim.os snapshot_of_256k) Sim.ceiling 64 Sim.boot).
  vm_compute. reflexivity.
Defined.

Lemma snapshot_buffers_witness :
  allocated (events_of (PhEnumHandlesEx (Sim.os Sim.huge_snapshot)
                          Sim.ceiling 64 Sim.boot))
  = freed (events_of (PhEnumHandlesEx (Sim.os Sim.huge_snapshot)
                        Sim.ceiling 64 Sim.boot)) ++ [] /\
  allocated (events_of (PhEnumHandlesEx (Sim.os snapshot_of_256k)
                          Sim.ceiling 64 Sim.boot))
  = freed (events_of (PhEnumHandlesEx (Sim.os snapshot_of_256k)
                        Sim.ceiling 64 Sim.boot)) ++ [Sim.block 0x40000].
Proof.
  split.
  - apply (snapshot_buffers_are_given_back (Sim.os Sim.huge_snapshot)
             Sim.ceiling 64 Sim.boot STATUS_INSUFFICIENT_RESOURCES None);
      [reflexivity|vm_compute; reflexivity].
  - apply (snapshot_buffers_are_given_back (Sim.os snapshot_of_256k)
             Sim.ceiling 64 Sim.boot STATUS_SUCCESS
             (Some (Sim.block 0x40000, Sim.snapshot snapshot_of_256k)));
      [reflexivity|vm_compute; reflexivity].
Defined.

Lemma snapshot_seed_witness :
  initialBufferSize Sim.boot
  <= initialBufferSize
       (machine_of (PhEnumHandlesEx (Sim.os snapshot_of_256k) Sim.ceiling 64
                      Sim.boot))
  <= 0x200000.
Proof.
  apply (snapshot_seed_never_shrinks (Sim.os snapshot_of_256k) Sim.ceiling 64
           Sim.boot); vm_compute; [reflexivity|split; [reflexivity|discriminate]].
Defined.

(** ** Matching in partial mode (lines 390-391 and 500-506) *)

Lemma wcslen_without_terminator (t : list WCHAR) :
  Forall (fun c => c <> 0) t -> wcslen t = List.length t.
Proof.
  induction 1 as [|c t Hc _ IH]; cbn; [reflexivity|].
  apply Z.eqb_neq in Hc. rewrite Hc, IH. reflexivity.
Qed.

Lemma wcsncmp_prefix (t : list WCHAR) :
  Forall (fun c => c <> 0) t ->
  forall s, wcsncmp t s (List.length t) = 0 <-> exists rest, s = t ++ rest.
Proof.
  induction 1 as [|c t Hc _ IH]; intros s.
  - cbn. split; [intros _; exists s; reflexivity|reflexivity].
  - cbn [List.length wcsncmp hd tl].
    destruct s as [|d s]; cbn [hd tl].
    + apply Z.eqb_neq in Hc. rewrite Hc.
      destruct (c <? 0); split; try discriminate;
        intros (rest & Hr); discriminate Hr.
    + destruct (c =? d) eqn:E.
      * apply Z.eqb_eq in E. subst d. apply Z.eqb_neq in Hc. rewrite Hc.
        rewrite IH. split; intros (rest & Hr); exists rest.
        -- rewrite Hr. reflexivity.
        -- cbn in Hr. injection Hr as Hr. exact Hr.
      * apply Z.eqb_neq in E.
        destruct (c <? d); split; try discriminate;
          intros (rest & Hr); cbn in Hr; injection Hr as Hr _; congruence.
Qed.

(** X10: in partial mode, for a target of fewer than 65536 characters, a
    candidate whose name the system reports as [s] matches exactly when
    the target is a prefix of [s]. *)
Theorem partial_match_is_a_prefix_test (target s : list WCHAR) :
  Forall (fun c => c <> 0) target ->
  Z.of_nat (List.length target) < 2 ^ 16 ->
  name_matches true target (USHORT_cast (Z.of_nat (wcslen target)))
    (unicode_string_of s) = true
  <-> exists rest, s = target ++ rest.
Proof.
  intros Ht Hlen. rewrite (wcslen_without_terminator _ Ht).
  unfold USHORT_cast. rewrite Z.mod_small by lia.
  unfold name_matches, unicode_string_of. cbn [negb andb Length Buffer].
  rewrite Nat2Z.id, <- (wcsncmp_prefix _ Ht s).
  destruct (2 * Z.of_nat (List.length s) <? Z.of_nat (List.length target)) eqn:E.
  - apply Z.ltb_lt in E. split; [discriminate|].
    intros H. apply (wcsncmp_prefix _ Ht) in H. destruct H as (rest & ->).
    rewrite length_app in E. lia.
  - apply Z.eqb_eq.
Qed.

Lemma partial_match_witness :
  name_matches true (Sim.wide "\Device\Harddisk")
    (USHORT_cast (Z.of_nat (wcslen (Sim.wide "\Device\Harddisk"))))
    (unicode_string_of (Sim.wide Sim.file_txt)) = true
  <-> exists rest, Sim.wide Sim.file_txt = Sim.wide "\Device\Harddisk" ++ rest.
Proof.
  apply (partial_match_is_a_prefix_test (Sim.wide "\Device\Harddisk")
           (Sim.wide Sim.file_txt)).
  - repeat constructor; discriminate.
  - reflexivity.
Defined.

(** ** Walking the trace of a search *)

Lemma run_app {S : Type} (step : S -> event -> option S) (s : S) a b :
  run step s (a ++ b)
  = match run step s a with Some s' => run step s' b | None => None end.
Proof.
  revert s. induction a as [|e a IH]; intros s; cbn; [reflexivity|].
  destruct (step s e); [apply IH|reflexivity].
Qed.

Lemma run_housekeeping {S : Type} (step : S -> event -> option S) :
  ignores_housekeeping step ->
  forall tr s, Forall housekeeping_event tr -> run step s tr = Some s.
Proof.
  intros Hstep tr s H. revert s.
  induction H as [|e tr He _ IH]; intros s; cbn; [reflexivity|].
  rewrite (Hstep s e He). apply IH.
Qed.

Lemma vetted_ignores_housekeeping : ignores_housekeeping vetted_step.
Proof. intros s e He. destruct e; cbn in He; try contradiction; reflexivity. Qed.

Ltac fields :=
  cbn [buffer bufferSize name dupHandle processHandle bFound pid cur_pid
       last_access_denied_pid exe cur_exe set_buffer set_bufferSize set_name
       set_dupHandle set_processHandle set_bFound set_pid set_cur_pid
       set_last_access_denied_pid set_exe set_cur_exe fst snd] in *.

(** Split on what a native call wrote through an out parameter. *)
Ltac options :=
  repeat match goal with
  | |- context [match ?o with Some _ => _ | None => _ end] =>
      is_var o; destruct o
  | _ : context [match ?o with Some _ => _ | None => _ end] |- _ =>
      is_var o; destruct o
  | |- context [if ?n =? STATUS_ACCESS_DENIED then _ else _] =>
      destruct (n =? STATUS_ACCESS_DENIED) eqn:?
  | _ : context [if ?n =? STATUS_ACCESS_DENIED then _ else _] |- _ =>
      destruct (n =? STATUS_ACCESS_DENIED) eqn:?
  end;
  fields.

(** Lines 460-522 taken apart, the name query left whole. *)
Ltac tail_inv H :=
  unfold dup_stage, filetype_stage, name_stage, match_stage, report_stage,
    pfNtDuplicateObject, pfGetFileType, pfGetModuleFileNameExU,
    pfGetProcessId, uprintf, uuprintf in H;
  minv H; fields; options.

(** Lines 421-458 taken apart, the opening of the process and the rest of
    the body left whole. *)
Ltac head_inv H :=
  unfold loop_body, track_pid, gate_stage, open_stage, CHECK_FOR_USER_CANCEL,
    pfNtClose, uprintf, uuprintf in H;
  minv H; fields;
  repeat match goal with
  | Ho : PhOpenProcess ?o ?p ?m = (_, _, ?e) |- _ =>
      let X := fresh "Hopen" in
      pose proof (PhOpenProcess_events o p m) as X;
      rewrite Ho in X; unfold events_of in X; cbn [fst snd] in X;
      subst e; clear Ho
  end;
  options.

(** One pass of the name query taken apart. *)
Ltac query_inv H :=
  cbn [query_name_loop] in H; unfold pfNtQueryObject, uuprintf in H;
  minv H; fields.

Ltac tests :=
  repeat match goal with
  | X : negb _ = true |- _ => apply negb_true_iff in X
  | X : negb _ = false |- _ => apply negb_false_iff in X
  end;
  repeat match goal with
  | X : ?b = true |- context [?b] => rewrite X
  | X : ?b = false |- context [?b] => rewrite X
  end.

(** Walk a monitor along the events of a path. *)
Ltac walk step :=
  repeat first
    [ progress cbn [run step app]
    | rewrite Z.eqb_refl
    | rewrite run_app
    | match goal with
      | X : run _ _ ?e = _ |- context [run _ _ ?e] => rewrite X
      | X : forall s, run _ s ?e = _ |- context [run _ _ ?e] => rewrite X
      | X : ?b = true |- context [if ?b then _ else _] => rewrite X
      | X : ?b = false |- context [if ?b then _ else _] => rewrite X
      end ].

Section Walks.

Context {W : Type} (os : OS W).
Variable PH_LARGE_BUFFER_SIZE : Z.
Variable pid1_indeterminate : Z.
Variable exe1_indeterminate : string.

(** *** The parts of a search *)

Lemma PhFree_housekeeping p m u m' e :
  PhFree os p m = (u, m', e) -> Forall housekeeping_event e.
Proof.
  intros H. pose proof (PhFree_events os p m) as X. rewrite H in X. exact X.
Qed.

Lemma PhAllocate_housekeeping n m p m' e :
  PhAllocate os n m = (p, m', e) -> Forall housekeeping_event e.
Proof.
  intros H. pose proof (PhAllocate_events os n m) as X. rewrite H in X. exact X.
Qed.

(** The label [out:]: one summary line, then housekeeping. *)
Lemma out_inv HandleName found b h m o m' e :
  out os HandleName found b h m = (o, m', e) ->
  o = Returned found /\
  exists e',
    Forall housekeeping_event e' /\
    e = EvUprintf (if found then LCloseApplications
                   else LNotIdentified HandleName) :: e'.
Proof.
  intros H. unfold out, uprintf in H. minv H.
  all: repeat match goal with
       | X : PhFree _ _ _ = _ |- _ => apply PhFree_housekeeping in X
       | X : PhDestroyHeap _ ?m = (_, _, ?e) |- _ =>
           let Y := fresh in
           pose proof (PhDestroyHeap_events os m) as Y; rewrite X in Y;
           unfold events_of in Y; cbn [fst snd] in Y; clear X
       end.
  all: split; [reflexivity|]; eexists; split; [|cbn [app]; reflexivity].
  all: repeat first [ apply Forall_cons; [exact I|] | apply Forall_app; split
                    | assumption | apply Forall_nil ].
Qed.

(** How a search is put together: the capture of the snapshot, the
    allocation of the name buffer, the loop, the label [out:]. *)
Lemma SearchProcess_inv fuel HandleName bPartialMatch bIgnoreSelf m o m' e :
  SearchProcess os PH_LARGE_BUFFER_SIZE pid1_indeterminate exe1_indeterminate
    fuel HandleName bPartialMatch bIgnoreSelf m = (o, m', e) ->
  exists r m0 e0,
    capture os PH_LARGE_BUFFER_SIZE fuel m = (r, m0, e0) /\
    Forall housekeeping_event e0 /\
    match r with
    | None => o = Diverged /\ e = e0
    | Some (status, snapshot) =>
        if NT_SUCCESS status then
          exists buffer0 m1 e1,
            PhAllocate os 0x200 m0 = (buffer0, m1, e1) /\
            Forall housekeeping_event e1 /\
            if buffer0 =? NULL then
              exists e2,
                out os HandleName false buffer0
                  match snapshot with Some s => fst s | None => NULL end m1
                = (o, m', e2) /\
                e = e0 ++ e1 ++ e2
            else
              exists c f m2 e2,
                search_loop os
                  match snapshot with
                  | Some s => snd s
                  | None => {| NumberOfHandles := O; Handles := [] |}
                  end
                  HandleName (utf8_to_wchar os HandleName)
                  (USHORT_cast (Z.of_nat (wcslen (utf8_to_wchar os HandleName))))
                  bPartialMatch bIgnoreSelf
                  (Handles match snapshot with
                           | Some s => snd s
                           | None => {| NumberOfHandles := O; Handles := [] |}
                           end)
                  O (initial_frame pid1_indeterminate exe1_indeterminate buffer0)
                  m1
                = ((c, f), m2, e2) /\
                match c with
                | Crash => o = Crashed /\ e = e0 ++ e1 ++ e2
                | _ =>
                    exists e3,
                      out os HandleName (bFound f) (buffer f)
                        match snapshot with Some s => fst s | None => NULL end
                        m2
                      = (o, m', e3) /\
                      e = e0 ++ e1 ++ e2 ++ e3
                end
        else
          exists e1,
            out os HandleName false NULL NULL m0 = (o, m', e1) /\
            e = e0 ++ EvUprintf (LWarningEnumerate status) :: e1
    end.
Proof.
  intros H. unfold SearchProcess in H.
  apply bind_inv in H. destruct H as (r & m0 & e0 & e1 & Hc & H & ->).
  exists r, m0, e0. split; [exact Hc|].
  pose proof (capture_events os PH_LARGE_BUFFER_SIZE fuel m) as Hq.
  rewrite Hc in Hq. unfold events_of in Hq; cbn [fst snd] in Hq.
  split; [exact Hq|].
  destruct r as [[status snapshot]|]; cbv beta iota in H.
  2: { apply ret_inv in H. destruct H as (-> & _ & ->).
       rewrite app_nil_r. auto. }
  destruct (NT_SUCCESS status); cbn [negb] in H.
  2: { unfold uprintf in H. apply bind_inv in H.
       destruct H as (u & m1 & e2 & e3 & Hu & H & ->).
       apply emit_inv in Hu. destruct Hu as (-> & ->).
       exists e3. auto. }
  apply bind_inv in H. destruct H as (buffer0 & m1 & e2 & e3 & Ha & H & ->).
  exists buffer0, m1, e2. split; [exact Ha|].
  split; [exact (PhAllocate_housekeeping _ _ _ _ _ Ha)|].
  destruct (buffer0 =? NULL).
  { exists e3. auto. }
  apply bind_inv in H. destruct H as ([c f] & m2 & e4 & e5 & Hl & H & ->).
  exists c, f, m2, e4. split; [exact Hl|].
  destruct c; cbv beta iota in H;
    try (exists e5; split; [exact H|reflexivity]).
  apply ret_inv in H. destruct H as (-> & _ & ->).
  rewrite app_nil_r. auto.
Qed.

Section Passes.

Variable handles : SYSTEM_HANDLE_INFORMATION_EX.
Variable HandleName : string.
Variable wHandleName : list WCHAR.
Variable wHandleNameLen : Z.
Variable bPartialMatch bIgnoreSelf : bool.

Local Abbreviation duplicating :=
  (dup_stage os HandleName wHandleName wHandleNameLen
     bPartialMatch bIgnoreSelf).
Local Abbreviation body :=
  (loop_body os handles HandleName wHandleName wHandleNameLen
     bPartialMatch bIgnoreSelf).
Local Abbreviation looping :=
  (search_loop os handles HandleName wHandleName wHandleNameLen
     bPartialMatch bIgnoreSelf).

(** *** The file type is checked before the name is asked for *)

Lemma query_name_loop_vetted more :
  forall f m st f' m' e,
    query_name_loop os more f m = ((st, f'), m', e) ->
    run vetted_step (Some (dupHandle f)) e = Some (Some (dupHandle f)) /\
    dupHandle f' = dupHandle f.
Proof.
  induction more as [|more IH]; intros f m st f' m' e H; query_inv H;
    repeat match goal with
    | X : PhFree _ _ _ = _ |- _ =>
        apply PhFree_housekeeping in X;
        apply (run_housekeeping _ vetted_ignores_housekeeping) with (s := Some (dupHandle f)) in X
    | X : PhAllocate _ _ _ = _ |- _ =>
        apply PhAllocate_housekeeping in X;
        apply (run_housekeeping _ vetted_ignores_housekeeping) with (s := Some (dupHandle f)) in X
    | X : query_name_loop _ _ _ _ = _ |- _ =>
        apply IH in X; fields; destruct X as (X & ?)
    end;
    walk vetted_step; auto.
Qed.

Lemma dup_stage_vetted i h f m c f' m' e :
  duplicating i h f m = ((c, f'), m', e) ->
  forall s, run vetted_step s e <> None.
Proof.
  intros H s. tail_inv H;
    repeat match goal with
    | X : query_name_loop _ _ _ _ = _ |- _ =>
        apply query_name_loop_vetted in X; fields; destruct X as (X & _)
    end;
    tests; walk vetted_step; discriminate.
Qed.

Lemma loop_body_vetted i h f m c f' m' e :
  body i h f m = ((c, f'), m', e) ->
  forall s, run vetted_step s e <> None.
Proof.
  intros H s. head_inv H;
    try match goal with
    | X : dup_stage _ _ _ _ _ _ _ _ _ _ = (_, _, ?e) |- _ =>
        pose proof (dup_stage_vetted _ _ _ _ _ _ _ _ X) as Hd
    end;
    walk vetted_step;
    try match goal with
    | |- context [run vetted_step ?s ?e] =>
        specialize (Hd s); destruct (run vetted_step s e); [|contradiction]
    end;
    walk vetted_step; discriminate.
Qed.

Lemma search_loop_vetted slots :
  forall i f m c f' m' e,
    looping slots i f m = ((c, f'), m', e) ->
    forall s, run vetted_step s e <> None.
Proof.
  induction slots as [|h rest IH]; intros i f m c f' m' e H s;
    cbn [search_loop] in H; unfold close_dup, pfNtClose in H; minv H;
    repeat match goal with
    | X : loop_body _ _ _ _ _ _ _ _ _ _ _ = (_, _, ?e) |- _ =>
        pose proof (loop_body_vetted _ _ _ _ _ _ _ _ X) as Hb; clear X
    | X : search_loop _ _ _ _ _ _ _ _ _ _ _ = (_, _, ?e) |- _ =>
        pose proof (IH _ _ _ _ _ _ _ X) as Hl; clear X
    end;
    walk vetted_step;
    repeat match goal with
    | Hx : forall s, run vetted_step s ?e <> None
      |- context [run vetted_step ?s ?e] =>
        let E := fresh in
        destruct (run vetted_step s e) eqn:E;
          [|exfalso; exact (Hx s E)]; walk vetted_step
    end;
    try discriminate.
Qed.

End Passes.

(** X11: whatever the system answers, [SearchProcess] asks for the name
    of a handle only after [GetFileType] has found that very handle to be
    a disk file, with no duplication and no close in between. *)
Theorem name_is_asked_of_disk_files_only fuel HandleName bPartialMatch
    bIgnoreSelf m :
  run vetted_step None
    (events_of (SearchProcess os PH_LARGE_BUFFER_SIZE pid1_indeterminate
                  exe1_indeterminate fuel HandleName bPartialMatch
                  bIgnoreSelf m))
  <> None.
Proof.
  destruct (SearchProcess os PH_LARGE_BUFFER_SIZE pid1_indeterminate
              exe1_indeterminate fuel HandleName bPartialMatch bIgnoreSelf m)
    as [[o m'] e] eqn:H.
  unfold events_of; cbn [fst snd].
  apply SearchProcess_inv in H. destruct H as (r & m0 & e0 & _ & H0 & H).
  pose proof (run_housekeeping _ vetted_ignores_housekeeping e0 None H0) as R0.
  destruct r as [[status snapshot]|].
  2: { destruct H as (_ & ->). rewrite R0. discriminate. }
  destruct (NT_SUCCESS status).
  2: { destruct H as (e1 & Ho & ->). apply out_inv in Ho.
       destruct Ho as (_ & e' & He' & ->).
       pose proof (run_housekeeping _ vetted_ignores_housekeeping e' None He').
       walk vetted_step. discriminate. }
  destruct H as (buffer0 & m1 & e1 & _ & H1 & H).
  pose proof (run_housekeeping _ vetted_ignores_housekeeping e1 None H1) as R1.
  destruct (buffer0 =? NULL).
  { destruct H as (e2 & Ho & ->). apply out_inv in Ho.
    destruct Ho as (_ & e' & He' & ->).
    pose proof (run_housekeeping _ vetted_ignores_housekeeping e' None He').
    walk vetted_step. discriminate. }
  destruct H as (c & f & m2 & e2 & Hl & H).
  pose proof (search_loop_vetted _ _ _ _ _ _ _ _ _ _ _ _ _ _ Hl None) as R2.
  destruct (run vetted_step None e2) as [s2|] eqn:E2; [|contradiction].
  destruct c;
    try (destruct H as (e3 & Ho & ->); apply out_inv in Ho;
         destruct Ho as (_ & e' & He' & ->);
         pose proof (run_housekeeping _ vetted_ignores_housekeeping e' s2 He');
         walk vetted_step; discriminate).
  destruct H as (_ & ->). walk vetted_step. discriminate.
Qed.

End Walks.

(** ** The name buffer (lines 393-396 and 476-489) *)

Lemma run_accepts_housekeeping {S : Type} (step : S -> event -> option S) :
  accepts_housekeeping step ->
  forall tr s, Forall housekeeping_event tr -> run step s tr <> None.
Proof.
  intros Hstep tr s H. revert s.
  induction H as [|e tr He _ IH]; intros s; cbn; [discriminate|].
  specialize (Hstep s e He). destruct (step s e); [apply IH|contradiction].
Qed.

Lemma buffer_accepts_housekeeping : accepts_housekeeping buffer_step.
Proof.
  intros s e He. destruct e; cbn in He; try contradiction; discriminate.
Qed.

Section NameBuffer.

Context {W : Type} (os : OS W).
Variable PH_LARGE_BUFFER_SIZE : Z.
Variable pid1_indeterminate : Z.
Variable exe1_indeterminate : string.

Section Passes.

Variable handles : SYSTEM_HANDLE_INFORMATION_EX.
Variable HandleName : string.
Variable wHandleName : list WCHAR.
Variable wHandleNameLen : Z.
Variable bPartialMatch bIgnoreSelf : bool.

Hypothesis allocator : pf_resolved os pRtlAllocateHeap = true.

Local Abbreviation duplicating :=
  (dup_stage os HandleName wHandleName wHandleNameLen
     bPartialMatch bIgnoreSelf).
Local Abbreviation body :=
  (loop_body os handles HandleName wHandleName wHandleNameLen
     bPartialMatch bIgnoreSelf).
Local Abbreviation looping :=
  (search_loop os handles HandleName wHandleName wHandleNameLen
     bPartialMatch bIgnoreSelf).

Lemma query_name_loop_buffer more :
  forall f m st f' m' e,
    query_name_loop os more f m = ((st, f'), m', e) ->
    run buffer_step (in_use f) e = Some (in_use f').
Proof.
  unfold in_use.
  induction more as [|more IH]; intros f m st f' m' e H; query_inv H;
    unfold PhFree, PhAllocate, pfRtlFreeHeap, pfRtlAllocateHeap in *;
    repeat match goal with
    | X : (if _ then _ else _) _ = (_, _, _) |- _ => minv X
    end; fields;
    try (rewrite allocator in *; discriminate);
    repeat match goal with
    | X : query_name_loop _ _ _ _ = _ |- _ => apply IH in X; fields
    end;
    walk buffer_step; auto.
Qed.

Lemma dup_stage_buffer i h f m c f' m' e :
  duplicating i h f m = ((c, f'), m', e) ->
  run buffer_step (in_use f) e = Some (in_use f').
Proof.
  intros H. tail_inv H;
    repeat match goal with
    | X : query_name_loop _ _ _ _ = _ |- _ =>
        apply query_name_loop_buffer in X
    end;
    unfold in_use in *; fields; walk buffer_step; reflexivity.
Qed.

Lemma loop_body_buffer i h f m c f' m' e :
  body i h f m = ((c, f'), m', e) ->
  run buffer_step (in_use f) e = Some (in_use f').
Proof.
  intros H. head_inv H;
    repeat match goal with
    | X : dup_stage _ _ _ _ _ _ _ _ _ _ = _ |- _ =>
        apply dup_stage_buffer in X
    end;
    unfold in_use in *; fields; walk buffer_step; reflexivity.
Qed.

Lemma search_loop_buffer slots :
  forall i f m c f' m' e,
    looping slots i f m = ((c, f'), m', e) ->
    run buffer_step (in_use f) e = Some (in_use f').
Proof.
  induction slots as [|h rest IH]; intros i f m c f' m' e H;
    cbn [search_loop] in H; unfold close_dup, pfNtClose in H; minv H;
    repeat match goal with
    | X : loop_body _ _ _ _ _ _ _ _ _ _ _ = _ |- _ =>
        apply loop_body_buffer in X
    | X : search_loop _ _ _ _ _ _ _ _ _ _ _ = _ |- _ => apply IH in X
    end;
    unfold in_use in *; fields; walk buffer_step; reflexivity.
Qed.

End Passes.

(** X12: whatever the system answers, every [NtQueryObject] of a search
    is given the block that [RtlAllocateHeap] handed out last, together
    with the size that was asked for it, and no block has been freed
    since: the name is never written into a freed block or past the end
    of the one in use. *)
Theorem name_is_written_into_the_block_in_use fuel HandleName bPartialMatch
    bIgnoreSelf m :
  run buffer_step None
    (events_of (SearchProcess os PH_LARGE_BUFFER_SIZE pid1_indeterminate
                  exe1_indeterminate fuel HandleName bPartialMatch
                  bIgnoreSelf m))
  <> None.
Proof.
  destruct (SearchProcess os PH_LARGE_BUFFER_SIZE pid1_indeterminate
              exe1_indeterminate fuel HandleName bPartialMatch bIgnoreSelf m)
    as [[o m'] e] eqn:H.
  unfold events_of; cbn [fst snd].
  apply SearchProcess_inv in H. destruct H as (r & m0 & e0 & _ & H0 & H).
  pose proof (run_accepts_housekeeping _ buffer_accepts_housekeeping) as Hk.
  pose proof (Hk e0 None H0) as R0.
  destruct (run buffer_step None e0) as [s0|] eqn:E0; [clear R0|contradiction].
  destruct r as [[status snapshot]|].
  2: { destruct H as (_ & ->). rewrite E0. discriminate. }
  destruct (NT_SUCCESS status).
  2: { destruct H as (e1 & Ho & ->). apply out_inv in Ho.
       destruct Ho as (_ & e' & He' & ->).
       rewrite run_app, E0. cbn [run buffer_step]. apply Hk. exact He'. }
  destruct H as (buffer0 & m1 & e1 & Ha & H1 & H).
  destruct (buffer0 =? NULL) eqn:Hb.
  { destruct H as (e2 & Ho & ->). apply out_inv in Ho.
    destruct Ho as (_ & e' & He' & ->).
    rewrite run_app, E0.
    pose proof (Hk e1 s0 H1) as R1.
    destruct (run buffer_step s0 e1) as [s1|] eqn:E1; [|contradiction].
    rewrite run_app, E1. cbn [run buffer_step]. apply Hk. exact He'. }
  destruct H as (c & f & m2 & e2 & Hl & H).
  assert (Hres : pf_resolved os pRtlAllocateHeap = true).
  { unfold PhAllocate in Ha.
    destruct (pf_resolved os pRtlAllocateHeap); [reflexivity|].
    cbn [negb] in Ha. apply ret_inv in Ha. destruct Ha as (-> & _).
    discriminate Hb. }
  assert (E1 : run buffer_step s0 e1
               = Some (in_use (initial_frame pid1_indeterminate
                                 exe1_indeterminate buffer0))).
  { unfold PhAllocate, pfRtlAllocateHeap in Ha. rewrite Hres in Ha.
    cbn [negb] in Ha. minv Ha. reflexivity. }
  apply (search_loop_buffer _ _ _ _ _ _ Hres) in Hl.
  destruct c;
    try (destruct H as (e3 & Ho & ->); apply out_inv in Ho;
         destruct Ho as (_ & e' & He' & ->);
         walk buffer_step; apply Hk; exact He').
  destruct H as (_ & ->). walk buffer_step. discriminate.
Qed.

End NameBuffer.

(** ** Duplicated handles (lines 410-413 and 460-470) *)

Lemma duplicate_ignores_housekeeping : ignores_housekeeping duplicate_step.
Proof. intros s e He. destruct e; cbn in He; try contradiction; reflexivity. Qed.

Section Duplicates.

Context {W : Type} (os : OS W).
Variable PH_LARGE_BUFFER_SIZE : Z.
Variable pid1_indeterminate : Z.
Variable exe1_indeterminate : string.

Section Passes.

Variable handles : SYSTEM_HANDLE_INFORMATION_EX.
Variable HandleName : string.
Variable wHandleName : list WCHAR.
Variable wHandleNameLen : Z.
Variable bPartialMatch bIgnoreSelf : bool.

Local Abbreviation duplicating :=
  (dup_stage os HandleName wHandleName wHandleNameLen
     bPartialMatch bIgnoreSelf).
Local Abbreviation body :=
  (loop_body os handles HandleName wHandleName wHandleNameLen
     bPartialMatch bIgnoreSelf).
Local Abbreviation looping :=
  (search_loop os handles HandleName wHandleName wHandleNameLen
     bPartialMatch bIgnoreSelf).

Lemma query_name_loop_duplicates more :
  forall f m st f' m' e,
    query_name_loop os more f m = ((st, f'), m', e) ->
    (forall s, run duplicate_step s e = Some s) /\
    dupHandle f' = dupHandle f /\ processHandle f' = processHandle f.
Proof.
  induction more as [|more IH]; intros f m st f' m' e H; query_inv H;
    repeat match goal with
    | X : PhFree _ _ _ = _ |- _ =>
        apply PhFree_housekeeping in X;
        pose proof (fun s =>
          run_housekeeping _ duplicate_ignores_housekeeping _ s X);
        clear X
    | X : PhAllocate _ _ _ = _ |- _ =>
        apply PhAllocate_housekeeping in X;
        pose proof (fun s =>
          run_housekeeping _ duplicate_ignores_housekeeping _ s X);
        clear X
    | X : query_name_loop _ _ _ _ = _ |- _ =>
        apply IH in X; fields; destruct X as (X & ? & ?)
    end;
    (split; [intros s; walk duplicate_step; reflexivity|auto]).
Qed.

Ltac nonnull :=
  repeat match goal with
  | X : (_ =? _) = false |- _ => apply Z.eqb_neq in X
  | X : (_ =? _) = true |- _ => apply Z.eqb_eq in X
  end.

Lemma dup_stage_duplicates i h f m c f' m' e :
  duplicating i h f m = ((c, f'), m', e) ->
  exists s', run duplicate_step None e = Some s' /\ duplicate_tracks s' f'.
Proof.
  intros H. tail_inv H;
    repeat match goal with
    | X : query_name_loop _ _ _ _ = _ |- _ =>
        apply query_name_loop_duplicates in X; fields;
        destruct X as (X & ? & ?)
    end;
    walk duplicate_step;
    try (eexists; split; [reflexivity|left; reflexivity]);
    match goal with
    | |- context [if ?x =? NULL then _ else _] =>
        destruct (x =? NULL) eqn:Hnull
    end;
    walk duplicate_step;
    try (eexists; split; [reflexivity|left; reflexivity]);
    (eexists; split; [reflexivity|]); right; nonnull; fields;
    repeat split; congruence.
Qed.

Lemma loop_body_duplicates i h f m c f' m' e :
  body i h f m = ((c, f'), m', e) ->
  exists s',
    run duplicate_step None e = Some s' /\ duplicate_tracks s' f' /\
    (c = Break \/ c = GotoOut -> s' = None).
Proof.
  intros H. head_inv H;
    repeat match goal with
    | X : dup_stage _ _ _ _ _ _ _ _ _ _ = ((?c, _), _, _) |- _ =>
        let Hc := fresh "Hc" in
        assert (Hc : c <> Break /\ c <> GotoOut)
          by (apply dup_stage_post in X; destruct X as ([-> | ->] & _);
              split; discriminate);
        apply dup_stage_duplicates in X; fields;
        destruct X as (s' & X & ?)
    end;
    walk duplicate_step;
    try (eexists; split; [reflexivity|split; [left; reflexivity|auto]]);
    (eexists; split; [reflexivity|split; [assumption|]]);
    intros [Hx | Hx]; destruct Hc; contradiction.
Qed.

Lemma search_loop_duplicates slots :
  forall i f m c f' m' e s,
    looping slots i f m = ((c, f'), m', e) ->
    duplicate_tracks s f ->
    exists s',
      run duplicate_step s e = Some s' /\ (c <> Crash -> s' = None).
Proof.
  induction slots as [|h rest IH]; intros i f m c f' m' e s H Hs;
    cbn [search_loop] in H; apply bind_inv in H;
    destruct H as (f0 & m0 & e0 & e1 & Hd & H & ->);
    assert (Hclose : run duplicate_step s e0 = Some None)
      by (unfold close_dup, pfNtClose in Hd; minv Hd; fields;
          destruct Hs as [-> | (-> & Hn & Hp)];
          walk duplicate_step; try reflexivity;
          apply Z.eqb_neq in Hn, Hp; rewrite Hn, Hp in *; discriminate);
    rewrite run_app, Hclose.
  - apply ret_inv in H. destruct H as (Hv & _ & ->). injection Hv as -> ->.
    eexists. split; [reflexivity|]. intros X. contradiction.
  - apply bind_inv in H. destruct H as ([c1 f1] & m1 & e2 & e3 & Hb & H & ->).
    apply loop_body_duplicates in Hb. destruct Hb as (s1 & R1 & T1 & E1).
    rewrite run_app, R1.
    destruct c1; cbv beta iota in H;
      [exact (IH _ _ _ _ _ _ _ _ H T1)| | |];
      apply ret_inv in H; destruct H as (Hv & _ & ->);
      injection Hv as -> ->; cbn [run];
      (eexists; split; [reflexivity|]); intros X;
      first [contradiction | apply E1; auto].
Qed.

End Passes.

(** X13: a search that returns has passed every handle it obtained from
    [NtDuplicateObject] to [NtClose], each one before the next
    duplication: no duplicate is left open, on any way out. *)
Theorem duplicates_are_closed fuel HandleName bPartialMatch bIgnoreSelf m
    (found : bool) :
  value_of (SearchProcess os PH_LARGE_BUFFER_SIZE pid1_indeterminate
              exe1_indeterminate fuel HandleName bPartialMatch bIgnoreSelf m)
  = Returned found ->
  run duplicate_step None
    (events_of (SearchProcess os PH_LARGE_BUFFER_SIZE pid1_indeterminate
                  exe1_indeterminate fuel HandleName bPartialMatch
                  bIgnoreSelf m))
  = Some None.
Proof.
  destruct (SearchProcess os PH_LARGE_BUFFER_SIZE pid1_indeterminate
              exe1_indeterminate fuel HandleName bPartialMatch bIgnoreSelf m)
    as [[o m'] e] eqn:H.
  unfold value_of, events_of; cbn [fst snd]. intros ->.
  pose proof (run_housekeeping _ duplicate_ignores_housekeeping) as Hk.
  apply SearchProcess_inv in H. destruct H as (r & m0 & e0 & _ & H0 & H).
  pose proof (Hk e0 None H0) as R0.
  destruct r as [[status snapshot]|]; [|destruct H as (H & _); discriminate H].
  destruct (NT_SUCCESS status).
  2: { destruct H as (e1 & Ho & ->). apply out_inv in Ho.
       destruct Ho as (_ & e' & He' & ->).
       pose proof (Hk e' None He'). walk duplicate_step. reflexivity. }
  destruct H as (buffer0 & m1 & e1 & _ & H1 & H).
  pose proof (Hk e1 None H1) as R1.
  destruct (buffer0 =? NULL).
  { destruct H as (e2 & Ho & ->). apply out_inv in Ho.
    destruct Ho as (_ & e' & He' & ->).
    pose proof (Hk e' None He'). walk duplicate_step. reflexivity. }
  destruct H as (c & f & m2 & e2 & Hl & H).
  apply search_loop_duplicates with (s := None) in Hl; [|left; reflexivity].
  destruct Hl as (s2 & R2 & E2).
  destruct c; try (destruct H as (H & _); discriminate H);
    destruct H as (e3 & Ho & ->); apply out_inv in Ho;
    destruct Ho as (_ & e' & He' & ->);
    rewrite E2 in R2 by discriminate;
    pose proof (Hk e' None He'); walk duplicate_step; reflexivity.
Qed.

End Duplicates.

Lemma duplicates_are_closed_witness :
  value_of (Sim.search Sim.two_handles Sim.file_txt true true)
  = Returned true /\
  run duplicate_step None
    (events_of (Sim.search Sim.two_handles Sim.file_txt true true))
  = Some None.
Proof.
  unfold Sim.search.
  assert (H : value_of (SearchProcess (Sim.os Sim.two_handles) Sim.ceiling 0
                          EmptyString 64 Sim.file_txt true true Sim.boot)
              = Returned true) by (vm_compute; reflexivity).
  split; [exact H|].
  exact (duplicates_are_closed (Sim.os Sim.two_handles) Sim.ceiling 0
           EmptyString 64%nat Sim.file_txt true true Sim.boot true H).
Defined.

(** ** The lines of a search *)

Lemma lines_ignore_housekeeping n : ignores_housekeeping (lines_step n).
Proof. intros s e He. destruct e; cbn in He; try contradiction; reflexivity. Qed.

(** What a trace that the monitor accepts sends to [uprintf]. *)
Ltac line_cases IH :=
  match goal with
  | e : event, tr : list event |- _ =>
      destruct e as [| | | | | | | | | | | | | |l|];
      cbn [run lines_step uprintf_lines flat_map line_of app];
      fold (uprintf_lines tr);
      try (intros H; apply IH in H; exact H);
      destruct l; cbn [run];
      try discriminate
  end.

Lemma lines_after_the_summary n b tr :
  forall s, run (lines_step n) (Done b) tr = Some s ->
            s = Done b /\ uprintf_lines tr = [].
Proof.
  induction tr as [|e tr IH]; intros s; [intros [= <-]; auto|].
  line_cases IH.
Qed.

Lemma lines_after_the_warning n tr :
  forall b, run (lines_step n) Warned tr = Some (Done b) ->
            b = false /\ uprintf_lines tr = [LNotIdentified n].
Proof.
  induction tr as [|e tr IH]; intros b; [discriminate|].
  line_cases IH.
  destruct (String.eqb_spec HandleName n) as [->|]; [|discriminate].
  intros H. apply lines_after_the_summary in H. destruct H as ([= <-] & ->).
  auto.
Qed.

Lemma lines_after_the_header n tr :
  forall b, run (lines_step n) Reporting tr = Some (Done b) ->
            b = true /\
            exists reports,
              Forall report_line reports /\
              uprintf_lines tr = reports ++ [LCloseApplications].
Proof.
  induction tr as [|e tr IH]; intros b; [discriminate|].
  line_cases IH.
  - intros H. apply IH in H. destruct H as (-> & reports & Hr & ->).
    split; [reflexivity|]. eexists (_ :: reports).
    split; cycle 1; [reflexivity|constructor; [exact I|exact Hr]].
  - intros H. apply IH in H. destruct H as (-> & reports & Hr & ->).
    split; [reflexivity|]. eexists (_ :: reports).
    split; cycle 1; [reflexivity|constructor; [exact I|exact Hr]].
  - intros H. apply lines_after_the_summary in H. destruct H as ([= <-] & ->).
    split; [reflexivity|]. exists []. split; [constructor|reflexivity].
Qed.

Lemma lines_from_the_start n tr :
  forall b, run (lines_step n) Searching tr = Some (Done b) ->
            if b then
              exists reports,
                Forall report_line reports /\
                uprintf_lines tr = LHeader n :: reports ++ [LCloseApplications]
            else
              uprintf_lines tr = [LNotIdentified n] \/
              exists status,
                uprintf_lines tr = [LWarningEnumerate status; LNotIdentified n].
Proof.
  induction tr as [|e tr IH]; intros b; [discriminate|].
  line_cases IH.
  - intros H. apply lines_after_the_warning in H. destruct H as (-> & ->).
    right. exists status. reflexivity.
  - destruct (String.eqb_spec HandleName n) as [->|]; [|discriminate].
    intros H. apply lines_after_the_header in H.
    destruct H as (-> & reports & Hr & ->). exists reports. auto.
  - destruct (String.eqb_spec HandleName n) as [->|]; [|discriminate].
    intros H. apply lines_after_the_summary in H. destruct H as ([= ->] & ->).
    left. reflexivity.
Qed.

Section Lines.

Context {W : Type} (os : OS W).
Variable PH_LARGE_BUFFER_SIZE : Z.
Variable pid1_indeterminate : Z.
Variable exe1_indeterminate : string.

Section Passes.

Variable handles : SYSTEM_HANDLE_INFORMATION_EX.
Variable HandleName : string.
Variable wHandleName : list WCHAR.
Variable wHandleNameLen : Z.
Variable bPartialMatch bIgnoreSelf : bool.

Local Abbreviation duplicating :=
  (dup_stage os HandleName wHandleName wHandleNameLen
     bPartialMatch bIgnoreSelf).
Local Abbreviation body :=
  (loop_body os handles HandleName wHandleName wHandleNameLen
     bPartialMatch bIgnoreSelf).
Local Abbreviation looping :=
  (search_loop os handles HandleName wHandleName wHandleNameLen
     bPartialMatch bIgnoreSelf).
Local Abbreviation lines := (lines_step HandleName).

Lemma query_name_loop_lines more :
  forall f m st f' m' e,
    query_name_loop os more f m = ((st, f'), m', e) ->
    (forall s, run lines s e = Some s) /\ bFound f' = bFound f.
Proof.
  induction more as [|more IH]; intros f m st f' m' e H; query_inv H;
    repeat match goal with
    | X : PhFree _ _ _ = _ |- _ =>
        apply PhFree_housekeeping in X;
        pose proof (fun s =>
          run_housekeeping _ (lines_ignore_housekeeping HandleName) _ s X);
        clear X
    | X : PhAllocate _ _ _ = _ |- _ =>
        apply PhAllocate_housekeeping in X;
        pose proof (fun s =>
          run_housekeeping _ (lines_ignore_housekeeping HandleName) _ s X);
        clear X
    | X : query_name_loop _ _ _ _ = _ |- _ =>
        apply IH in X; fields; destruct X as (X & ?)
    end;
    (split; [intros s; walk lines_step; reflexivity|auto]).
Qed.

Ltac phases :=
  unfold phase_of in *; fields;
  repeat match goal with
  | X : bFound ?f = _ |- _ => rewrite X in *
  | X : negb (bFound ?f) = true |- _ => apply negb_true_iff in X
  | X : negb (bFound ?f) = false |- _ => apply negb_false_iff in X
  end.

Lemma dup_stage_lines i h f m c f' m' e :
  duplicating i h f m = ((c, f'), m', e) ->
  run lines (phase_of (bFound f)) e = Some (phase_of (bFound f')).
Proof.
  intros H. tail_inv H;
    repeat match goal with
    | X : query_name_loop _ _ _ _ = _ |- _ =>
        apply query_name_loop_lines in X; fields; destruct X as (X & ?)
    end;
    phases; walk lines_step; rewrite ?String.eqb_refl; reflexivity.
Qed.

Lemma loop_body_lines i h f m c f' m' e :
  body i h f m = ((c, f'), m', e) ->
  run lines (phase_of (bFound f)) e = Some (phase_of (bFound f')).
Proof.
  intros H. head_inv H;
    repeat match goal with
    | X : dup_stage _ _ _ _ _ _ _ _ _ _ = _ |- _ =>
        apply dup_stage_lines in X
    end;
    fields; walk lines_step; reflexivity.
Qed.

Lemma search_loop_lines slots :
  forall i f m c f' m' e,
    looping slots i f m = ((c, f'), m', e) ->
    run lines (phase_of (bFound f)) e = Some (phase_of (bFound f')).
Proof.
  induction slots as [|h rest IH]; intros i f m c f' m' e H;
    cbn [search_loop] in H; unfold close_dup, pfNtClose in H; minv H;
    repeat match goal with
    | X : loop_body _ _ _ _ _ _ _ _ _ _ _ = _ |- _ =>
        apply loop_body_lines in X
    | X : search_loop _ _ _ _ _ _ _ _ _ _ _ = _ |- _ => apply IH in X
    end;
    fields; walk lines_step; reflexivity.
Qed.

End Passes.

Lemma SearchProcess_lines fuel HandleName bPartialMatch bIgnoreSelf m
    (found : bool) :
  value_of (SearchProcess os PH_LARGE_BUFFER_SIZE pid1_indeterminate
              exe1_indeterminate fuel HandleName bPartialMatch bIgnoreSelf m)
  = Returned found ->
  run (lines_step HandleName) Searching
    (events_of (SearchProcess os PH_LARGE_BUFFER_SIZE pid1_indeterminate
                  exe1_indeterminate fuel HandleName bPartialMatch
                  bIgnoreSelf m))
  = Some (Done found).
Proof.
  destruct (SearchProcess os PH_LARGE_BUFFER_SIZE pid1_indeterminate
              exe1_indeterminate fuel HandleName bPartialMatch bIgnoreSelf m)
    as [[o m'] e] eqn:H.
  unfold value_of, events_of; cbn [fst snd]. intros ->.
  pose proof (run_housekeeping _ (lines_ignore_housekeeping HandleName)) as Hk.
  apply SearchProcess_inv in H. destruct H as (r & m0 & e0 & _ & H0 & H).
  pose proof (Hk e0 Searching H0) as R0.
  destruct r as [[status snapshot]|]; [|destruct H as (H & _); discriminate H].
  destruct (NT_SUCCESS status).
  2: { destruct H as (e1 & Ho & ->). apply out_inv in Ho.
       destruct Ho as (Hf & e' & He' & ->). injection Hf as ->.
       pose proof (Hk e' (Done false) He').
       walk lines_step. rewrite String.eqb_refl. walk lines_step.
       reflexivity. }
  destruct H as (buffer0 & m1 & e1 & _ & H1 & H).
  pose proof (Hk e1 Searching H1) as R1.
  destruct (buffer0 =? NULL).
  { destruct H as (e2 & Ho & ->). apply out_inv in Ho.
    destruct Ho as (Hf & e' & He' & ->). injection Hf as ->.
    pose proof (Hk e' (Done false) He').
    walk lines_step. rewrite String.eqb_refl. walk lines_step.
    reflexivity. }
  destruct H as (c & f & m2 & e2 & Hl & H).
  apply search_loop_lines in Hl. cbn [bFound initial_frame phase_of] in Hl.
  destruct c; try (destruct H as (H & _); discriminate H);
    destruct H as (e3 & Ho & ->); apply out_inv in Ho;
    destruct Ho as (Hf & e' & He' & ->); injection Hf as ->;
    pose proof (Hk e' (Done (bFound f)) He');
    walk lines_step; unfold phase_of; destruct (bFound f);
    walk lines_step; rewrite ?String.eqb_refl; walk lines_step; reflexivity.
Qed.

(** X14: what a search that returns has sent to [uprintf].  When it
    returns [TRUE]: the header, then report lines only, then the advice to
    close the applications.  When it returns [FALSE]: the line that no
    process was identified, alone or after the one warning that the handles
    could not be enumerated.  So the header is sent once and before every
    report, there is exactly one closing line, it comes last, and the
    result tells which one it is. *)
Theorem lines_of_a_search fuel HandleName bPartialMatch bIgnoreSelf m
    (found : bool) :
  value_of (SearchProcess os PH_LARGE_BUFFER_SIZE pid1_indeterminate
              exe1_indeterminate fuel HandleName bPartialMatch bIgnoreSelf m)
  = Returned found ->
  let sent :=
    uprintf_lines
      (events_of (SearchProcess os PH_LARGE_BUFFER_SIZE pid1_indeterminate
                    exe1_indeterminate fuel HandleName bPartialMatch
                    bIgnoreSelf m)) in
  if found then
    exists reports,
      Forall report_line reports /\
      sent = LHeader HandleName :: reports ++ [LCloseApplications]
  else
    sent = [LNotIdentified HandleName] \/
    exists status,
      sent = [LWarningEnumerate status; LNotIdentified HandleName].
Proof.
  intros H sent. subst sent. apply SearchProcess_lines in H.
  apply lines_from_the_start in H. exact H.
Qed.

End Lines.

Lemma lines_of_a_search_witness :
  value_of (Sim.search Sim.two_handles Sim.file_txt true true)
  = Returned true /\
  exists reports,
    Forall report_line reports /\
    uprintf_lines
      (events_of (Sim.search Sim.two_handles Sim.file_txt true true))
    = LHeader Sim.file_txt :: reports ++ [LCloseApplications].
Proof.
  unfold Sim.search.
  assert (H : value_of (SearchProcess (Sim.os Sim.two_handles) Sim.ceiling 0
                          EmptyString 64 Sim.file_txt true true Sim.boot)
              = Returned true) by (vm_compute; reflexivity).
  split; [exact H|].
  exact (lines_of_a_search (Sim.os Sim.two_handles) Sim.ceiling 0
           EmptyString 64%nat Sim.file_txt true true Sim.boot true H).
Defined.

(** ** Whose handles a search looks at, and what it closes *)

Lemma outsider_ignores_housekeeping : ignores_housekeeping outsider_step.
Proof. intros s e He. destruct e; cbn in He; try contradiction; reflexivity. Qed.

Lemma close_ignores_housekeeping : ignores_housekeeping close_step.
Proof. intros s e He. destruct e; cbn in He; try contradiction; reflexivity. Qed.

Section Outsiders.

Context {W : Type} (os : OS W).
Variable PH_LARGE_BUFFER_SIZE : Z.
Variable pid1_indeterminate : Z.
Variable exe1_indeterminate : string.

Section Passes.

Variable handles : SYSTEM_HANDLE_INFORMATION_EX.
Variable HandleName : string.
Variable wHandleName : list WCHAR.
Variable wHandleNameLen : Z.
Variable bPartialMatch : bool.

Lemma query_name_loop_quiet {S : Type} (step : S -> event -> option S) more :
  ignores_housekeeping step ->
  (forall s h b n st r, step s (EvNtQueryObject h b n st r) = Some s) ->
  (forall s l, step s (EvUuprintf l) = Some s) ->
  forall f m st f' m' e,
    query_name_loop os more f m = ((st, f'), m', e) ->
    (forall s, run step s e = Some s) /\
    processHandle f' = processHandle f /\ dupHandle f' = dupHandle f.
Proof.
  intros Hk Hq Hu.
  induction more as [|more IH]; intros f m st f' m' e H; query_inv H;
    repeat match goal with
    | X : PhFree _ _ _ = _ |- _ =>
        apply PhFree_housekeeping in X;
        pose proof (fun s => run_housekeeping _ Hk _ s X); clear X
    | X : PhAllocate _ _ _ = _ |- _ =>
        apply PhAllocate_housekeeping in X;
        pose proof (fun s => run_housekeeping _ Hk _ s X); clear X
    | X : query_name_loop _ _ _ _ = _ |- _ =>
        apply IH in X; fields; destruct X as (X & ? & ?)
    end;
    (split; [intros s;
             repeat first
               [ progress cbn [run app] | rewrite Hq | rewrite Hu
               | rewrite run_app
               | match goal with
                 | X : forall s, run _ s ?e = _ |- context [run _ _ ?e] =>
                     rewrite X
                 end ];
             reflexivity
            |auto]).
Qed.

Ltac booleans :=
  repeat match goal with
  | X : negb _ = true |- _ => apply negb_true_iff in X
  | X : negb _ = false |- _ => apply negb_false_iff in X
  | X : _ && _ = true |- _ => apply andb_true_iff in X; destruct X
  end.

Ltac quiet_query lemma :=
  repeat match goal with
  | X : query_name_loop _ _ _ _ = _ |- _ =>
      apply lemma in X; fields; destruct X as (X & ? & ?)
  end.

Ltac same_handles :=
  repeat match goal with
  | X : processHandle ?g = _ |- _ => is_var g; rewrite X in *
  | X : dupHandle ?g = _ |- _ => is_var g; rewrite X in *
  end.

Lemma outsider_query more f m st f' m' e :
  query_name_loop os more f m = ((st, f'), m', e) ->
  (forall s, run outsider_step s e = Some s) /\
  processHandle f' = processHandle f /\ dupHandle f' = dupHandle f.
Proof.
  apply query_name_loop_quiet;
    [exact outsider_ignores_housekeeping|reflexivity|reflexivity].
Qed.

Lemma close_query more f m st f' m' e :
  query_name_loop os more f m = ((st, f'), m', e) ->
  (forall s, run close_step s e = Some s) /\
  processHandle f' = processHandle f /\ dupHandle f' = dupHandle f.
Proof.
  apply query_name_loop_quiet;
    [exact close_ignores_housekeeping|reflexivity|reflexivity].
Qed.

Lemma dup_stage_outsider i h f m c f' m' e :
  dup_stage os HandleName wHandleName wHandleNameLen bPartialMatch true
    i h f m = ((c, f'), m', e) ->
  forall s, run outsider_step s e <> None.
Proof.
  intros H s. tail_inv H; quiet_query outsider_query; booleans;
    same_handles; walk outsider_step; discriminate.
Qed.

Lemma dup_stage_close bIgnoreSelf i h f m c f' m' e :
  dup_stage os HandleName wHandleName wHandleNameLen bPartialMatch bIgnoreSelf
    i h f m = ((c, f'), m', e) ->
  run close_step tt e = Some tt.
Proof.
  intros H. tail_inv H; quiet_query close_query;
    walk close_step; reflexivity.
Qed.

Lemma loop_body_outsider i h f m c f' m' e :
  loop_body os handles HandleName wHandleName wHandleNameLen bPartialMatch true
    i h f m = ((c, f'), m', e) ->
  forall s, run outsider_step s e <> None.
Proof.
  intros H s. head_inv H;
    try match goal with
    | X : dup_stage _ _ _ _ _ _ _ _ _ _ = (_, _, ?e) |- _ =>
        pose proof (dup_stage_outsider _ _ _ _ _ _ _ _ X) as Hd
    end;
    walk outsider_step;
    try match goal with
    | |- context [run outsider_step ?s ?e] =>
        specialize (Hd s); destruct (run outsider_step s e); [|contradiction]
    end;
    walk outsider_step; discriminate.
Qed.

Lemma loop_body_close bIgnoreSelf i h f m c f' m' e :
  loop_body os handles HandleName wHandleName wHandleNameLen bPartialMatch
    bIgnoreSelf i h f m = ((c, f'), m', e) ->
  run close_step tt e = Some tt.
Proof.
  intros H. head_inv H;
    repeat match goal with
    | X : dup_stage _ _ _ _ _ _ _ _ _ _ = _ |- _ => apply dup_stage_close in X
    end;
    booleans; walk close_step; reflexivity.
Qed.

Lemma search_loop_outsider slots :
  forall i f m c f' m' e,
    search_loop os handles HandleName wHandleName wHandleNameLen bPartialMatch
      true slots i f m = ((c, f'), m', e) ->
    forall s, run outsider_step s e <> None.
Proof.
  induction slots as [|h rest IH]; intros i f m c f' m' e H s;
    cbn [search_loop] in H; unfold close_dup, pfNtClose in H; minv H;
    repeat match goal with
    | X : loop_body _ _ _ _ _ _ _ _ _ _ _ = (_, _, ?e) |- _ =>
        pose proof (loop_body_outsider _ _ _ _ _ _ _ _ X) as Hb; clear X
    | X : search_loop _ _ _ _ _ _ _ _ _ _ _ = (_, _, ?e) |- _ =>
        pose proof (IH _ _ _ _ _ _ _ X) as Hl; clear X
    end;
    walk outsider_step;
    repeat match goal with
    | Hx : forall s, run outsider_step s ?e <> None
      |- context [run outsider_step ?s ?e] =>
        let E := fresh in
        destruct (run outsider_step s e) eqn:E;
          [|exfalso; exact (Hx s E)]; walk outsider_step
    end;
    try discriminate.
Qed.

Lemma search_loop_close bIgnoreSelf slots :
  forall i f m c f' m' e,
    search_loop os handles HandleName wHandleName wHandleNameLen bPartialMatch
      bIgnoreSelf slots i f m = ((c, f'), m', e) ->
    run close_step tt e = Some tt.
Proof.
  induction slots as [|h rest IH]; intros i f m c f' m' e H;
    cbn [search_loop] in H; unfold close_dup, pfNtClose in H; minv H;
    repeat match goal with
    | X : loop_body _ _ _ _ _ _ _ _ _ _ _ = _ |- _ => apply loop_body_close in X
    | X : search_loop _ _ _ _ _ _ _ _ _ _ _ = _ |- _ => apply IH in X
    end;
    booleans; walk close_step; reflexivity.
Qed.

End Passes.

(** X15: a search told to ignore the caller's own process asks for the
    file type of a handle only right after duplicating it out of another
    process, and resolves no module name and no process id through the
    caller's pseudo handle: nothing of the caller itself is examined or
    reported. *)
Theorem own_process_is_left_alone fuel HandleName bPartialMatch m :
  run outsider_step false
    (events_of (SearchProcess os PH_LARGE_BUFFER_SIZE pid1_indeterminate
                  exe1_indeterminate fuel HandleName bPartialMatch true m))
  <> None.
Proof.
  destruct (SearchProcess os PH_LARGE_BUFFER_SIZE pid1_indeterminate
              exe1_indeterminate fuel HandleName bPartialMatch true m)
    as [[o m'] e] eqn:H.
  unfold events_of; cbn [fst snd].
  pose proof (run_housekeeping _ outsider_ignores_housekeeping) as Hk.
  apply SearchProcess_inv in H. destruct H as (r & m0 & e0 & _ & H0 & H).
  pose proof (Hk e0 false H0) as R0.
  destruct r as [[status snapshot]|].
  2: { destruct H as (_ & ->). rewrite R0. discriminate. }
  destruct (NT_SUCCESS status).
  2: { destruct H as (e1 & Ho & ->). apply out_inv in Ho.
       destruct Ho as (_ & e' & He' & ->).
       pose proof (Hk e' false He').
       walk outsider_step. discriminate. }
  destruct H as (buffer0 & m1 & e1 & _ & H1 & H).
  pose proof (Hk e1 false H1) as R1.
  destruct (buffer0 =? NULL).
  { destruct H as (e2 & Ho & ->). apply out_inv in Ho.
    destruct Ho as (_ & e' & He' & ->).
    pose proof (Hk e' false He').
    walk outsider_step. discriminate. }
  destruct H as (c & f & m2 & e2 & Hl & H).
  pose proof (search_loop_outsider _ _ _ _ _ _ _ _ _ _ _ _ _ Hl false) as R2.
  destruct (run outsider_step false e2) as [s2|] eqn:E2; [|contradiction].
  destruct c;
    try (destruct H as (e3 & Ho & ->); apply out_inv in Ho;
         destruct Ho as (_ & e' & He' & ->);
         pose proof (Hk e' s2 He');
         walk outsider_step; discriminate).
  destruct H as (_ & ->). walk outsider_step. discriminate.
Qed.

Lemma closes_of_a_walk tr :
  run close_step tt tr = Some tt -> Forall (fun h => h <> NULL) (closes tr).
Proof.
  induction tr as [|e tr IH]; [constructor|].
  destruct e; cbn [run close_step closes flat_map close_of app];
    try exact IH.
  destruct (h =? NULL) eqn:E; [discriminate|].
  intros H. constructor; [apply Z.eqb_neq; exact E|apply IH; exact H].
Qed.

(** X16: whatever the system answers, [SearchProcess] never passes a null
    handle to [NtClose]. *)
Theorem no_null_handle_is_closed fuel HandleName bPartialMatch bIgnoreSelf m :
  Forall (fun h => h <> NULL)
    (closes (events_of (SearchProcess os PH_LARGE_BUFFER_SIZE
                          pid1_indeterminate exe1_indeterminate fuel
                          HandleName bPartialMatch bIgnoreSelf m))).
Proof.
  apply closes_of_a_walk.
  destruct (SearchProcess os PH_LARGE_BUFFER_SIZE pid1_indeterminate
              exe1_indeterminate fuel HandleName bPartialMatch bIgnoreSelf m)
    as [[o m'] e] eqn:H.
  unfold events_of; cbn [fst snd].
  pose proof (run_housekeeping _ close_ignores_housekeeping) as Hk.
  apply SearchProcess_inv in H. destruct H as (r & m0 & e0 & _ & H0 & H).
  pose proof (Hk e0 tt H0) as R0.
  destruct r as [[status snapshot]|].
  2: { destruct H as (_ & ->). exact R0. }
  destruct (NT_SUCCESS status).
  2: { destruct H as (e1 & Ho & ->). apply out_inv in Ho.
       destruct Ho as (_ & e' & He' & ->).
       pose proof (Hk e' tt He'). walk close_step. reflexivity. }
  destruct H as (buffer0 & m1 & e1 & _ & H1 & H).
  pose proof (Hk e1 tt H1) as R1.
  destruct (buffer0 =? NULL).
  { destruct H as (e2 & Ho & ->). apply out_inv in Ho.
    destruct Ho as (_ & e' & He' & ->).
    pose proof (Hk e' tt He'). walk close_step. reflexivity. }
  destruct H as (c & f & m2 & e2 & Hl & H).
  apply search_loop_close in Hl.
  destruct c;
    try (destruct H as (e3 & Ho & ->); apply out_inv in Ho;
         destruct Ho as (_ & e' & He' & ->);
         pose proof (Hk e' tt He'); walk close_step; reflexivity).
  destruct H as (_ & ->). walk close_step. reflexivity.
Qed.

End Outsiders.

(** ** The order in which the records are read (lines 406-442) *)

Section Records.

Context {W : Type} (os : OS W).
Variable handles : SYSTEM_HANDLE_INFORMATION_EX.
Variable HandleName : string.
Variable wHandleName : list WCHAR.
Variable wHandleNameLen : Z.
Variable bPartialMatch bIgnoreSelf : bool.

Local Abbreviation looping :=
  (search_loop os handles HandleName wHandleName wHandleNameLen
     bPartialMatch bIgnoreSelf).

Lemma search_loop_records slots :
  forall i f m c f' m' e,
    looping slots i f m = ((c, f'), m', e) ->
    exists n,
      records_read e = seq i n /\ (n <= List.length slots)%nat /\
      (c = Break -> (NumberOfHandles handles < i + n)%nat).
Proof.
  induction slots as [|h rest IH]; intros i f m c f' m' e H;
    apply search_loop_inv in H.
  - destruct H as (-> & (R & _) & _). exists O.
    split; [exact R|]. split; [reflexivity|discriminate].
  - destruct H as (c1 & f1 & e1 & Hit & Hrest).
    destruct Hit as (R & Hb & _).
    destruct Hrest as [(_ & -> & -> & ->) | (_ & m1 & e2 & Hl & ->)].
    + exists 1%nat. split; [exact R|]. split; [cbn; lia|].
      intros Hc. specialize (Hb Hc). lia.
    + apply IH in Hl. destruct Hl as (n & Rn & Ln & Bn). exists (S n).
      rewrite records_read_app, R, Rn. split; [reflexivity|].
      split; [cbn; lia|]. intros Hc. specialize (Bn Hc). lia.
Qed.

(** X17: the loop reads the records in order, each one once, and when it
    ends through its exit test it has read every record the snapshot
    declares (and the one after them). *)
Theorem declared_records_are_all_read slots f m f' m' e :
  looping slots O f m = ((Break, f'), m', e) ->
  exists k,
    (NumberOfHandles handles <= k)%nat /\ records_read e = seq 0 (S k).
Proof.
  intros H. apply search_loop_records in H.
  destruct H as (n & R & _ & B). specialize (B eq_refl).
  destruct n as [|k]; [lia|]. exists k. split; [lia|exact R].
Qed.

End Records.

Lemma declared_records_witness :
  exists k,
    (2 <= k)%nat /\
    records_read
      (events_of
         (search_loop (Sim.os Sim.two_handles) (Sim.snapshot Sim.two_handles)
            Sim.file_txt (Sim.wide Sim.file_txt) 32 true true
            (Handles (Sim.snapshot Sim.two_handles)) O Sim.first_frame
            Sim.boot))
    = seq 0 (S k).
Proof.
  pose (r := search_loop (Sim.os Sim.two_handles)
               (Sim.snapshot Sim.two_handles) Sim.file_txt
               (Sim.wide Sim.file_txt) 32 true true
               (Handles (Sim.snapshot Sim.two_handles)) O Sim.first_frame
               Sim.boot).
  assert (H : r = ((Break, snd (value_of r)), machine_of r, events_of r))
    by (vm_compute; reflexivity).
  exact (declared_records_are_all_read (Sim.os Sim.two_handles)
           (Sim.snapshot Sim.two_handles) Sim.file_txt (Sim.wide Sim.file_txt)
           32 true true (Handles (Sim.snapshot Sim.two_handles))
           Sim.first_frame Sim.boot (snd (value_of r)) (machine_of r)
           (events_of r) H).
Defined.

(** ** The locals that are not initialised *)

Lemma bind_ext {W A B : Type} (c : M W A) (k1 k2 : A -> M W B) m :
  (forall a m1, k1 a m1 = k2 a m1) -> bind c k1 m = bind c k2 m.
Proof.
  intros H. unfold bind. destruct (c m) as [[a m1] e1]. rewrite H.
  reflexivity.
Qed.

Lemma upd2_twice {A : Type} (a : A * A) k x y :
  upd2 (upd2 a k x) k y = upd2 a k y.
Proof. unfold upd2. destruct (k =? 0); reflexivity. Qed.

Lemma upd2_idx2 {A : Type} (a : A * A) k : upd2 a k (idx2 a k) = a.
Proof. unfold upd2, idx2. destruct a. destruct (k =? 0); reflexivity. Qed.

Lemma with_next_path_same f :
  with_next_path (idx2 (exe f) (cur_exe f)) f = f.
Proof. unfold with_next_path. rewrite upd2_idx2. destruct f. reflexivity. Qed.

Lemma with_next_pid_same f :
  with_next_pid (idx2 (pid f) (cur_pid f)) f = f.
Proof. unfold with_next_pid. rewrite upd2_idx2. destruct f. reflexivity. Qed.

Ltac frame_fields :=
  cbn [buffer bufferSize name dupHandle processHandle bFound pid cur_pid
       last_access_denied_pid exe cur_exe set_buffer set_bufferSize set_name
       set_dupHandle set_processHandle set_bFound set_pid set_cur_pid
       set_last_access_denied_pid set_exe set_cur_exe with_next_path
       with_next_pid with_frame fst snd app].

Ltac unfold_monad :=
  unfold PhFree, PhAllocate, CHECK_FOR_USER_CANCEL;
  unfold pfNtClose, pfNtDuplicateObject, pfGetFileType, pfNtQueryObject,
    pfGetModuleFileNameExU, pfGetProcessId, pfRtlAllocateHeap, pfRtlFreeHeap,
    uprintf, uuprintf;
  unfold bind, ret, emit, os_call, get_heap, put_heap.

(** Run both sides of an equation between two runs of a stage, splitting
    on what the system answers; [sub] relates the two runs of a stage
    that is called on the way. *)
Ltac both_sides sub :=
  repeat first
    [ progress cbn -[query_name_loop dup_stage]
    | progress unfold with_query_frame, with_frame
    | rewrite upd2_twice
    | sub
    | match goal with
      | |- context [match ?t with _ => _ end] =>
          lazymatch t with
          | context [match _ with _ => _ end] => fail
          | _ => destruct t eqn:?
          end
      end ].

Ltac sub_query lemma x :=
  idtac;
  match goal with
  | |- context [query_name_loop ?o ?n ?G ?m1] =>
      match goal with
      | |- context [query_name_loop o n ?F m1] =>
          rewrite (lemma x F G m1 eq_refl)
      end
  end.

Ltac sub_dup lemma x :=
  idtac;
  match goal with
  | |- context [dup_stage ?o ?a ?b ?c ?d ?e ?i ?h ?G ?m1] =>
      match goal with
      | |- context [dup_stage o a b c d e i h ?F m1] =>
          lazymatch F with G => fail | _ => idtac end;
          let y := fresh "y" in
          let Hy := fresh "Hy" in
          destruct (lemma x i h F m1) as (y & Hy);
          change G with (with_next_path x F);
          rewrite Hy; clear Hy
      end
  end.

Section Uninitialised.

Context {W : Type} (os : OS W).

Section Passes.

Variable handles : SYSTEM_HANDLE_INFORMATION_EX.
Variable HandleName : string.
Variable wHandleName : list WCHAR.
Variable wHandleNameLen : Z.
Variable bPartialMatch bIgnoreSelf : bool.

Lemma query_name_loop_next_path more :
  forall x f g m,
    g = with_next_path x f ->
    query_name_loop os more g m
    = with_query_frame (with_next_path x) (query_name_loop os more f m).
Proof.
  induction more as [|more IH]; intros x f g m ->; cbn [query_name_loop];
    unfold_monad; both_sides ltac:(sub_query IH x); reflexivity.
Qed.

Lemma leaf_untouched (c : control) (f : frame) (m : machine W)
    (e : list event) :
  exists y, ((c, f), m, e) = ((c, with_next_path y f), m, e).
Proof.
  exists (idx2 (exe f) (cur_exe f)). rewrite with_next_path_same. reflexivity.
Qed.

Ltac leaf :=
  first
    [ eexists; reflexivity
    | match goal with
      | |- exists y, (?c, ?F, ?m, ?e) = _ => exact (leaf_untouched c F m e)
      end ].

(** Lines 460-522. *)
Lemma dup_stage_next_path x i h f m :
  exists y,
    dup_stage os HandleName wHandleName wHandleNameLen bPartialMatch
      bIgnoreSelf i h (with_next_path x f) m
    = with_frame (with_next_path y)
        (dup_stage os HandleName wHandleName wHandleNameLen bPartialMatch
           bIgnoreSelf i h f m).
Proof.
  unfold dup_stage, filetype_stage, name_stage, match_stage, report_stage.
  unfold_monad.
  both_sides ltac:(sub_query (query_name_loop_next_path 7) x).
  all: leaf.
Qed.

(** Lines 421-522, from a frame whose two free slots hold anything. *)
Lemma loop_body_uninitialised p x i h f m :
  exists y,
    loop_body os handles HandleName wHandleName wHandleNameLen bPartialMatch
      bIgnoreSelf i h (with_next_pid p (with_next_path x f)) m
    = with_frame (with_next_path y)
        (loop_body os handles HandleName wHandleName wHandleNameLen
           bPartialMatch bIgnoreSelf i h f m).
Proof.
  unfold loop_body, track_pid, gate_stage, open_stage, PhOpenProcess.
  unfold_monad.
  both_sides ltac:(sub_dup dup_stage_next_path x).
  all: leaf.
Qed.

(** The loop, from a frame whose two free slots hold anything. *)
Lemma search_loop_uninitialised slots :
  forall i p x f m,
    exists q y,
      search_loop os handles HandleName wHandleName wHandleNameLen
        bPartialMatch bIgnoreSelf slots i
        (with_next_pid p (with_next_path x f)) m
      = with_frame (fun g => with_next_pid q (with_next_path y g))
          (search_loop os handles HandleName wHandleName wHandleNameLen
             bPartialMatch bIgnoreSelf slots i f m).
Proof.
  induction slots as [|h rest IH]; intros i p x f m; cbn [search_loop].
  - exists p, x. unfold close_dup. unfold_monad.
    both_sides fail. all: reflexivity.
  - assert (Hclose : close_dup os (with_next_pid p (with_next_path x f)) m
                     = let '(f0, m0, e0) := close_dup os f m in
                       (with_next_pid p (with_next_path x f0), m0, e0)).
    { unfold close_dup. unfold_monad. both_sides fail. all: reflexivity. }
    unfold bind at 1 3. rewrite Hclose.
    destruct (close_dup os f m) as [[f0 m0] e0].
    unfold bind.
    destruct (loop_body_uninitialised p x i h f0 m0) as (y & ->).
    destruct (loop_body os handles HandleName wHandleName wHandleNameLen
                bPartialMatch bIgnoreSelf i h f0 m0) as [[[c1 f1] m1] e1].
    cbn [with_frame].
    destruct c1.
    + rewrite <- (with_next_pid_same (with_next_path y f1)).
      cbn [pid cur_pid with_next_path set_exe].
      destruct (IH (S i) (idx2 (pid f1) (cur_pid f1)) y f1 m1) as (q & z & ->).
      exists q, z.
      destruct (search_loop os handles HandleName wHandleName wHandleNameLen
                  bPartialMatch bIgnoreSelf rest (S i) f1 m1)
        as [[[c2 f2] m2] e2].
      reflexivity.
    + exists (idx2 (pid f1) (cur_pid f1)), y. cbn [ret with_frame].
      rewrite <- (with_next_pid_same (with_next_path y f1)) at 1.
      reflexivity.
    + exists (idx2 (pid f1) (cur_pid f1)), y. cbn [ret with_frame].
      rewrite <- (with_next_pid_same (with_next_path y f1)) at 1.
      reflexivity.
    + exists (idx2 (pid f1) (cur_pid f1)), y. cbn [ret with_frame].
      rewrite <- (with_next_pid_same (with_next_path y f1)) at 1.
      reflexivity.
Qed.

End Passes.

(** X18: the locals [pid[1]] and [exe[1]] are not initialised, and
    nothing depends on what they hold: each slot is written before it is
    read, so a search runs the same from any two sets of values. *)
Theorem uninitialised_locals_are_not_read PH_LARGE_BUFFER_SIZE
    (p p' : Z) (x x' : string) fuel HandleName bPartialMatch bIgnoreSelf m :
  SearchProcess os PH_LARGE_BUFFER_SIZE p x fuel HandleName bPartialMatch
    bIgnoreSelf m
  = SearchProcess os PH_LARGE_BUFFER_SIZE p' x' fuel HandleName bPartialMatch
      bIgnoreSelf m.
Proof.
  assert (Hany : forall q y,
            SearchProcess os PH_LARGE_BUFFER_SIZE q y fuel HandleName
              bPartialMatch bIgnoreSelf m
            = SearchProcess os PH_LARGE_BUFFER_SIZE 0 EmptyString fuel
                HandleName bPartialMatch bIgnoreSelf m).
  { intros q y. unfold SearchProcess.
    apply bind_ext. intros [[status snapshot]|] m0; [|reflexivity].
    destruct (negb (NT_SUCCESS status)); [reflexivity|].
    apply bind_ext. intros buffer0 m1.
    destruct (buffer0 =? NULL); [reflexivity|].
    change (initial_frame q y buffer0)
      with (with_next_pid q (with_next_path y
                               (initial_frame 0 EmptyString buffer0))).
    unfold bind.
    match goal with
    | |- context [search_loop ?o ?hs ?a ?b ?c ?d ?e ?sl ?i (with_next_pid _ _) ?m1] =>
        destruct (search_loop_uninitialised hs a b c d e sl i q y
                    (initial_frame 0 EmptyString buffer0) m1) as (q' & y' & ->);
        destruct (search_loop o hs a b c d e sl i
                    (initial_frame 0 EmptyString buffer0) m1)
          as [[[c1 f1] m2] e2]
    end.
    cbn [with_frame]. destruct c1; reflexivity. }
  rewrite (Hany p x), (Hany p' x'). reflexivity.
Qed.

End Uninitialised.

(** ** The private heap over a search *)

Ltac machines :=
  cbn [PhHeapHandle initialBufferSize world set_world set_PhHeapHandle
       set_initialBufferSize] in *.

Section HeapUse.

Context {W : Type} (os : OS W).

Lemma heap_triple_bind {A B : Type} P R Q (c : M W A) (k : A -> M W B) :
  heap_triple P c R -> (forall a, heap_triple R (k a) Q) ->
  heap_triple P (bind c k) Q.
Proof.
  intros Hc Hk m b m' e s H Hs.
  apply bind_inv in H. destruct H as (a & m1 & e1 & e2 & H1 & H2 & ->).
  destruct (Hc _ _ _ _ _ H1 Hs) as (s1 & R1 & T1).
  destruct (Hk a _ _ _ _ _ H2 T1) as (s2 & R2 & T2).
  exists s2. rewrite run_app, R1. auto.
Qed.

Lemma heap_triple_weaken {A : Type} (P P' Q : heap_phase -> machine W -> Prop)
    (c : M W A) :
  (forall s m, P' s m -> P s m) -> heap_triple P c Q -> heap_triple P' c Q.
Proof. intros HP Hc m a m' e s H Hs. exact (Hc _ _ _ _ _ H (HP _ _ Hs)). Qed.

Lemma heap_triple_forget {A : Type} (P Q : heap_phase -> machine W -> Prop)
    (c : M W A) :
  heap_triple P c Q -> heap_triple P c (fun _ _ => True).
Proof.
  intros Hc m a m' e s H Hs. destruct (Hc _ _ _ _ _ H Hs) as (s' & R & _).
  exists s'. auto.
Qed.

Lemma in_the_heap_ret {A : Type} (a : A) : in_the_heap (ret (W := W) a).
Proof.
  intros m b m' e s H Hs. apply ret_inv in H. destruct H as (_ & -> & ->).
  exists s. auto.
Qed.

Lemma in_the_heap_emit ev :
  (forall s, heap_step s ev = Some s) -> in_the_heap (emit (W := W) ev).
Proof.
  intros Hev m b m' e s H Hs. apply emit_inv in H. destruct H as (-> & ->).
  exists s. cbn. rewrite Hev. auto.
Qed.

Lemma in_the_heap_os_call {A : Type} (f : W -> A * W) (ev : A -> event) :
  (forall a s, heap_step s (ev a) = Some s) -> in_the_heap (os_call f ev).
Proof.
  intros Hev m b m' e s H Hs. apply os_call_inv in H.
  destruct H as (w & _ & -> & ->). exists s. cbn. rewrite Hev. auto.
Qed.

Lemma in_the_heap_bind {A B : Type} (c : M W A) (k : A -> M W B) :
  in_the_heap c -> (forall a, in_the_heap (k a)) -> in_the_heap (bind c k).
Proof. apply heap_triple_bind. Qed.

Lemma PhFree_in_the_heap p : in_the_heap (PhFree os p).
Proof.
  intros m a m' e s H Hs.
  unfold PhFree, pfRtlFreeHeap in H. minv H; machines.
  - destruct Hs as [-> | ->]; walk heap_step;
      (eexists; split; [reflexivity|right; reflexivity]).
  - exists s. auto.
Qed.

Lemma PhAllocate_in_the_heap n : in_the_heap (PhAllocate os n).
Proof.
  intros m a m' e s H Hs.
  unfold PhAllocate, pfRtlAllocateHeap in H. minv H; machines.
  - exists s. auto.
  - destruct Hs as [-> | ->]; walk heap_step;
      (eexists; split; [reflexivity|right; reflexivity]).
Qed.

Lemma PhOpenProcess_in_the_heap p : in_the_heap (PhOpenProcess os p).
Proof.
  intros m a m' e s H Hs. unfold PhOpenProcess in H. minv H; machines;
    exists s; auto.
Qed.

Lemma cancel_in_the_heap : in_the_heap (CHECK_FOR_USER_CANCEL os).
Proof.
  intros m a m' e s H Hs. unfold CHECK_FOR_USER_CANCEL in H. minv H.
  exists s. auto.
Qed.

Lemma initialBufferSize_in_the_heap :
  in_the_heap (get_initialBufferSize (W := W)) /\
  forall z, in_the_heap (put_initialBufferSize (W := W) z).
Proof.
  split; [|intros z]; intros m a m' e s H Hs;
    unfold get_initialBufferSize, put_initialBufferSize in H;
    injection H as <- <- <-; exists s; auto.
Qed.

End HeapUse.

(** Take a stage apart along its binds and tests. *)
Ltac heap_auto_with known :=
  repeat first
    [ known
    | apply in_the_heap_ret
    | apply in_the_heap_emit; reflexivity
    | apply in_the_heap_os_call; reflexivity
    | apply PhFree_in_the_heap
    | apply PhAllocate_in_the_heap
    | apply PhOpenProcess_in_the_heap
    | apply cancel_in_the_heap
    | apply (proj1 initialBufferSize_in_the_heap)
    | apply (proj2 initialBufferSize_in_the_heap)
    | assumption
    | apply in_the_heap_bind; [|intros ?]
    | match goal with
      | |- in_the_heap (match ?x with _ => _ end) => destruct x
      | |- in_the_heap (let (_, _) := ?x in _) => destruct x
      end ].

Ltac heap_auto := heap_auto_with fail.

Section HeapWalk.

Context {W : Type} (os : OS W).
Variable PH_LARGE_BUFFER_SIZE : Z.
Variable pid1_indeterminate : Z.
Variable exe1_indeterminate : string.

Lemma enum_loop_in_the_heap fuel :
  forall buf size, in_the_heap (enum_loop os PH_LARGE_BUFFER_SIZE fuel buf size).
Proof.
  induction fuel as [|fuel IH]; intros buf size; cbn [enum_loop];
    unfold pfNtQuerySystemInformation; heap_auto.
  apply IH.
Qed.

Lemma PhEnumHandlesEx_in_the_heap fuel :
  in_the_heap (PhEnumHandlesEx os PH_LARGE_BUFFER_SIZE fuel).
Proof.
  unfold PhEnumHandlesEx. heap_auto. apply enum_loop_in_the_heap.
Qed.

Section Passes.

Variable handles : SYSTEM_HANDLE_INFORMATION_EX.
Variable HandleName : string.
Variable wHandleName : list WCHAR.
Variable wHandleNameLen : Z.
Variable bPartialMatch bIgnoreSelf : bool.

Lemma query_name_loop_in_the_heap more :
  forall f, in_the_heap (query_name_loop os more f).
Proof.
  induction more as [|more IH]; intros f; cbn [query_name_loop];
    unfold pfNtQueryObject, uuprintf; heap_auto.
  apply IH.
Qed.

Lemma loop_body_in_the_heap i h f :
  in_the_heap (loop_body os handles HandleName wHandleName wHandleNameLen
                 bPartialMatch bIgnoreSelf i h f).
Proof.
  unfold loop_body, track_pid, gate_stage, open_stage, dup_stage,
    filetype_stage, name_stage, match_stage, report_stage,
    pfNtClose, pfNtDuplicateObject, pfGetFileType, pfGetModuleFileNameExU,
    pfGetProcessId, uprintf, uuprintf.
  heap_auto_with ltac:(apply query_name_loop_in_the_heap).
Qed.

Lemma search_loop_in_the_heap slots :
  forall i f,
    in_the_heap (search_loop os handles HandleName wHandleName wHandleNameLen
                   bPartialMatch bIgnoreSelf slots i f).
Proof.
  induction slots as [|h rest IH]; intros i f; cbn [search_loop];
    unfold close_dup, pfNtClose;
    heap_auto_with ltac:(first [apply loop_body_in_the_heap | apply IH]).
Qed.

End Passes.

Lemma PhCreateHeap_starts_the_heap :
  heap_triple heap_unseen (PhCreateHeap os) heap_tracks.
Proof.
  intros m a m' e s H Hs. unfold heap_unseen in Hs. subst s.
  unfold PhCreateHeap, pfRtlCreateHeap in H. minv H; machines;
    walk heap_step;
    (eexists; split; [reflexivity|]);
    first [left; reflexivity | right; reflexivity].
Qed.

Lemma PhDestroyHeap_ends_the_heap :
  heap_triple heap_tracks (PhDestroyHeap os) (fun _ _ => True).
Proof.
  intros m a m' e s H Hs.
  unfold PhDestroyHeap, pfRtlDestroyHeap in H. minv H; machines;
    destruct Hs as [-> | ->]; walk heap_step; eexists; split;
    first [reflexivity | exact I].
Qed.

Lemma unseen_tracks (s : heap_phase) (m : machine W) :
  heap_unseen s m -> heap_tracks s m.
Proof. intros ->. left. reflexivity. Qed.

Lemma capture_starts_the_heap fuel :
  heap_triple heap_unseen (capture os PH_LARGE_BUFFER_SIZE fuel) heap_tracks.
Proof.
  unfold capture.
  apply heap_triple_bind with (R := heap_tracks).
  - destruct (NT_SUCCESS _).
    + apply PhCreateHeap_starts_the_heap.
    + apply (heap_triple_weaken heap_tracks); [apply unseen_tracks|].
      apply in_the_heap_ret.
  - intros status. destruct (NT_SUCCESS status).
    + apply PhEnumHandlesEx_in_the_heap.
    + apply in_the_heap_ret.
Qed.

Lemma out_ends_the_heap HandleName found b h :
  heap_triple heap_tracks (out os HandleName found b h) (fun _ _ => True).
Proof.
  unfold out, uprintf.
  apply heap_triple_bind with (R := heap_tracks);
    [destruct found; heap_auto|intros _].
  apply heap_triple_bind with (R := heap_tracks); [heap_auto|intros _].
  apply heap_triple_bind with (R := heap_tracks); [heap_auto|intros _].
  apply heap_triple_bind with (R := heap_tracks); [heap_auto|intros _].
  apply heap_triple_bind with (R := fun _ _ => True);
    [apply PhDestroyHeap_ends_the_heap|intros _].
  intros m a m' e s H _. apply ret_inv in H. destruct H as (_ & _ & ->).
  exists s. auto.
Qed.

(** X19: a search works in one heap.  A heap is created at most once and
    before any use; every [RtlAllocateHeap], [RtlFreeHeap] and
    [RtlDestroyHeap] names that same heap; and once [RtlDestroyHeap] has
    been called the heap is not touched again. *)
Theorem a_search_works_in_one_heap fuel HandleName bPartialMatch
    bIgnoreSelf m :
  run heap_step HeapUnseen
    (events_of (SearchProcess os PH_LARGE_BUFFER_SIZE pid1_indeterminate
                  exe1_indeterminate fuel HandleName bPartialMatch
                  bIgnoreSelf m))
  <> None.
Proof.
  assert (H : heap_triple heap_unseen
                (SearchProcess os PH_LARGE_BUFFER_SIZE pid1_indeterminate
                   exe1_indeterminate fuel HandleName bPartialMatch
                   bIgnoreSelf)
                (fun _ _ => True)).
  { unfold SearchProcess.
    apply heap_triple_bind with (R := heap_tracks);
      [apply capture_starts_the_heap|intros r].
    destruct r as [[status snapshot]|].
    2: { apply (heap_triple_forget _ heap_tracks). heap_auto. }
    destruct (negb (NT_SUCCESS status)).
    { apply heap_triple_bind with (R := heap_tracks);
        [unfold uprintf; heap_auto|intros _].
      apply out_ends_the_heap. }
    apply heap_triple_bind with (R := heap_tracks); [heap_auto|intros buffer0].
    destruct (buffer0 =? NULL); [apply out_ends_the_heap|].
    apply heap_triple_bind with (R := heap_tracks);
      [apply search_loop_in_the_heap|intros [c f]].
    destruct c; try apply out_ends_the_heap.
    apply (heap_triple_forget _ heap_tracks). heap_auto. }
  destruct (SearchProcess os PH_LARGE_BUFFER_SIZE pid1_indeterminate
              exe1_indeterminate fuel HandleName bPartialMatch bIgnoreSelf m)
    as [[o m'] e] eqn:E.
  unfold events_of; cbn [fst snd].
  destruct (H _ _ _ _ HeapUnseen E eq_refl) as (s' & R & _).
  rewrite R. discriminate.
Qed.

End HeapWalk.
